(** * Receipt OCR pipeline: text normalisation, heuristic classification and
      the document-state pipeline.

    A shallow embedding of [langchain_ocr/text_processor.py],
    [langchain_ocr/ocr_pipeline.py], [langchain_ocr/ocr_processor.py],
    [langchain_ocr/document_classifier.py], [langchain_ocr/data_extractor.py],
    of [process_image] in [image_processor.py], and of [pdf_processor.py]
    and [process_document.py].

    Conventions.
    - A Python [str] is a [list ascii]: the texts are those whose characters
      are U+0000..U+00FF, and the character classes below are Python's
      ([str.isspace], [\s], [\d], [\w], [str.lower]) on that range.
    - [TextProcessor] computes the scores and confidences in exact
      rationals ([Q]), with [0.6] as [3/5]; equality of scores is [==].
      [TextProcessor64] computes them as the interpreter does, in binary64:
      a float is the rational it stands for and every operation rounds its
      exact result to the nearest float ([Binary64.round]).  The two give
      a text the same type unless its exact confidence is 3/5, where the
      comparison with 0.6 can come out differently.
    - The [re] module is a backtracking matcher over the constructs the
      patterns of [TextProcessor] use.
    - An exception is a value: [None] for [ZeroDivisionError] in the
      classifier, [Raise msg] in the pipeline. *)

From Stdlib Require Import String Ascii NArith ZArith QArith Qminmax Bool Lia Lqa List.
Import ListNotations.

Set Implicit Arguments.
Close Scope Q_scope.
Open Scope nat_scope.

(** ** Python strings *)

Module PyStr.

Definition str := list ascii.

Definition L (s : string) : str := list_ascii_of_string s.

Definition code (c : ascii) : N := N_of_ascii c.

Definition between (lo hi : N) (c : ascii) : bool :=
  (lo <=? code c)%N && (code c <=? hi)%N.

Definition chr_eqb (a b : ascii) : bool := Ascii.eqb a b.

(** [str.isspace] and [\s] *)
Definition is_space (c : ascii) : bool :=
  between 9 13 c || between 28 32 c || (code c =? 133)%N || (code c =? 160)%N.

(** [\d] *)
Definition is_digit (c : ascii) : bool := between 48 57 c.

Definition is_ascii_alnum (c : ascii) : bool :=
  between 48 57 c || between 65 90 c || between 97 122 c.

(** [\w]: alphanumeric or underscore *)
Definition is_word (c : ascii) : bool :=
  is_ascii_alnum c || (code c =? 95)%N
  || (code c =? 170)%N || between 178 179 c || (code c =? 181)%N
  || between 185 186 c || between 188 190 c
  || between 192 214 c || between 216 246 c || between 248 255 c.

(** [str.lower] on one character *)
Definition lower_chr (c : ascii) : ascii :=
  if between 65 90 c || between 192 214 c || between 216 222 c
  then ascii_of_N (code c + 32) else c.

Definition lower (s : str) : str := map lower_chr s.

Fixpoint dropwhile (p : ascii -> bool) (s : str) : str :=
  match s with
  | [] => []
  | c :: s' => if p c then dropwhile p s' else s
  end.

Definition lstrip (s : str) : str := dropwhile is_space s.
Definition rstrip (s : str) : str := rev (dropwhile is_space (rev s)).

(** [s.strip()] *)
Definition strip (s : str) : str := rstrip (lstrip s).

Definition NL : ascii := "010"%char.

(** [s.split('\n')] *)
Fixpoint split_nl (s : str) : list str :=
  match s with
  | [] => [[]]
  | c :: s' =>
      if chr_eqb c NL then [] :: split_nl s'
      else match split_nl s' with
           | l :: ls => (c :: l) :: ls
           | [] => [[c]]
           end
  end.

(** ['\n'.join(ls)] *)
Fixpoint join_nl (ls : list str) : str :=
  match ls with
  | [] => []
  | [l] => l
  | l :: ls' => l ++ NL :: join_nl ls'
  end.

Fixpoint startswith (p s : str) : bool :=
  match p, s with
  | [], _ => true
  | a :: p', b :: s' => chr_eqb a b && startswith p' s'
  | _ :: _, [] => false
  end.

(** [p in s] *)
Fixpoint contains (p s : str) : bool :=
  startswith p s ||
  match s with
  | [] => false
  | _ :: s' => contains p s'
  end.

End PyStr.

(** ** The [re] module *)

Module Re.
Import PyStr.

(** Patterns.  Repetition is only ever applied to a single-character item in
    the patterns modelled here, so [Rep p lo hi] is the greedy [p{lo,hi}]
    ([hi = None] for no upper bound). *)
Inductive regex : Type :=
| Eps
| Cls (p : ascii -> bool)
| Rep (p : ascii -> bool) (lo : nat) (hi : option nat)
| Seq (r1 r2 : regex)
| Alt (r1 r2 : regex)
| WordB
| Eos
| Look (r : regex)
| Group (n : nat) (r : regex).

Definition Chr (c : ascii) : regex := Cls (chr_eqb c).
Definition Star (p : ascii -> bool) : regex := Rep p 0 None.
Definition Plus (p : ascii -> bool) : regex := Rep p 1 None.
Definition Opt (p : ascii -> bool) : regex := Rep p 0 (Some 1).
Definition Times (n : nat) (p : ascii -> bool) : regex := Rep p n (Some n).

Fixpoint Lit (s : str) : regex :=
  match s with
  | [] => Eps
  | [c] => Chr c
  | c :: s' => Seq (Chr c) (Lit s')
  end.

(** Under [re.IGNORECASE] a literal letter matches both of its cases. *)
Definition ChrI (c : ascii) : regex := Cls (fun x => chr_eqb c (lower_chr x)).

Fixpoint LitI (s : str) : regex :=
  match s with
  | [] => Eps
  | [c] => ChrI c
  | c :: s' => Seq (ChrI c) (LitI s')
  end.

Definition captures := list (nat * str).

Fixpoint group (n : nat) (cs : captures) : str :=
  match cs with
  | [] => []
  | (m, g) :: cs' => if Nat.eqb n m then g else group n cs'
  end.

Definition result : Type := str * captures.

Definition can_take (hi : option nat) : bool :=
  match hi with
  | Some 0 => false
  | _ => true
  end.

Definition word_before (prev : option ascii) : bool :=
  match prev with
  | Some c => is_word c
  | None => false
  end.

Definition word_after (s : str) : bool :=
  match s with
  | c :: _ => is_word c
  | [] => false
  end.

(** [$] without [re.MULTILINE]: the end of the string, or just before a
    newline that ends the string. *)
Definition at_end (s : str) : bool :=
  match s with
  | [] => true
  | [c] => chr_eqb c NL
  | _ => false
  end.

(** Greedy repetition of a character class: the longest run is tried first,
    and one character at a time is given back when the rest of the pattern
    fails. *)
Fixpoint rep (p : ascii -> bool) (lo : nat) (hi : option nat)
    (prev : option ascii) (s : str)
    (k : option ascii -> str -> option result) {struct s} : option result :=
  let stop := if Nat.eqb lo 0 then k prev s else None in
  match s with
  | c :: s' =>
      if p c && can_take hi then
        match rep p (Nat.pred lo) (option_map Nat.pred hi) (Some c) s' k with
        | Some x => Some x
        | None => stop
        end
      else stop
  | [] => stop
  end.

(** [rmatch r prev s cs k]: match [r] at the head of [s], where [prev] is
    the character before [s] in the searched string, then continue with [k]
    on what is left; [None] when every alternative fails. *)
Fixpoint rmatch (r : regex) (prev : option ascii) (s : str) (cs : captures)
    (k : option ascii -> str -> captures -> option result) : option result :=
  match r with
  | Eps => k prev s cs
  | Cls p =>
      match s with
      | c :: s' => if p c then k (Some c) s' cs else None
      | [] => None
      end
  | Rep p lo hi => rep p lo hi prev s (fun prev' s' => k prev' s' cs)
  | Seq r1 r2 =>
      rmatch r1 prev s cs (fun prev' s' cs' => rmatch r2 prev' s' cs' k)
  | Alt r1 r2 =>
      match rmatch r1 prev s cs k with
      | Some x => Some x
      | None => rmatch r2 prev s cs k
      end
  | WordB =>
      if xorb (word_before prev) (word_after s) then k prev s cs else None
  | Eos => if at_end s then k prev s cs else None
  | Look r' =>
      match rmatch r' prev s cs (fun _ s' cs' => Some (s', cs')) with
      | Some _ => k prev s cs
      | None => None
      end
  | Group n r' =>
      rmatch r' prev s cs
        (fun prev' s' cs' =>
           k prev' s' ((n, firstn (length s - length s') s) :: cs'))
  end.

(** A match at the head of [s]: what is left of [s] and the groups. *)
Definition match_here (r : regex) (prev : option ascii) (s : str)
  : option result :=
  rmatch r prev s [] (fun _ s' cs => Some (s', cs)).

Definition matched (s rest : str) : str := firstn (length s - length rest) s.

(** The scanning functions go through the string from left to right; after
    a match of [n] characters the next [n - 1] positions are skipped.  They
    are [re.findall] and [re.sub] for patterns that match at least one
    character, which all the patterns of [TextProcessor] do. *)

(** [re.findall(r, s)] for a pattern without groups *)
Fixpoint findall_from (r : regex) (prev : option ascii) (s : str)
    (skip : nat) : list str :=
  match s with
  | [] => []
  | c :: s' =>
      match skip with
      | S n => findall_from r (Some c) s' n
      | O =>
          match match_here r prev s with
          | Some (rest, _) =>
              matched s rest
                :: findall_from r (Some c) s' (Nat.pred (length (matched s rest)))
          | None => findall_from r (Some c) s' 0
          end
      end
  end.

Definition findall (r : regex) (s : str) : list str :=
  findall_from r None s 0.

(** [re.search(r, s)] as a truth value *)
Fixpoint search_from (r : regex) (prev : option ascii) (s : str) : bool :=
  match match_here r prev s with
  | Some _ => true
  | None =>
      match s with
      | [] => false
      | c :: s' => search_from r (Some c) s'
      end
  end.

Definition search (r : regex) (s : str) : bool := search_from r None s.

(** Replacement templates: literal text and group references [\n]. *)
Inductive piece : Type :=
| Text (t : str)
| Ref (n : nat).

Definition template := list piece.

Fixpoint expand (t : template) (cs : captures) : str :=
  match t with
  | [] => []
  | Text x :: t' => x ++ expand t' cs
  | Ref n :: t' => group n cs ++ expand t' cs
  end.

(** [re.sub(r, t, s)] *)
Fixpoint sub_from (r : regex) (t : template) (prev : option ascii) (s : str)
    (skip : nat) : str :=
  match s with
  | [] => []
  | c :: s' =>
      match skip with
      | S n => sub_from r t (Some c) s' n
      | O =>
          match match_here r prev s with
          | Some (rest, cs) =>
              expand t cs
                ++ sub_from r t (Some c) s' (Nat.pred (length (matched s rest)))
          | None => c :: sub_from r t (Some c) s' 0
          end
      end
  end.

Definition sub (r : regex) (t : template) (s : str) : str :=
  sub_from r t None s 0.

End Re.

(** ** [langchain_ocr/text_processor.py] *)

Module TextProcessor.
Import PyStr Re.

(** *** The patterns of [__init__] *)

Definition receipt_keywords : list str :=
  map L ["total"; "subtotal"; "tax"; "tip"; "merchant"; "store"; "change due";
         "cash"; "card"; "payment"; "balance"; "amount"; "receipt";
         "transaction"; "sale"; "terminal"; "register"]%string.

Definition is_date_sep (c : ascii) : bool :=
  chr_eqb "/" c || chr_eqb "-" c.

(** [\$?\d+\.\d{2}] *)
Definition price_pattern : regex :=
  Seq (Opt (chr_eqb "$"))
    (Seq (Plus is_digit) (Seq (Chr ".") (Times 2 is_digit))).

(** [\d{1,2}[/-]\d{1,2}[/-]\d{2,4}] *)
Definition receipt_date_pattern : regex :=
  Seq (Rep is_digit 1 (Some 2))
    (Seq (Cls is_date_sep)
       (Seq (Rep is_digit 1 (Some 2))
          (Seq (Cls is_date_sep) (Rep is_digit 2 (Some 4))))).

Definition invoice_keywords : list str :=
  map L ["invoice"; "due date"; "amount due"; "billing"; "invoice number";
         "account"; "payment terms"; "bill to"; "ship to"; "po number";
         "order number"; "net"; "terms"]%string.

(** [[oice]] under [re.IGNORECASE] *)
Definition is_oice (c : ascii) : bool :=
  existsb (fun x => chr_eqb x (lower_chr c)) (L "oice").

(** [[^a-zA-Z0-9]] *)
Definition not_alnum (c : ascii) : bool := negb (is_ascii_alnum c).

(** [inv[oice]*[^a-zA-Z0-9]?\s*#?\s*\d+], searched with [re.IGNORECASE] *)
Definition invoice_num_pattern : regex :=
  Seq (LitI (L "inv"))
    (Seq (Star is_oice)
       (Seq (Opt not_alnum)
          (Seq (Star is_space)
             (Seq (Opt (chr_eqb "#"))
                (Seq (Star is_space) (Plus is_digit)))))).

(** [due\s+date|payment\s+due], searched with [re.IGNORECASE] *)
Definition invoice_date_pattern : regex :=
  Alt (Seq (LitI (L "due")) (Seq (Plus is_space) (LitI (L "date"))))
      (Seq (LitI (L "payment")) (Seq (Plus is_space) (LitI (L "due")))).

(** *** [clean_text] *)

(** [\bX\b] for a letter [X] *)
Definition isolated (c : ascii) : regex := Seq WordB (Seq (Chr c) WordB).

(** [(\d+)\s*\.\s*(\d{2})] *)
Definition decimal_spacing_pattern : regex :=
  Seq (Group 1 (Plus is_digit))
    (Seq (Star is_space)
       (Seq (Chr ".") (Seq (Star is_space) (Group 2 (Times 2 is_digit))))).

(** [(\d+)\s+(\d{2})(?=\s|$)] *)
Definition missing_decimal_pattern : regex :=
  Seq (Group 1 (Plus is_digit))
    (Seq (Plus is_space)
       (Seq (Group 2 (Times 2 is_digit)) (Look (Alt (Cls is_space) Eos)))).

(** [r'\1.\2'] *)
Definition decimal_template : template := [Ref 1; Text (L "."); Ref 2].

(** ['\n'.join(line.strip() for line in text.split('\n'))] *)
Definition strip_lines (text : str) : str :=
  join_nl (map strip (split_nl text)).

(** The three substitutions of single letters read for digits. *)
Definition fix_letters (text : str) : str :=
  let text := sub (isolated "I") [Text (L "1")] text in
  let text := sub (isolated "O") [Text (L "0")] text in
  sub (isolated "B") [Text (L "8")] text.

(** The two substitutions on price formats. *)
Definition fix_prices (text : str) : str :=
  let text := sub decimal_spacing_pattern decimal_template text in
  sub missing_decimal_pattern decimal_template text.

Definition clean_text (text : str) : str :=
  let text := strip_lines text in
  let text := fix_letters text in
  let text := fix_prices text in
  strip text.

(** *** The scores *)

Local Open Scope Q_scope.

Definition of_nat (n : nat) : Q := inject_Z (Z.of_nat n).

(** [sum(keyword in text for keyword in keywords)] *)
Definition keyword_matches (keywords : list str) (text : str) : nat :=
  list_sum (map (fun keyword => if contains keyword text then 1%nat else 0%nat)
                keywords).

(** [len(re.findall(price_pattern, text))] *)
Definition price_matches (text : str) : nat :=
  length (findall price_pattern text).

(** [min(price_matches / 3, 2.0)] *)
Definition price_component (text : str) : Q :=
  Qmin (of_nat (price_matches text) / 3) 2.

Definition _calculate_receipt_score (text : str) : Q :=
  let score := 0 in
  let score := score + of_nat (keyword_matches receipt_keywords text) * (1#2) in
  let score := score + price_component text in
  let score := if search receipt_date_pattern text then score + 1 else score in
  score.

Definition _calculate_invoice_score (text : str) : Q :=
  let score := 0 in
  let score := score + of_nat (keyword_matches invoice_keywords text) * (1#2) in
  let score := if search invoice_num_pattern text then score + 2 else score in
  let score := if search invoice_date_pattern text then score + 1 else score in
  score.

(** *** [classify_document] *)

Inductive doc_type : Type := receipt | invoice | other.

Definition type_name (t : doc_type) : str :=
  match t with
  | receipt => L "receipt"
  | invoice => L "invoice"
  | other => L "other"
  end.

Definition Qltb (a b : Q) : bool := negb (Qle_bool b a).

(** [a / b] on floats raises [ZeroDivisionError] when [b] is zero. *)
Definition truediv (a b : Q) : option Q :=
  if Qeq_bool b 0 then None else Some (a / b).

(** Lines 131-136: the two confidences, [None] for an exception. *)
Definition confidences (receipt_score invoice_score : Q) : option (Q * Q) :=
  let total_score := receipt_score + invoice_score in
  if Qltb 0 total_score then
    match truediv receipt_score total_score,
          truediv invoice_score total_score with
    | Some receipt_confidence, Some invoice_confidence =>
        Some (receipt_confidence, invoice_confidence)
    | _, _ => None
    end
  else Some (0, 0).

(** [score >= 2 and confidence > 0.6], with [0.6] as [3/5] *)
Definition qualifies (score confidence : Q) : bool :=
  Qle_bool 2 score && Qltb (3#5) confidence.

(** Lines 139-144: the decision. *)
Definition decision (receipt_score invoice_score : Q)
    (receipt_confidence invoice_confidence : Q) : doc_type * Q :=
  if qualifies receipt_score receipt_confidence then
    (receipt, receipt_confidence)
  else if qualifies invoice_score invoice_confidence then
    (invoice, invoice_confidence)
  else (other, Qmax receipt_confidence invoice_confidence).

Definition classify_document (text : str) : option (doc_type * Q) :=
  let text := lower text in
  let receipt_score := _calculate_receipt_score text in
  let invoice_score := _calculate_invoice_score text in
  match confidences receipt_score invoice_score with
  | Some (receipt_confidence, invoice_confidence) =>
      Some (decision receipt_score invoice_score
                     receipt_confidence invoice_confidence)
  | None => None
  end.

End TextProcessor.

(** ** Binary64 numbers *)

(** A float is the rational number it stands for.  The numbers of this
    program are quotients and sums of numbers between 0 and the length of a
    text, far from the ends of the range of binary64, so there is no
    overflow, no subnormal number and no NaN to model: an operation returns
    the float nearest to its exact result.  On the scores of this program
    and their sums and quotients the operations are compared with the
    Standard Library's specification of IEEE 754 in
    [GridFacts.arithmetic_is_ieee754]. *)
Module Binary64.
Local Open Scope Z_scope.

(** The exponent [e] of the positive rational [n/d]:
    [2^e <= n/d < 2^(e+1)]. *)
Definition exponent (n d : positive) : Z :=
  let e := Z.log2 (Zpos n) - Z.log2 (Zpos d) in
  if (if 0 <=? e then Zpos d * 2 ^ e <=? Zpos n
      else Zpos d <=? Zpos n * 2 ^ (- e))
  then e else e - 1.

(** The nearest number with a significand of 53 bits, and of two that are
    as near the one with an even significand; as a fraction in lowest
    terms. *)
Definition round_pos (n d : positive) : Q :=
  let s := 52 - exponent n d in
  let N := if 0 <=? s then Zpos n * 2 ^ s else Zpos n in
  let D := if 0 <=? s then Zpos d else Zpos d * 2 ^ (- s) in
  let (q, r) := Z.div_eucl N D in
  let m := if (D <? 2 * r) || ((D =? 2 * r) && Z.odd q) then q + 1 else q in
  if 0 <=? s then Qred (Qmake m (Z.to_pos (2 ^ s)))
  else inject_Z (m * 2 ^ (- s)).

Definition round (x : Q) : Q :=
  match Qnum x with
  | Z0 => 0%Q
  | Zpos n => round_pos n (Qden x)
  | Zneg n => (- round_pos n (Qden x))%Q
  end.

Local Open Scope Q_scope.

(** [a + b], [a * b] and [a / b] on floats *)
Definition add (a b : Q) : Q := round (a + b).
Definition mul (a b : Q) : Q := round (a * b).
Definition div (a b : Q) : Q := round (a / b).

(** [float(n)], as when an [int] meets a [float] in an operation *)
Definition of_int (n : Z) : Q := round (inject_Z n).

(** [a / b] on two [int]s: the float nearest to the quotient *)
Definition div_int (a b : Z) : Q := round (inject_Z a / inject_Z b).

(** [min(a, b)] and [max(a, b)]: the first argument unless the second is
    smaller, or larger. *)
Definition py_min (a b : Q) : Q := if Qle_bool a b then a else b.
Definition py_max (a b : Q) : Q := if Qle_bool b a then a else b.

End Binary64.

(** ** [langchain_ocr/text_processor.py] in binary64 *)

(** The scores and the classifier with the arithmetic of the interpreter;
    keywords, patterns and searches are those of [TextProcessor]. *)
Module TextProcessor64.
Import PyStr Re TextProcessor Binary64.
Local Open Scope Q_scope.

Definition _calculate_receipt_score (text : str) : Q :=
  let score := 0 in
  let keyword_matches := keyword_matches receipt_keywords text in
  let score := add score (mul (of_int (Z.of_nat keyword_matches)) (1#2)) in
  let price_matches := price_matches text in
  let score := add score (py_min (div_int (Z.of_nat price_matches) 3) 2) in
  let score := if search receipt_date_pattern text then add score 1
               else score in
  score.

Definition _calculate_invoice_score (text : str) : Q :=
  let score := 0 in
  let keyword_matches := keyword_matches invoice_keywords text in
  let score := add score (mul (of_int (Z.of_nat keyword_matches)) (1#2)) in
  let score := if search invoice_num_pattern text then add score 2
               else score in
  let score := if search invoice_date_pattern text then add score 1
               else score in
  score.

(** [a / b] raises [ZeroDivisionError] when [b] is zero. *)
Definition truediv (a b : Q) : option Q :=
  if Qeq_bool b 0 then None else Some (div a b).

(** Lines 131-136: the two confidences, [None] for an exception. *)
Definition confidences (receipt_score invoice_score : Q) : option (Q * Q) :=
  let total_score := add receipt_score invoice_score in
  if Qltb 0 total_score then
    match truediv receipt_score total_score,
          truediv invoice_score total_score with
    | Some receipt_confidence, Some invoice_confidence =>
        Some (receipt_confidence, invoice_confidence)
    | _, _ => None
    end
  else Some (0, 0).

(** The literal [0.6]: the float nearest to 3/5, which is below 3/5. *)
Definition six_tenths : Q := round (3#5).

(** [score >= 2 and confidence > 0.6] *)
Definition qualifies (score confidence : Q) : bool :=
  Qle_bool 2 score && Qltb six_tenths confidence.

(** Lines 139-144: the decision. *)
Definition decision (receipt_score invoice_score : Q)
    (receipt_confidence invoice_confidence : Q) : doc_type * Q :=
  if qualifies receipt_score receipt_confidence then
    (receipt, receipt_confidence)
  else if qualifies invoice_score invoice_confidence then
    (invoice, invoice_confidence)
  else (other, py_max receipt_confidence invoice_confidence).

Definition classify_document (text : str) : option (doc_type * Q) :=
  let text := lower text in
  let receipt_score := _calculate_receipt_score text in
  let invoice_score := _calculate_invoice_score text in
  match confidences receipt_score invoice_score with
  | Some (receipt_confidence, invoice_confidence) =>
      Some (decision receipt_score invoice_score
                     receipt_confidence invoice_confidence)
  | None => None
  end.

End TextProcessor64.


(** ** The collaborators of the pipeline *)

Module World.
Import PyStr.

(** A value read by [json.loads]. *)
#[local] Unset Elimination Schemes.
Inductive json : Type :=
| JNull
| JBool (b : bool)
| JNum (q : Q)
| JStr (s : str)
| JArr (items : list json)
| JObj (fields : list (str * json)).
#[local] Set Elimination Schemes.

Definition str_eqb (a b : str) : bool :=
  (length a =? length b) && startswith a b.

(** [d.get(key)] on the fields of a dict *)
Fixpoint lookup (key : str) (fields : list (str * json)) : option json :=
  match fields with
  | [] => None
  | (k, v) :: fields' => if str_eqb key k then Some v else lookup key fields'
  end.

(** [j == s] for a string literal [s] *)
Definition is_str (s : str) (j : json) : bool :=
  match j with
  | JStr x => str_eqb s x
  | _ => false
  end.

(** A call that returns or raises [Exception(msg)]. *)
Inductive outcome (A : Type) : Type :=
| Ok (a : A)
| Raise (msg : str).
Arguments Ok {A} a.
Arguments Raise {A} msg.

(** The services outside the repository:
    - [ocr_engine]: [Image.open] and [pytesseract.image_to_string] on an
      image path, as [OCRProcessor] calls them;
    - [image_ocr]: [cv2.imread], [preprocess_image] and
      [pytesseract.image_to_string], as [image_processor.py] calls them;
    - [classifier_model], [extractor_model]: the two chat models of
      [langchain_ocr], with [json.loads] applied to their answers;
    - [receipt_model]: [process_with_llm] of [image_processor.py];
    - [subscript_error]: the text of the exception Python raises for a
      failed [j[key]] or [j.get]. *)
Record world : Type := {
  ocr_engine : str -> outcome str;
  image_ocr : str -> outcome str;
  classifier_model : str -> outcome json;
  extractor_model : str -> json -> outcome json;
  receipt_model : str -> outcome json;
  subscript_error : json -> str -> str
}.

(** [j[key]] *)
Definition getitem (w : world) (j : json) (key : str) : outcome json :=
  match j with
  | JObj fields =>
      match lookup key fields with
      | Some v => Ok v
      | None => Raise (subscript_error w j key)
      end
  | _ => Raise (subscript_error w j key)
  end.

(** The stages of the pipeline. *)
Inductive stage : Type := ocr | classify | extract.

(** What a run does, in order: the stages it enters and the calls it makes
    to the services. *)
Inductive call : Type :=
| Enter (s : stage)
| CallOCR (image_path : str)
| CallClassifier (text : str)
| CallExtractor (text : str) (doc_type : json)
| CallReceiptModel (text : str).

Definition is_extraction (c : call) : bool :=
  match c with
  | CallExtractor _ _ | CallReceiptModel _ => true
  | _ => false
  end.

Definition is_enter (s : stage) (c : call) : bool :=
  match c, s with
  | Enter ocr, ocr | Enter classify, classify | Enter extract, extract => true
  | _, _ => false
  end.

(** A computation with the log of the calls it made. *)
Definition traced (A : Type) : Type := A * list call.

Definition ret {A} (a : A) : traced A := (a, []).

Definition bind {A B} (m : traced A) (f : A -> traced B) : traced B :=
  let (a, l) := m in
  let (b, l') := f a in
  (b, l ++ l').

Definition emit (c : call) : traced unit := (tt, [c]).

End World.

Declare Scope traced_scope.
Delimit Scope traced_scope with traced.
Notation "x <- m ;; k" := (World.bind m (fun x => k))
  (at level 61, m at next level, right associativity) : traced_scope.
Notation "m ;;; k" := (World.bind m (fun _ => k))
  (at level 61, right associativity) : traced_scope.

(** [langchain_ocr/type.py] *)
Module AgentState.
Import PyStr World.

Record t : Type := mk {
  image_path : str;
  raw_text : str;
  cleaned_text : str;
  classification : json;
  structured_data : json;
  error : str
}.

(** [state.get('error')] as a truth value *)
Definition has_error (state : t) : bool :=
  match error state with
  | [] => false
  | _ :: _ => true
  end.

Definition set_raw_text (v : str) (s : t) : t :=
  mk (image_path s) v (cleaned_text s) (classification s) (structured_data s)
     (error s).
Definition set_cleaned_text (v : str) (s : t) : t :=
  mk (image_path s) (raw_text s) v (classification s) (structured_data s)
     (error s).
Definition set_classification (v : json) (s : t) : t :=
  mk (image_path s) (raw_text s) (cleaned_text s) v (structured_data s)
     (error s).
Definition set_structured_data (v : json) (s : t) : t :=
  mk (image_path s) (raw_text s) (cleaned_text s) (classification s) v
     (error s).
Definition set_error (v : str) (s : t) : t :=
  mk (image_path s) (raw_text s) (cleaned_text s) (classification s)
     (structured_data s) v.

(** The state both pipelines start from. *)
Definition initial (path : str) : t := mk path [] [] (JObj []) (JObj []) [].

End AgentState.

(** The dict [process_document] of [ocr_pipeline.py] returns. *)
Module OCRResult.
Import PyStr World.

Record t : Type := mk {
  raw_text : str;
  cleaned_text : str;
  classification : json;
  processing_info : json;
  structured_data : json;
  error : str
}.

End OCRResult.

(** [langchain_ocr/ocr_processor.py] *)
Module OCRProcessor.
Import PyStr World AgentState.
Local Open Scope traced_scope.

Definition process_image (w : world) (state : AgentState.t)
  : traced AgentState.t :=
  emit (Enter ocr) ;;;
  emit (CallOCR (image_path state)) ;;;
  match ocr_engine w (image_path state) with
  | Ok text =>
      let state := set_raw_text text state in
      let state := set_cleaned_text (TextProcessor.clean_text text) state in
      ret state
  | Raise e => ret (set_error (L "OCR processing failed: " ++ e) state)
  end.

End OCRProcessor.

(** [langchain_ocr/document_classifier.py] *)
Module DocumentClassifier.
Import PyStr World AgentState.
Local Open Scope traced_scope.

Definition classify_document (w : world) (state : AgentState.t)
  : traced AgentState.t :=
  emit (Enter classify) ;;;
  if has_error state then ret state
  else
    emit (CallClassifier (cleaned_text state)) ;;;
    match classifier_model w (cleaned_text state) with
    | Ok j => ret (set_classification j state)
    | Raise e => ret (set_error (L "Classification failed: " ++ e) state)
    end.

End DocumentClassifier.

(** [langchain_ocr/data_extractor.py] *)
Module StructuredDataExtractor.
Import PyStr World AgentState.
Local Open Scope traced_scope.

Definition not_supported : str :=
  L "Document type 'other' is not supported for structured data extraction".

Definition failed (e : str) (state : AgentState.t) : AgentState.t :=
  set_error (L "Data extraction failed: " ++ e) state.

Definition extract_data (w : world) (state : AgentState.t)
  : traced AgentState.t :=
  emit (Enter extract) ;;;
  if has_error state then ret (set_error not_supported state)
  else
    match getitem w (classification state) (L "type") with
    | Raise e => ret (failed e state)
    | Ok doc_type =>
        if is_str (L "other") doc_type then
          ret (set_error not_supported state)
        else
          emit (CallExtractor (cleaned_text state) doc_type) ;;;
          match extractor_model w (cleaned_text state) doc_type with
          | Ok j => ret (set_structured_data j state)
          | Raise e => ret (failed e state)
          end
    end.

End StructuredDataExtractor.

(** [langchain_ocr/ocr_pipeline.py] *)
Module OCRPipeline.
Import PyStr World AgentState.
Local Open Scope traced_scope.

(** [OCRPipeline.process_image] *)
Definition process_image (w : world) (path : str) : traced AgentState.t :=
  let state := initial path in
  state <- OCRProcessor.process_image w state ;;
  if negb (has_error state) then
    state <- DocumentClassifier.classify_document w state ;;
    if negb (has_error state) then
      StructuredDataExtractor.extract_data w state
    else ret state
  else ret state.

(** The nodes a run of the graph can be sent to after [classify]. *)
Inductive node : Type := END | to_extract.

(** [j.get('type')] raises [AttributeError] unless [j] is a dict. *)
Definition get_type (w : world) (j : json) : outcome (option json) :=
  match j with
  | JObj fields => Ok (lookup (L "type") fields)
  | _ => Raise (subscript_error w j (L "get"))
  end.

Definition should_extract (w : world) (state : AgentState.t) : outcome node :=
  if has_error state then Ok END
  else
    match get_type w (classification state) with
    | Raise e => Raise e
    | Ok (Some doc_type) =>
        if is_str (L "other") doc_type then Ok END else Ok to_extract
    | Ok None => Ok to_extract
    end.

(** [create_ocr_graph().invoke(initial_state)]: [ocr], then [classify],
    then [extract] or the end, as [should_extract] says. *)
Definition invoke (w : world) (initial_state : AgentState.t)
  : traced (outcome AgentState.t) :=
  state <- OCRProcessor.process_image w initial_state ;;
  state <- DocumentClassifier.classify_document w state ;;
  match should_extract w state with
  | Raise e => ret (Raise e)
  | Ok END => ret (Ok state)
  | Ok to_extract =>
      state <- StructuredDataExtractor.extract_data w state ;;
      ret (Ok state)
  end.

(** [process_document]: the graph is run on the initial state, and a new
    dict is made of the final state, without [image_path] and with
    [processing_info]. *)
Definition process_document (w : world) (image_path : str)
  : traced (outcome OCRResult.t) :=
  let initial_state := initial image_path in
  final_state <- invoke w initial_state ;;
  match final_state with
  | Raise e => ret (Raise e)
  | Ok final_state =>
      ret (Ok (OCRResult.mk
                 (raw_text final_state)
                 (cleaned_text final_state)
                 (classification final_state)
                 (JObj [(L "processing_time", JNum 0)])
                 (structured_data final_state)
                 (error final_state)))
  end.

End OCRPipeline.

(** [image_processor.py] *)
Module ImageProcessor.
Import PyStr World TextProcessor.
Local Open Scope traced_scope.

(** The dict [process_image] returns; [structured_data] and [error] are
    keys it may not have. *)
Record response : Type := mk {
  raw_text : str;
  cleaned_text : str;
  classification : doc_type * Q;
  structured_data : option json;
  error : option str
}.

Definition set_structured_data (v : json) (r : response) : response :=
  mk (raw_text r) (cleaned_text r) (classification r) (Some v) (error r).
Definition set_error (v : str) (r : response) : response :=
  mk (raw_text r) (cleaned_text r) (classification r) (structured_data r)
     (Some v).

Definition in_list (x : str) (l : list str) : bool := existsb (str_eqb x) l.

Definition not_supported (doc_type : str) : str :=
  L "Document type '" ++ doc_type
    ++ L "' is not supported for structured data extraction".

Definition process_image (w : world) (image_path : str)
  : traced (outcome response) :=
  emit (CallOCR image_path) ;;;
  match image_ocr w image_path with
  | Raise e => ret (Raise e)
  | Ok text =>
      let raw_text := text in
      let cleaned_text := clean_text raw_text in
      match TextProcessor64.classify_document cleaned_text with
      | None => ret (Raise (L "float division by zero"))
      | Some (doc_type, confidence) =>
          let response := mk raw_text cleaned_text (doc_type, confidence)
                             None None in
          if in_list (lower (type_name doc_type)) [L "receipt"; L "invoice"]
          then
            emit (CallReceiptModel cleaned_text) ;;;
            match receipt_model w cleaned_text with
            | Ok structured =>
                ret (Ok (set_structured_data structured response))
            | Raise e =>
                ret (Ok (set_error (L "LLM processing failed: " ++ e)
                                   response))
            end
          else
            ret (Ok (set_error (not_supported (type_name doc_type))
                               response))
      end
  end.

End ImageProcessor.


(** ** Predicates on records and the inputs of the scenarios *)

Module Scenario.
Import PyStr World.

(** A classification with [type] "other". *)
Definition other_type (classification : json) : bool :=
  match classification with
  | JObj fields =>
      match lookup (L "type") fields with
      | Some doc_type => is_str (L "other") doc_type
      | None => false
      end
  | _ => false
  end.

(** The classification of a record has [type] "other". *)
Definition classified_other (state : AgentState.t) : bool :=
  match AgentState.classification state with
  | JObj fields =>
      match lookup (L "type") fields with
      | Some doc_type => is_str (L "other") doc_type
      | None => false
      end
  | _ => false
  end.

Definition receipt_text : str := L "STORE A
TOTAL: $12.99
CASH $12.99
01/02/2023".

Definition memo_text : str := L "Random memo with no structure".

(** A world in which OCR reads the memo and the classifier model answers
    [{"type": "other", "confidence": 0}]. *)
Definition memo_world : world := {|
  ocr_engine := fun _ => Ok memo_text;
  image_ocr := fun _ => Ok memo_text;
  classifier_model := fun _ =>
    Ok (JObj [(L "type", JStr (L "other")); (L "confidence", JNum 0%Q)]);
  extractor_model := fun _ _ => Raise (L "connection refused");
  receipt_model := fun _ => Raise (L "connection refused");
  subscript_error := fun _ key => key
|}.

(** A world in which the image cannot be read. *)
Definition unreadable_world : world := {|
  ocr_engine := fun _ => Raise (L "cannot identify image file");
  image_ocr := fun _ => Raise (L "Could not read image");
  classifier_model := fun _ => Raise (L "connection refused");
  extractor_model := fun _ _ => Raise (L "connection refused");
  receipt_model := fun _ => Raise (L "connection refused");
  subscript_error := fun _ key => key
|}.

End Scenario.

(** ** What a pattern matches *)

Module ReSpec.
Import PyStr Re.

(** The character before what follows [m], when [prev] is before [m]. *)
Fixpoint prev_after (prev : option ascii) (m : str) : option ascii :=
  match m with
  | [] => prev
  | c :: m' => prev_after (Some c) m'
  end.

Definition within (n : nat) (hi : option nat) : Prop :=
  match hi with
  | Some h => n <= h
  | None => True
  end.

(** [matches r prev m rest]: pattern [r] can match the text [m] when [prev]
    is the character before it and [rest] is what follows it. *)
Inductive matches : regex -> option ascii -> str -> str -> Prop :=
| M_Eps prev rest : matches Eps prev [] rest
| M_Cls p c prev rest : p c = true -> matches (Cls p) prev [c] rest
| M_Rep p lo hi prev run rest :
    forallb p run = true -> lo <= length run -> within (length run) hi ->
    matches (Rep p lo hi) prev run rest
| M_Seq r1 r2 prev m1 m2 rest :
    matches r1 prev m1 (m2 ++ rest) ->
    matches r2 (prev_after prev m1) m2 rest ->
    matches (Seq r1 r2) prev (m1 ++ m2) rest
| M_AltL r1 r2 prev m rest :
    matches r1 prev m rest -> matches (Alt r1 r2) prev m rest
| M_AltR r1 r2 prev m rest :
    matches r2 prev m rest -> matches (Alt r1 r2) prev m rest
| M_WordB prev rest :
    xorb (word_before prev) (word_after rest) = true ->
    matches WordB prev [] rest
| M_Eos prev rest : at_end rest = true -> matches Eos prev [] rest
| M_Look r prev m rest :
    matches r prev m rest -> matches (Look r) prev [] (m ++ rest)
| M_Group n r prev m rest :
    matches r prev m rest -> matches (Group n r) prev m rest.

(** [scan shape s ms]: [ms] are the texts of the given shape met when [s]
    is read from left to right, taking a text of the shape wherever one
    starts and going on after it. *)
Inductive scan (shape : str -> Prop) : str -> list str -> Prop :=
| scan_end : scan shape [] []
| scan_hit m rest ms :
    shape m -> scan shape rest ms -> scan shape (m ++ rest) (m :: ms)
| scan_skip c s ms :
    (forall m rest, c :: s = m ++ rest -> ~ shape m) ->
    scan shape s ms -> scan shape (c :: s) ms.

(** An optional dollar sign, one or more digits, a point and two digits. *)
Definition price_shape (m : str) : Prop :=
  exists ds d1 d2,
    ds <> [] /\ forallb is_digit ds = true
    /\ is_digit d1 = true /\ is_digit d2 = true
    /\ (m = ds ++ "."%char :: [d1; d2]
        \/ m = "$"%char :: ds ++ "."%char :: [d1; d2]).

End ReSpec.

(** ** Letters read for digits *)

Module LetterSpec.
Import PyStr Re.

(** The digit an isolated letter stands for. *)
Definition digit_for (c : ascii) : ascii :=
  if chr_eqb "I" c then "1"%char
  else if chr_eqb "O" c then "0"%char
  else if chr_eqb "B" c then "8"%char
  else c.

Definition char_before (s : str) (i : nat) : option ascii :=
  match i with
  | 0 => None
  | S j => nth_error s j
  end.

(** The character at index [i] has no word character next to it. *)
Definition isolated_at (s : str) (i : nat) : bool :=
  negb (word_before (char_before s i))
  && negb (word_before (nth_error s (S i))).

(** A character-by-character rewriting that looks at whether the
    characters on both sides are word characters. *)
Fixpoint ctx_map (f : bool -> ascii -> bool -> ascii) (wb : bool) (s : str)
  : str :=
  match s with
  | [] => []
  | c :: s' => f wb c (word_after s') :: ctx_map f (is_word c) s'
  end.

Definition fix_one (X d : ascii) (wb : bool) (c : ascii) (wa : bool) : ascii :=
  if chr_eqb X c && negb wb && negb wa then d else c.

Definition fix_letter (wb : bool) (c : ascii) (wa : bool) : ascii :=
  if negb wb && negb wa then digit_for c else c.

End LetterSpec.

(** ** Texts without two digits in a row *)

Module CleanSpec.
Import PyStr LetterSpec.

Definition all_space (s : str) : bool := forallb is_space s.

Definition nl_free (s : str) : bool :=
  forallb (fun c => negb (chr_eqb c NL)) s.

(** The letter substitutions as one rewriting. *)
Definition rewrite_letters (s : str) : str := ctx_map fix_letter false s.

Definition digit_after (s : str) : bool :=
  match s with
  | d :: _ => is_digit d
  | [] => false
  end.

(** No digit of the text is followed at once by another digit. *)
Fixpoint no_adjacent_digits (s : str) : bool :=
  match s with
  | [] => true
  | c :: s' => negb (is_digit c && digit_after s') && no_adjacent_digits s'
  end.

End CleanSpec.

From Stdlib Require Import DecimalString SpecFloat.

(** ** More scenarios *)

Module Scenario2.
Import PyStr World Scenario.

(** A world in which the classifier model answers an object without
    [type]. *)
Definition no_type_world : world := {|
  ocr_engine := fun _ => Ok memo_text;
  image_ocr := fun _ => Ok memo_text;
  classifier_model := fun _ => Ok (JObj [(L "kind", JStr (L "memo"))]);
  extractor_model := fun _ _ => Raise (L "connection refused");
  receipt_model := fun _ => Raise (L "connection refused");
  subscript_error := fun _ key => key
|}.

End Scenario2.

(** ** The scores of every text *)

Module ScoreGrid.
Import PyStr Re TextProcessor.
Local Open Scope Q_scope.

(** The scores as functions of what they count: the keywords found, the
    prices found, and whether the patterns were found. *)
Definition receipt_score (keywords prices : nat) (date : bool) : Q :=
  let score := 0 in
  let score := score + of_nat keywords * (1#2) in
  let score := score + Qmin (of_nat prices / 3) 2 in
  let score := if date then score + 1 else score in
  score.

Definition invoice_score (keywords : nat) (number date : bool) : Q :=
  let score := 0 in
  let score := score + of_nat keywords * (1#2) in
  let score := if number then score + 2 else score in
  let score := if date then score + 1 else score in
  score.

Definition classify (receipt_score invoice_score : Q)
  : option (doc_type * Q) :=
  match confidences receipt_score invoice_score with
  | Some (receipt_confidence, invoice_confidence) =>
      Some (decision receipt_score invoice_score
                     receipt_confidence invoice_confidence)
  | None => None
  end.

Definition receipt_score64 (keywords prices : nat) (date : bool) : Q :=
  let score := 0 in
  let score := Binary64.add score
                 (Binary64.mul (Binary64.of_int (Z.of_nat keywords)) (1#2)) in
  let score := Binary64.add score
                 (Binary64.py_min (Binary64.div_int (Z.of_nat prices) 3) 2) in
  let score := if date then Binary64.add score 1 else score in
  score.

Definition invoice_score64 (keywords : nat) (number date : bool) : Q :=
  let score := 0 in
  let score := Binary64.add score
                 (Binary64.mul (Binary64.of_int (Z.of_nat keywords)) (1#2)) in
  let score := if number then Binary64.add score 2 else score in
  let score := if date then Binary64.add score 1 else score in
  score.

Definition classify64 (receipt_score invoice_score : Q)
  : option (doc_type * Q) :=
  match TextProcessor64.confidences receipt_score invoice_score with
  | Some (receipt_confidence, invoice_confidence) =>
      Some (TextProcessor64.decision receipt_score invoice_score
              receipt_confidence invoice_confidence)
  | None => None
  end.

(** The scores, exact and in binary64, of every combination of up to 17
    receipt keywords, up to 7 prices and the date pattern; and of up to 13
    invoice keywords and the two invoice patterns. *)
Definition receipt_grid : list (Q * Q) :=
  flat_map (fun kr =>
  flat_map (fun p =>
  map (fun d => (receipt_score kr p d, receipt_score64 kr p d))
    [false; true]) (seq 0 8)) (seq 0 18).

Definition invoice_grid : list (Q * Q) :=
  flat_map (fun ki =>
  flat_map (fun n =>
  map (fun dd => (invoice_score ki n dd, invoice_score64 ki n dd))
    [false; true]) [false; true]) (seq 0 14).

(** The same fraction, numerator for numerator. *)
Definition same_fraction (a b : Q) : bool :=
  (Qnum a =? Qnum b)%Z && (Qden a =? Qden b)%positive.

(** The exact scores that go with each binary64 score. *)
Fixpoint add_to (exact float : Q) (groups : list (Q * list Q))
  : list (Q * list Q) :=
  match groups with
  | [] => [(float, [exact])]
  | (f, exacts) :: groups' =>
      if same_fraction f float then (f, exact :: exacts) :: groups'
      else (f, exacts) :: add_to exact float groups'
  end.

Definition group (scores : list (Q * Q)) : list (Q * list Q) :=
  fold_right (fun s groups => add_to (fst s) (snd s) groups) [] scores.

(** A test on the scores of every combination: [f] is computed once for
    each pair of binary64 scores, and [P] tried on it with every pair of
    exact scores that goes with them. *)
Definition grid (A : Type) (f : Q -> Q -> A) (P : Q -> Q -> A -> bool)
  : bool :=
  let invoices := group invoice_grid in
  forallb (fun r =>
  forallb (fun i =>
    let a := f (fst r) (fst i) in
    forallb (fun re => forallb (fun ie => P re ie a) (snd i)) (snd r))
    invoices)
    (group receipt_grid).

Definition same_type (a b : doc_type) : bool :=
  match a, b with
  | receipt, receipt | invoice, invoice | other, other => true
  | _, _ => false
  end.

(** The two answers have the same type, or the exact one is "other" with
    confidence 3/5; and the confidences are within [2^-52]. *)
Definition agree (exact float : option (doc_type * Q)) : bool :=
  match exact, float with
  | Some (ty, c), Some (ty', c') =>
      (same_type ty ty' || (same_type ty other && Qeq_bool c (3#5)))
      && Qle_bool (c' - c) (1 # 2 ^ 52) && Qle_bool (c - c') (1 # 2 ^ 52)
  | _, _ => false
  end.

(** The receipt condition and the invoice condition of the decision. *)
Definition both64 (r i : Q) : bool :=
  match TextProcessor64.confidences r i with
  | Some (rc, ic) =>
      TextProcessor64.qualifies r rc && TextProcessor64.qualifies i ic
  | None => false
  end.

(** The answer of the classifier on a pair of binary64 scores, and whether
    both conditions of the decision hold. *)
Definition answer64 (r i : Q) : option (doc_type * Q) * bool :=
  match TextProcessor64.confidences r i with
  | Some (rc, ic) =>
      (Some (TextProcessor64.decision r i rc ic),
       TextProcessor64.qualifies r rc && TextProcessor64.qualifies i ic)
  | None => (None, false)
  end.

(** A confidence between 0 and 1 that is 0 or at least one half. *)
Definition in_range (float : option (doc_type * Q)) : bool :=
  match float with
  | Some (_, c) =>
      Qle_bool 0 c && Qle_bool c 1 && (Qeq_bool c 0 || Qle_bool (1#2) c)
  | None => false
  end.

Definition sound (r i : Q) (a : option (doc_type * Q) * bool) : bool :=
  agree (classify r i) (fst a) && negb (snd a) && in_range (fst a).

End ScoreGrid.

(** ** The arithmetic against the specification of IEEE 754 *)

Module IEEE754.
Import ScoreGrid.
Local Open Scope Q_scope.

(** A binary64 number of [Binary64], a fraction in lowest terms with a
    power of two below, as a number of the Standard Library's
    specification of IEEE 754, and back. *)
Definition to_sf (x : Q) : spec_float :=
  binary_normalize 53 1024 (Qnum x) (- Z.log2 (Zpos (Qden x))) false.

Definition of_sf (f : spec_float) : option Q :=
  match f with
  | S754_zero _ => Some 0
  | S754_finite s m e =>
      let v := if (0 <=? e)%Z then inject_Z (Zpos m * 2 ^ e)
               else Zpos m # Z.to_pos (2 ^ (- e)) in
      Some (if s then - v else v)
  | _ => None
  end.

Definition same (f : spec_float) (x : Q) : bool :=
  match of_sf f with
  | Some y => Qeq_bool y x
  | None => false
  end.

Definition same_sum (a b : Q) : bool :=
  same (SFadd 53 1024 (to_sf a) (to_sf b)) (Binary64.add a b).
Definition same_product (a b : Q) : bool :=
  same (SFmul 53 1024 (to_sf a) (to_sf b)) (Binary64.mul a b).
Definition same_quotient (a b : Q) : bool :=
  same (SFdiv 53 1024 (to_sf a) (to_sf b)) (Binary64.div a b).

(** The operations of the two scores. *)
Definition same_scores : bool :=
  forallb (fun k =>
    let x := Binary64.of_int (Z.of_nat k) in
    same (to_sf (inject_Z (Z.of_nat k))) x
    && same_product x (1#2)
    && same_sum 0 (Binary64.mul x (1#2))
    && forallb (fun p =>
         let y := Binary64.add 0 (Binary64.mul x (1#2)) in
         let z := Binary64.py_min (Binary64.div_int (Z.of_nat p) 3) 2 in
         same (SFdiv 53 1024 (to_sf (inject_Z (Z.of_nat p))) (to_sf 3))
              (Binary64.div_int (Z.of_nat p) 3)
         && same_sum y z && same_sum (Binary64.add y z) 1
         && same_sum y 2 && same_sum (Binary64.add y 2) 1 && same_sum y 1)
         (seq 0 8))
    (seq 0 18).

(** The operations of the confidences. *)
Definition same_confidences : bool :=
  let invoices := map fst (group invoice_grid) in
  forallb (fun r =>
  forallb (fun i =>
    let t := Binary64.add r i in
    same_sum r i
    && (Qeq_bool t 0 || (same_quotient r t && same_quotient i t)))
    invoices)
    (map fst (group receipt_grid)).

End IEEE754.

(** ** What the normaliser leaves in place *)

Module EditSpec.
Import PyStr.

(** A character that is neither whitespace nor a point. *)
Definition solid (c : ascii) : bool := negb (is_space c || chr_eqb "." c).

(** The text without its whitespace and its points. *)
Definition solids (s : str) : str := filter solid s.

End EditSpec.

(** ** Checks on a character and its two neighbours *)

Module Neighbours.
Import PyStr LetterSpec.

Section Check.
Variable k : ascii -> bool.
Variable p : bool -> ascii -> bool -> bool.

(** What [k] says of the first character of [s], or [a] when there is
    none; and of the last character, or [b]. *)
Definition ahead (s : str) (a : bool) : bool :=
  match s with
  | c :: _ => k c
  | [] => a
  end.

Fixpoint behind (b : bool) (s : str) : bool :=
  match s with
  | [] => b
  | c :: s' => behind (k c) s'
  end.

(** [p] holds of every character of [s] with what [k] says of the
    character before it and of the one after it; [b] and [a] stand for
    the characters around [s]. *)
Fixpoint seg (b : bool) (s : str) (a : bool) : bool :=
  match s with
  | [] => true
  | c :: s' => p b c (ahead s' a) && seg (k c) s' a
  end.

(** [out] passes the check wherever [s] does, and is the same to its
    neighbours. *)
Definition keeps (out s : str) : Prop :=
  (forall b a, seg b s a = true -> seg b out a = true)
  /\ (forall b, behind b out = behind b s)
  /\ (forall a, ahead out a = ahead s a).

End Check.

Definition not_nl (c : ascii) : bool := negb (chr_eqb c NL).

(** No letter to replace stands between two characters that are not word
    characters. *)
Definition letter_ok (wb : bool) (c : ascii) (wa : bool) : bool :=
  wb || wa || chr_eqb (digit_for c) c.

(** No whitespace stands at the beginning or at the end of a line. *)
Definition space_ok (b : bool) (c : ascii) (a : bool) : bool :=
  negb (is_space c && not_nl c) || (b && a).

End Neighbours.

(** ** What the date and invoice patterns look for *)

Module PatternSpec.
Import PyStr Re TextProcessor.

(** A digit, a separator, one or two digits, a separator and two digits. *)
Definition date_shape (m : str) : Prop :=
  exists a s1 mid s2 c d,
    m = a :: s1 :: mid ++ [s2; c; d]
    /\ is_digit a = true /\ is_date_sep s1 = true
    /\ forallb is_digit mid = true /\ 1 <= length mid <= 2
    /\ is_date_sep s2 = true /\ is_digit c = true /\ is_digit d = true.

(** The same letters, whatever their case. *)
Definition same_letters (word m : str) : Prop := lower m = word.

(** "inv" in any case, letters among o, i, c, e, at most one character
    that is not an ASCII letter or digit, whitespace, at most one "#",
    whitespace, and a digit. *)
Definition invoice_number_shape (m : str) : Prop :=
  exists inv oice x ws1 h ws2 d,
    m = inv ++ oice ++ x ++ ws1 ++ h ++ ws2 ++ [d]
    /\ same_letters (L "inv") inv
    /\ forallb is_oice oice = true
    /\ (x = [] \/ exists c, x = [c] /\ not_alnum c = true)
    /\ forallb is_space ws1 = true
    /\ (h = [] \/ h = ["#"%char])
    /\ forallb is_space ws2 = true
    /\ is_digit d = true.

(** "due" and "date", or "payment" and "due", in any case, with
    whitespace between the two words. *)
Definition due_date_shape (m : str) : Prop :=
  exists w1 ws w2,
    m = w1 ++ ws ++ w2
    /\ ws <> [] /\ forallb is_space ws = true
    /\ ((same_letters (L "due") w1 /\ same_letters (L "date") w2)
        \/ (same_letters (L "payment") w1 /\ same_letters (L "due") w2)).

(** [m] occurs in [text]. *)
Definition occurs (shape : str -> Prop) (text : str) : Prop :=
  exists pre m rest, text = pre ++ m ++ rest /\ shape m.

End PatternSpec.

(** ** [text_processor.py]: [_fix_receipt_formatting] *)

Module ReceiptFormatting.
Import PyStr Re.

(** [[-_=]] *)
Definition is_rule (c : ascii) : bool :=
  chr_eqb "-" c || chr_eqb "_" c || chr_eqb "=" c.

(** [[xX]] *)
Definition is_x (c : ascii) : bool := chr_eqb "x" c || chr_eqb "X" c.

(** [[-_=]{3,}] *)
Definition separator_pattern : regex := Rep is_rule 3 None.

(** [(\d+)\s*[xX]\s*] *)
Definition quantity_pattern : regex :=
  Seq (Group 1 (Plus is_digit))
    (Seq (Star is_space) (Seq (Cls is_x) (Star is_space))).

(** [(?i)(sub)?total\s*:]; a group that took no part in the match is the
    empty text in the replacement. *)
Definition total_pattern : regex :=
  Seq (Alt (Group 1 (LitI (L "sub"))) Eps)
    (Seq (LitI (L "total")) (Seq (Star is_space) (Chr ":"))).

(** [\n{3,}] *)
Definition newlines_pattern : regex := Rep (chr_eqb NL) 3 None.

Definition _fix_receipt_formatting (text : str) : str :=
  let text := sub separator_pattern [Text [NL]] text in
  let text := sub quantity_pattern [Ref 1; Text (L "x ")] text in
  let text := sub total_pattern [Ref 1; Text (L "TOTAL:")] text in
  let text := sub newlines_pattern [Text [NL; NL]] text in
  text.

(** The number of characters of the class at the head of the text. *)
Fixpoint leading (p : ascii -> bool) (s : str) : nat :=
  match s with
  | c :: s' => if p c then S (leading p s') else 0
  | [] => 0
  end.

Definition is_nl (c : ascii) : bool := chr_eqb NL c.

(** No three newlines in a row. *)
Fixpoint no_triple_newline (s : str) : bool :=
  match s with
  | [] => true
  | c :: s' =>
      negb (chr_eqb NL c
            && match s' with
               | c2 :: c3 :: _ => chr_eqb NL c2 && chr_eqb NL c3
               | _ => false
               end)
      && no_triple_newline s'
  end.

End ReceiptFormatting.

(** ** [pdf_processor.py] and [process_document.py] *)

Module Documents.
Import PyStr World TextProcessor.

(** *** Paths, as [posixpath] has them *)

Definition SEP : ascii := "/"%char.
Definition DOT : ascii := "."%char.

Definition ends_with_sep (a : str) : bool :=
  match rev a with
  | c :: _ => chr_eqb SEP c
  | [] => false
  end.

(** [os.path.join(a, b)] *)
Definition path_join (a b : str) : str :=
  if startswith [SEP] b then b
  else if match a with [] => true | _ => false end || ends_with_sep a
       then a ++ b
       else a ++ SEP :: b.

(** [p.rfind(c)], [None] for -1 *)
Fixpoint rfind (c : ascii) (p : str) : option nat :=
  match p with
  | [] => None
  | x :: p' =>
      match rfind c p' with
      | Some i => Some (S i)
      | None => if chr_eqb c x then Some 0 else None
      end
  end.

Definition index (o : option nat) : Z :=
  match o with
  | Some i => Z.of_nat i
  | None => (-1)%Z
  end.

(** The loop of [genericpath._splitext] that skips leading dots: whether
    one of the [steps] characters from [filenameIndex] on is not a dot. *)
Fixpoint has_name (p : str) (filenameIndex steps : nat) : bool :=
  match steps with
  | 0 => false
  | S n =>
      match nth_error p filenameIndex with
      | Some c =>
          if negb (chr_eqb DOT c) then true
          else has_name p (S filenameIndex) n
      | None => true
      end
  end.

(** [os.path.splitext(p)] *)
Definition splitext (p : str) : str * str :=
  let sepIndex := index (rfind SEP p) in
  let dotIndex := index (rfind DOT p) in
  if (sepIndex <? dotIndex)%Z then
    let filenameIndex := (sepIndex + 1)%Z in
    if has_name p (Z.to_nat filenameIndex)
                (Z.to_nat (dotIndex - filenameIndex))
    then (firstn (Z.to_nat dotIndex) p, skipn (Z.to_nat dotIndex) p)
    else (p, [])
  else (p, []).

(** [str(n)] for a number of pages *)
Definition str_of_nat (n : nat) : str :=
  list_ascii_of_string (NilEmpty.string_of_uint (Nat.to_uint n)).

(** *** The dict [process_image] returns *)

(** What [pdf_processor.py] uses besides the services of [world]:
    [pdf2image.convert_from_path] (the pages are handles),
    [tempfile.TemporaryDirectory], [image.save], the time
    [process_image] measured, [str(x)] as an f-string prints a value, and
    the text of the [TypeError] an operation on a value raises. *)
Record pdf_services : Type := {
  convert_from_path : str -> nat -> outcome (list nat);
  temporary_directory : outcome str;
  save_png : nat -> str -> outcome unit;
  processing_time : Q;
  py_str : json -> str;
  type_error : json -> str
}.

Definition to_dict (fs : pdf_services) (r : ImageProcessor.response)
  : list (str * json) :=
  [(L "raw_text", JStr (ImageProcessor.raw_text r));
   (L "cleaned_text", JStr (ImageProcessor.cleaned_text r));
   (L "classification",
    JObj [(L "type", JStr (type_name (fst (ImageProcessor.classification r))));
          (L "confidence", JNum (snd (ImageProcessor.classification r)))]);
   (L "processing_info",
    JObj [(L "processing_time", JNum (processing_time fs))])]
  ++ match ImageProcessor.structured_data r with
     | Some d => [(L "structured_data", d)]
     | None => []
     end
  ++ match ImageProcessor.error r with
     | Some e => [(L "error", JStr e)]
     | None => []
     end.

(** [if x:] *)
Definition truthy (j : json) : bool :=
  match j with
  | JNull => false
  | JBool b => b
  | JNum q => negb (Qeq_bool q 0)
  | JStr s => match s with [] => false | _ => true end
  | JArr items => match items with [] => false | _ => true end
  | JObj fields => match fields with [] => false | _ => true end
  end.

(** Whether [len(x)] is defined. *)
Definition has_len (j : json) : bool :=
  match j with
  | JStr _ | JArr _ | JObj _ => true
  | _ => false
  end.

(** [d[key] = v] *)
Fixpoint dict_set (key : str) (v : json) (fields : list (str * json))
  : list (str * json) :=
  match fields with
  | [] => [(key, v)]
  | (k, x) :: fields' =>
      if str_eqb key k then (k, v) :: fields'
      else (k, x) :: dict_set key v fields'
  end.

Definition page_number (page : nat) : json := JNum (inject_Z (Z.of_nat page)).

(** [for box in items: box['page'] = page] on the items of a list *)
Fixpoint tag_boxes (fs : pdf_services) (page : nat) (items : list json)
  : outcome (list json) :=
  match items with
  | [] => Ok []
  | JObj fields :: rest =>
      match tag_boxes fs page rest with
      | Ok boxes => Ok (JObj (dict_set (L "page") (page_number page) fields)
                          :: boxes)
      | Raise e => Raise e
      end
  | j :: _ => Raise (type_error fs j)
  end.

(** The same loop on any value, and what [all_boxes.extend] then adds:
    a dict is gone through by its keys and a string by its characters,
    neither of which takes an item. *)
Definition page_boxes (fs : pdf_services) (page : nat) (boxes : json)
  : outcome (list json) :=
  match boxes with
  | JArr items => tag_boxes fs page items
  | JObj [] => Ok []
  | JObj ((k, _) :: _) => Raise (type_error fs (JStr k))
  | JStr [] => Ok []
  | JStr (c :: _) => Raise (type_error fs (JStr [c]))
  | j => Raise (type_error fs j)
  end.

(** *** [process_pdf] *)

Record pdf_result : Type := mk_pdf {
  text : str;
  boxes : list json
}.

(** [sep.join(items)] *)
Fixpoint join_with (sep : str) (items : list str) : str :=
  match items with
  | [] => []
  | [x] => x
  | x :: items' => x ++ sep ++ join_with sep items'
  end.

Definition page_path (temp_dir : str) (page : nat) : str :=
  path_join temp_dir (L "page_" ++ str_of_nat page ++ L ".png").

Local Open Scope traced_scope.

(** The loop over the pages, page [i + 1] first. *)
Fixpoint pages (w : world) (fs : pdf_services) (temp_dir : str)
    (images : list nat) (i : nat) (all_texts : list str)
    (all_boxes : list json) : traced (outcome (list str * list json)) :=
  match images with
  | [] => ret (Ok (all_texts, all_boxes))
  | image :: images' =>
      let temp_image_path := page_path temp_dir (i + 1) in
      match save_png fs image temp_image_path with
      | Raise e => ret (Raise e)
      | Ok _ =>
          result <- ImageProcessor.process_image w temp_image_path ;;
          match result with
          | Raise e => ret (Raise e)
          | Ok r =>
              match lookup (L "text") (to_dict fs r) with
              | None => ret (Raise (L "'text'"))
              | Some t =>
                  if truthy t && negb (has_len t)
                  then ret (Raise (type_error fs t))
                  else
                    let all_texts :=
                      if truthy t
                      then all_texts
                           ++ [L "Page " ++ str_of_nat (i + 1) ++ L ":"
                               ++ NL :: py_str fs t]
                      else all_texts in
                    match lookup (L "boxes") (to_dict fs r) with
                    | None => ret (Raise (L "'boxes'"))
                    | Some b =>
                        match page_boxes fs (i + 1) b with
                        | Raise e => ret (Raise e)
                        | Ok tagged =>
                            pages w fs temp_dir images' (S i) all_texts
                                  (all_boxes ++ tagged)
                        end
                    end
              end
          end
      end
  end.

Definition process_pdf (w : world) (fs : pdf_services) (pdf_path : str)
    (dpi : nat) : traced (outcome pdf_result) :=
  match convert_from_path fs pdf_path dpi with
  | Raise e => ret (Raise e)
  | Ok images =>
      match temporary_directory fs with
      | Raise e => ret (Raise e)
      | Ok temp_dir =>
          r <- pages w fs temp_dir images 0 [] [] ;;
          match r with
          | Raise e => ret (Raise e)
          | Ok (all_texts, all_boxes) =>
              ret (Ok (mk_pdf (join_with [NL; NL] all_texts) all_boxes))
          end
      end
  end.

(** *** [process_document] *)

Inductive document : Type :=
| PdfDocument (r : pdf_result)
| ImageDocument (r : ImageProcessor.response).

Definition image_extensions : list str :=
  [L ".png"; L ".jpg"; L ".jpeg"; L ".tiff"; L ".bmp"].

Definition process_document (w : world) (fs : pdf_services) (file_path : str)
    (dpi : nat) : traced (outcome document) :=
  let ext := snd (splitext file_path) in
  let ext := lower ext in
  if str_eqb ext (L ".pdf") then
    r <- process_pdf w fs file_path dpi ;;
    match r with
    | Ok d => ret (Ok (PdfDocument d))
    | Raise e => ret (Raise e)
    end
  else if ImageProcessor.in_list ext image_extensions then
    r <- ImageProcessor.process_image w file_path ;;
    match r with
    | Ok d => ret (Ok (ImageDocument d))
    | Raise e => ret (Raise e)
    end
  else ret (Raise (L "Unsupported file type: " ++ ext)).

(** *** [process_folder] *)

(** [os.makedirs], [os.listdir], [os.path.isfile], [open(path, 'w')],
    [json.dump] into the open file, and [print]. *)
Record folder_services : Type := {
  makedirs : str -> outcome unit;
  listdir : str -> outcome (list str);
  isfile : str -> bool;
  open_w : str -> outcome unit;
  json_dump : str -> document -> outcome unit;
  print : str -> outcome unit
}.

(** What a run leaves behind: the files opened for writing, the results
    written in them and the lines printed. *)
Inductive output : Type :=
| Opened (path : str)
| Written (path : str) (d : document)
| Printed (line : str).

Definition success_line (filename : str) : str :=
  L "Successfully processed: " ++ filename.

Definition error_line (filename e : str) : str :=
  L "Error processing " ++ filename ++ L ": " ++ e.

(** The [except] clause, entered with exception [e] after the outputs
    [done]: it prints, and an exception of that [print] leaves the loop. *)
Definition handle (gs : folder_services) (filename : str)
    (done : list output) (e : str) : list output * outcome unit :=
  match print gs (error_line filename e) with
  | Ok _ => (done ++ [Printed (error_line filename e)], Ok tt)
  | Raise e' => (done, Raise e')
  end.

(** The body of the loop for one name of the listing: its outputs, and
    whether it raised. *)
Definition process_entry (w : world) (fs : pdf_services)
    (gs : folder_services) (input_dir output_dir : str) (dpi : nat)
    (filename : str) : traced (list output * outcome unit) :=
  let file_path := path_join input_dir filename in
  if isfile gs file_path then
    result <- process_document w fs file_path dpi ;;
    match result with
    | Raise e => ret (handle gs filename [] e)
    | Ok d =>
        let output_file :=
          path_join output_dir (fst (splitext filename) ++ L ".json") in
        match open_w gs output_file with
        | Raise e => ret (handle gs filename [] e)
        | Ok _ =>
            match json_dump gs output_file d with
            | Raise e => ret (handle gs filename [Opened output_file] e)
            | Ok _ =>
                let done := [Opened output_file; Written output_file d] in
                match print gs (success_line filename) with
                | Raise e => ret (handle gs filename done e)
                | Ok _ =>
                    ret (done ++ [Printed (success_line filename)], Ok tt)
                end
            end
        end
    end
  else ret ([], Ok tt).

(** The loop: an exception ends it. *)
Fixpoint process_entries (w : world) (fs : pdf_services)
    (gs : folder_services) (input_dir output_dir : str) (dpi : nat)
    (names : list str) : traced (list output * outcome unit) :=
  match names with
  | [] => ret ([], Ok tt)
  | filename :: names' =>
      entry <- process_entry w fs gs input_dir output_dir dpi filename ;;
      match snd entry with
      | Raise e => ret (fst entry, Raise e)
      | Ok _ =>
          rest <- process_entries w fs gs input_dir output_dir dpi names' ;;
          ret (fst entry ++ fst rest, snd rest)
      end
  end.

Definition process_folder (w : world) (fs : pdf_services)
    (gs : folder_services) (input_dir output_dir : str) (dpi : nat)
  : traced (list output * outcome unit) :=
  match makedirs gs output_dir with
  | Raise e => ret ([], Raise e)
  | Ok _ =>
      match listdir gs input_dir with
      | Raise e => ret ([], Raise e)
      | Ok names =>
          process_entries w fs gs input_dir output_dir dpi names
      end
  end.

End Documents.

(** ** Names of files and lines of output *)

Module DocumentSpec.
Import PyStr World Documents.

(** The character does not occur in the text. *)
Definition without (c : ascii) (s : str) : bool :=
  forallb (fun x => negb (chr_eqb c x)) s.

Definition only_dots (s : str) : bool := forallb (chr_eqb DOT) s.

(** A directory part: empty, or ending with a slash. *)
Definition dir_part (dir : str) : Prop :=
  dir = [] \/ exists d, dir = d ++ [SEP].

(** The lines printed, in order. *)
Definition printed_lines (outs : list output) : list str :=
  flat_map (fun o => match o with
                     | Printed line => [line]
                     | _ => []
                     end) outs.

(** The names of the listing that are regular files. *)
Definition regular_files (gs : folder_services) (input_dir : str)
    (names : list str) : list str :=
  filter (fun f => isfile gs (path_join input_dir f)) names.

(** The line reports file [f], as processed or as failed. *)
Definition reports (f line : str) : Prop :=
  line = success_line f \/ exists e, line = error_line f e.

End DocumentSpec.

(** ** Scenarios with documents *)

Module Scenario3.
Import PyStr World Scenario Documents.

(** A world in which the classifier model answers a list. *)
Definition list_world : world := {|
  ocr_engine := fun _ => Ok memo_text;
  image_ocr := fun _ => Ok memo_text;
  classifier_model := fun _ => Ok (JArr []);
  extractor_model := fun _ _ => Raise (L "connection refused");
  receipt_model := fun _ => Raise (L "connection refused");
  subscript_error := fun _ _ => L "list indices must be integers or slices, not str"
|}.

(** Every PDF has two pages, and saving a page works. *)
Definition two_pages : pdf_services := {|
  convert_from_path := fun _ _ => Ok [0; 1];
  temporary_directory := Ok (L "/tmp/tmpq1");
  save_png := fun _ _ => Ok tt;
  processing_time := 1 # 2;
  py_str := fun j => match j with JStr s => s | _ => L "None" end;
  type_error := fun _ => L "object is not iterable"
|}.

(** A folder with a scan, a note and a directory; every file can be
    written. *)
Definition scans : folder_services := {|
  makedirs := fun _ => Ok tt;
  listdir := fun _ => Ok [L "a.PNG"; L "notes.txt"; L "old"];
  isfile := fun p => negb (str_eqb p (L "in/old"));
  open_w := fun _ => Ok tt;
  json_dump := fun _ _ => Ok tt;
  print := fun _ => Ok tt
|}.

End Scenario3.

(** * Properties *)

(** ** The matcher against what a pattern matches *)

Module ReFacts.
Import PyStr Re ReSpec.

Lemma prev_after_app (prev : option ascii) (a b : str) :
  prev_after prev (a ++ b) = prev_after (prev_after prev a) b.
Proof.
  revert prev. induction a as [|c a IH]; intros prev; simpl; auto.
Qed.

Lemma within_pred (n : nat) (hi : option nat) :
  can_take hi = true -> within n (option_map Nat.pred hi) -> within (S n) hi.
Proof.
  destruct hi as [[|h]|]; simpl; try discriminate; intros; lia.
Qed.

(** Whatever the greedy repetition hands to its continuation is a run of
    the class of an allowed length. *)
Lemma rep_sound (p : ascii -> bool) (s : str) :
  forall lo hi prev k x,
    rep p lo hi prev s k = Some x ->
    exists run rest,
      s = run ++ rest /\ forallb p run = true /\ lo <= length run
      /\ within (length run) hi /\ k (prev_after prev run) rest = Some x.
Proof.
  assert (Hstop : forall (t : str) lo hi prev
                     (k : option ascii -> str -> option result) x,
             (if Nat.eqb lo 0 then k prev t else None) = Some x ->
             exists run rest,
               t = run ++ rest /\ forallb p run = true /\ lo <= length run
               /\ within (length run) hi
               /\ k (prev_after prev run) rest = Some x).
  { intros s0 lo hi prev k x H. destruct (Nat.eqb_spec lo 0); [|discriminate].
    exists [], s0. subst lo. simpl.
    repeat split; auto. destruct hi; simpl; lia. }
  induction s as [|c s IH]; intros lo hi prev k x H.
  - simpl in H. eapply Hstop; eauto.
  - simpl in H. destruct (p c && can_take hi) eqn:E.
    + destruct (rep p (Nat.pred lo) (option_map Nat.pred hi) (Some c) s k)
        as [y|] eqn:R.
      * injection H as <-. apply andb_true_iff in E as [Pc Ct].
        apply IH in R as (run & rest & -> & Hall & Hlo & Hhi & Hk).
        exists (c :: run), rest. simpl. rewrite Pc, Hall.
        repeat split; auto; [lia|].
        apply within_pred; assumption.
      * eapply Hstop; eauto.
    + eapply Hstop; eauto.
Qed.

(** Soundness: a successful match consumed a text the pattern matches. *)
Lemma rmatch_sound (r : regex) :
  forall prev s cs k x,
    rmatch r prev s cs k = Some x ->
    exists m rest cs',
      s = m ++ rest /\ matches r prev m rest
      /\ k (prev_after prev m) rest cs' = Some x.
Proof.
  induction r as [|p|p lo hi|r1 IH1 r2 IH2|r1 IH1 r2 IH2| | |r IH|n r IH];
    intros prev s cs k x H; simpl in H.
  - exists [], s, cs. repeat split; auto. constructor.
  - destruct s as [|c s]; [discriminate|].
    destruct (p c) eqn:Pc; [|discriminate].
    exists [c], s, cs. repeat split; auto. constructor; assumption.
  - apply rep_sound in H as (run & rest & -> & Hall & Hlo & Hhi & Hk).
    exists run, rest, cs. repeat split; auto. constructor; assumption.
  - apply IH1 in H as (m1 & s1 & cs1 & -> & M1 & H).
    apply IH2 in H as (m2 & rest & cs2 & -> & M2 & H).
    exists (m1 ++ m2), rest, cs2. rewrite app_assoc, prev_after_app.
    repeat split; auto. constructor; assumption.
  - destruct (rmatch r1 prev s cs k) as [y|] eqn:E.
    + injection H as <-.
      apply IH1 in E as (m & rest & cs' & -> & M & Hk).
      exists m, rest, cs'. repeat split; auto. apply M_AltL; assumption.
    + apply IH2 in H as (m & rest & cs' & -> & M & Hk).
      exists m, rest, cs'. repeat split; auto. apply M_AltR; assumption.
  - destruct (xorb (word_before prev) (word_after s)) eqn:E; [|discriminate].
    exists [], s, cs. repeat split; auto. constructor; assumption.
  - destruct (at_end s) eqn:E; [|discriminate].
    exists [], s, cs. repeat split; auto. constructor; assumption.
  - destruct (rmatch r prev s cs (fun _ s' cs' => Some (s', cs')))
      as [y|] eqn:E; [|discriminate].
    apply IH in E as (m & rest & cs' & -> & M & _).
    exists [], (m ++ rest), cs. repeat split; auto. constructor; assumption.
  - apply IH in H as (m & rest & cs' & -> & M & Hk).
    exists m, rest, ((n, firstn (length (m ++ rest) - length rest) (m ++ rest))
                       :: cs').
    repeat split; auto. constructor; assumption.
Qed.

Lemma match_here_sound (r : regex) (prev : option ascii) (s rest : str)
    (cs : captures) :
  match_here r prev s = Some (rest, cs) ->
  exists m, s = m ++ rest /\ matches r prev m rest.
Proof.
  unfold match_here. intros H.
  apply rmatch_sound in H as (m & rest' & cs' & -> & M & H).
  injection H as <- <-. exists m. split; auto.
Qed.

Lemma matched_app (m rest : str) : matched (m ++ rest) rest = m.
Proof.
  unfold matched. rewrite length_app.
  replace (length m + length rest - length rest) with (length m) by lia.
  rewrite firstn_app, firstn_all, Nat.sub_diag. simpl. apply app_nil_r.
Qed.


Lemma within_can_take (n : nat) (hi : option nat) :
  within (S n) hi -> can_take hi = true /\ within n (option_map Nat.pred hi).
Proof.
  destruct hi as [[|h]|]; simpl; intros; split; auto; lia.
Qed.

(** When the greedy repetition fails, the continuation fails after every
    run of an allowed length. *)
Lemma rep_complete (p : ascii -> bool) (s : str) :
  forall lo hi prev k,
    rep p lo hi prev s k = None ->
    forall run rest,
      s = run ++ rest -> forallb p run = true -> lo <= length run ->
      within (length run) hi ->
      k (prev_after prev run) rest = None.
Proof.
  induction s as [|c s IH]; intros lo hi prev k H run rest Hs Hall Hlo Hhi.
  - symmetry in Hs. apply app_eq_nil in Hs as [-> ->]. simpl in *.
    replace lo with 0 in H by lia. exact H.
  - simpl in H. destruct run as [|c' run]; simpl in *.
    + subst rest. replace lo with 0 in H by lia. simpl in H.
      destruct (p c && can_take hi); [|exact H].
      destruct (rep p 0 (option_map Nat.pred hi) (Some c) s k);
        [discriminate|exact H].
    + injection Hs as <- ->. apply andb_true_iff in Hall as [Pc Hall].
      apply within_can_take in Hhi as [Ct Hhi]. rewrite Pc, Ct in H.
      simpl in H.
      destruct (rep p (Nat.pred lo) (option_map Nat.pred hi) (Some c)
                  (run ++ rest) k) eqn:R; [discriminate|].
      eapply IH; eauto. lia.
Qed.

(** Completeness: when the matcher fails, the continuation fails after
    every text the pattern matches. *)
Lemma rmatch_complete (r : regex) :
  forall prev s cs k,
    rmatch r prev s cs k = None ->
    forall m rest,
      s = m ++ rest -> matches r prev m rest ->
      exists cs', k (prev_after prev m) rest cs' = None.
Proof.
  induction r as [|p|p lo hi|r1 IH1 r2 IH2|r1 IH1 r2 IH2| | |r IH|n r IH];
    intros prev s cs k H m rest Hs M; simpl in H; inversion M; subst;
    simpl in *.
  - exists cs. exact H.
  - match goal with Hp : p _ = true |- _ => rewrite Hp in H end.
    exists cs. exact H.
  - exists cs. eapply rep_complete in H; eauto.
  - rewrite <- app_assoc in H.
    eapply IH1 in H as [cs1 H]; [|reflexivity|eassumption].
    eapply IH2 in H as [cs2 H]; [|reflexivity|eassumption].
    exists cs2. rewrite prev_after_app. exact H.
  - destruct (rmatch r1 prev (m ++ rest) cs k) eqn:E; [discriminate|].
    eapply IH1; eauto.
  - destruct (rmatch r1 prev (m ++ rest) cs k) eqn:E; [discriminate|].
    eapply IH2; eauto.
  - match goal with Hx : xorb _ _ = true |- _ => rewrite Hx in H end.
    exists cs. exact H.
  - match goal with Hx : at_end _ = true |- _ => rewrite Hx in H end.
    exists cs. exact H.
  - match goal with
    | Hm : matches r prev ?m0 ?rest0 |- _ =>
        destruct (rmatch r prev (m0 ++ rest0) cs
                    (fun _ s' cs' => Some (s', cs'))) eqn:E;
        [exists cs; exact H|];
        eapply IH in E as [cs' E]; [|reflexivity|exact Hm]; discriminate
    end.
  - eapply IH in H as [cs' H]; [|reflexivity|eassumption].
    eexists. exact H.
Qed.

Lemma match_here_complete (r : regex) (prev : option ascii) (m rest : str) :
  match_here r prev (m ++ rest) = None -> ~ matches r prev m rest.
Proof.
  unfold match_here. intros H M.
  eapply rmatch_complete in H as [cs' H]; [|reflexivity|eassumption].
  discriminate.
Qed.

(** *** Scanning *)

Lemma findall_skip (r : regex) (m rest : str) :
  forall prev,
    findall_from r prev (m ++ rest) (length m)
    = findall_from r (prev_after prev m) rest 0.
Proof.
  induction m as [|c m IH]; intros prev; simpl.
  - destruct rest; reflexivity.
  - apply IH.
Qed.

Lemma findall_hit (r : regex) (prev : option ascii) (m rest : str)
    (cs : captures) :
  m <> [] -> match_here r prev (m ++ rest) = Some (rest, cs) ->
  findall_from r prev (m ++ rest) 0
  = m :: findall_from r (prev_after prev m) rest 0.
Proof.
  intros Hm H. destruct m as [|c m]; [congruence|].
  change ((c :: m) ++ rest) with (c :: m ++ rest) in *.
  cbn [findall_from]. rewrite H.
  change (c :: m ++ rest) with ((c :: m) ++ rest). rewrite matched_app.
  simpl. f_equal. apply findall_skip.
Qed.

Lemma findall_miss (r : regex) (prev : option ascii) (c : ascii) (s : str) :
  match_here r prev (c :: s) = None ->
  findall_from r prev (c :: s) 0 = findall_from r (Some c) s 0.
Proof.
  intros H. cbn [findall_from]. rewrite H. reflexivity.
Qed.

Lemma sub_skip (r : regex) (t : template) (m rest : str) :
  forall prev,
    sub_from r t prev (m ++ rest) (length m)
    = sub_from r t (prev_after prev m) rest 0.
Proof.
  induction m as [|c m IH]; intros prev; simpl.
  - destruct rest; reflexivity.
  - apply IH.
Qed.

Lemma sub_hit (r : regex) (t : template) (prev : option ascii)
    (m rest : str) (cs : captures) :
  m <> [] -> match_here r prev (m ++ rest) = Some (rest, cs) ->
  sub_from r t prev (m ++ rest) 0
  = expand t cs ++ sub_from r t (prev_after prev m) rest 0.
Proof.
  intros Hm H. destruct m as [|c m]; [congruence|].
  change ((c :: m) ++ rest) with (c :: m ++ rest) in *.
  cbn [sub_from]. rewrite H.
  change (c :: m ++ rest) with ((c :: m) ++ rest). rewrite matched_app.
  simpl. f_equal. apply sub_skip.
Qed.

(** A substitution changes nothing in a text in which the pattern matches
    at no position. *)
Lemma sub_no_match (r : regex) (t : template) (s : str) :
  forall prev,
    (forall pre m rest, s = pre ++ m ++ rest ->
                        ~ matches r (prev_after prev pre) m rest) ->
    sub_from r t prev s 0 = s.
Proof.
  induction s as [|c s IH]; intros prev H; [reflexivity|].
  cbn [sub_from].
  destruct (match_here r prev (c :: s)) as [[rest cs]|] eqn:E.
  - apply match_here_sound in E as (m & Hs & M).
    exfalso. apply (H [] m rest); assumption.
  - f_equal. apply IH. intros pre m rest Hs.
    apply (H (c :: pre) m rest). simpl. congruence.
Qed.

End ReFacts.

(** ** The price pattern *)

Module PriceFacts.
Import PyStr Re ReSpec ReFacts TextProcessor.

Lemma chr_eqb_eq (a b : ascii) : chr_eqb a b = true -> a = b.
Proof.
  apply Ascii.eqb_eq.
Qed.

Lemma length_le_1 (run : str) :
  length run <= 1 -> run = [] \/ exists c, run = [c].
Proof.
  destruct run as [|c [|d run]]; simpl; intros; eauto; lia.
Qed.

Lemma length_2 (run : str) :
  2 <= length run -> length run <= 2 -> exists a b, run = [a; b].
Proof.
  destruct run as [|a [|b [|c run]]]; simpl; intros; eauto; lia.
Qed.

(** The price pattern matches exactly the texts of the price shape,
    whatever surrounds them. *)
Lemma matches_price_shape (prev : option ascii) (m rest : str) :
  matches price_pattern prev m rest <-> price_shape m.
Proof.
  unfold price_pattern, Opt, Plus, Times, Chr. split.
  - intros M.
    inversion M as [| | |? ? ? m1 m' ? M1 M'| | | | | |]; subst; clear M.
    inversion M' as [| | |? ? ? m2 m'' ? M2 M''| | | | | |]; subst; clear M'.
    inversion M'' as [| | |? ? ? m3 m4 ? M3 M4| | | | | |]; subst; clear M''.
    inversion M1 as [| |? ? ? ? ? ? A1 L1 W1| | | | | | |]; subst; clear M1.
    inversion M2 as [| |? ? ? ? ? ? A2 L2 W2| | | | | | |]; subst; clear M2.
    inversion M3 as [|? ? ? ? P3| | | | | | | |]; subst; clear M3.
    inversion M4 as [| |? ? ? ? ? ? A4 L4 W4| | | | | | |]; subst; clear M4.
    simpl in W1, W4.
    apply length_2 in L4 as (d1 & d2 & ->); [|assumption].
    cbn [forallb] in A4. apply andb_true_iff in A4 as [D1 D2].
    rewrite andb_true_r in D2.
    apply (chr_eqb_eq "."%char) in P3. subst c.
    exists m2, d1, d2. repeat split; auto.
    + destruct m2; simpl in L2; [lia|congruence].
    + apply length_le_1 in W1 as [->|[c ->]].
      * left. reflexivity.
      * right. cbn [forallb] in A1. rewrite andb_true_r in A1.
        apply (chr_eqb_eq "$"%char) in A1. subst c. reflexivity.
  - intros (ds & d1 & d2 & Hne & Hds & D1 & D2 & [->| ->]).
    + change (ds ++ "."%char :: [d1; d2])
        with ([] ++ ds ++ ["."%char] ++ [d1; d2]).
      repeat constructor; simpl; auto; try lia.
      * destruct ds; simpl; [congruence|lia].
      * rewrite D1, D2. reflexivity.
    + change ("$"%char :: ds ++ "."%char :: [d1; d2])
        with (["$"%char] ++ ds ++ ["."%char] ++ [d1; d2]).
      repeat constructor; simpl; auto; try lia.
      * destruct ds; simpl; [congruence|lia].
      * rewrite D1, D2. reflexivity.
Qed.

Lemma price_shape_nonempty (m : str) : price_shape m -> m <> [].
Proof.
  intros (ds & d1 & d2 & _ & _ & _ & _ & [->| ->]); [|discriminate].
  destruct ds; discriminate.
Qed.

(** [re.findall] lists the price-shaped texts met from left to right. *)
Lemma findall_price_scan (n : nat) :
  forall (s : str) prev,
    length s <= n ->
    scan price_shape s (findall_from price_pattern prev s 0).
Proof.
  induction n as [|n IH]; intros s prev Hn.
  - destruct s; [constructor|simpl in Hn; lia].
  - destruct s as [|c s]; [constructor|].
    destruct (match_here price_pattern prev (c :: s)) as [[rest cs]|] eqn:E.
    + pose proof E as E'.
      apply match_here_sound in E' as (m & Hs & M).
      apply matches_price_shape in M.
      pose proof (price_shape_nonempty M) as Hne.
      rewrite Hs in *. erewrite findall_hit by eassumption.
      constructor; [assumption|]. apply IH.
      rewrite length_app in Hn. destruct m; [congruence|simpl in Hn; lia].
    + rewrite findall_miss by exact E.
      apply scan_skip; [|apply IH; simpl in Hn; lia].
      intros m rest Hs M. rewrite Hs in E.
      eapply match_here_complete; [exact E|].
      apply matches_price_shape. assumption.
Qed.

(** A text starts with at most one text of the price shape. *)
Lemma digits_point_unique (ds1 ds2 t1 t2 : str) :
  forallb is_digit ds1 = true -> forallb is_digit ds2 = true ->
  ds1 ++ "."%char :: t1 = ds2 ++ "."%char :: t2 -> ds1 = ds2 /\ t1 = t2.
Proof.
  revert ds2. induction ds1 as [|a ds1 IH]; intros [|b ds2] H1 H2 E;
    simpl in *.
  - injection E as ->. auto.
  - injection E as <- _. discriminate.
  - injection E as -> _. discriminate.
  - injection E as -> E.
    apply andb_true_iff in H1 as [_ H1]. apply andb_true_iff in H2 as [_ H2].
    destruct (IH ds2 H1 H2 E) as [-> ->]. auto.
Qed.

Lemma price_shape_prefix_unique (m1 m2 r1 r2 : str) :
  price_shape m1 -> price_shape m2 -> m1 ++ r1 = m2 ++ r2 -> m1 = m2.
Proof.
  intros (ds1 & a1 & b1 & N1 & D1 & _ & _ & S1)
         (ds2 & a2 & b2 & N2 & D2 & _ & _ & S2) E.
  assert (Hd : forall ds t, ds <> [] -> forallb is_digit ds = true ->
                            exists d u, ds ++ t = d :: u /\ is_digit d = true).
  { intros [|d ds] t N D; [congruence|]. simpl in D.
    apply andb_true_iff in D as [D _]. exists d, (ds ++ t). auto. }
  destruct S1 as [-> | ->], S2 as [-> | ->];
    simpl in E; rewrite <- ?app_assoc in E; simpl in E.
  - apply digits_point_unique in E as [-> E]; auto.
    injection E as -> -> _. reflexivity.
  - destruct (Hd ds1 ("."%char :: a1 :: b1 :: r1) N1 D1) as (d & u & Hu & Dd).
    rewrite Hu in E. injection E as -> _. discriminate.
  - destruct (Hd ds2 ("."%char :: a2 :: b2 :: r2) N2 D2) as (d & u & Hu & Dd).
    rewrite Hu in E. injection E as <- _. discriminate.
  - injection E as E.
    apply digits_point_unique in E as [-> E]; auto.
    injection E as -> -> _. reflexivity.
Qed.

Lemma scan_price_unique (s : str) (ms1 ms2 : list str) :
  scan price_shape s ms1 -> scan price_shape s ms2 -> ms1 = ms2.
Proof.
  intros S1. revert ms2.
  induction S1 as [|m rest ms Hm S1 IH|c s ms Hno S1 IH]; intros ms2 S2.
  - inversion S2 as [|m' rest' ms' Hm' S' E|]; subst; [reflexivity|].
    apply app_eq_nil in E as [-> _].
    exfalso. exact (price_shape_nonempty Hm' eq_refl).
  - inversion S2 as [E|m' rest' ms' Hm' S' E|c s ms' Hno S' E]; subst.
    + symmetry in E. apply app_eq_nil in E as [-> _].
      exfalso. exact (price_shape_nonempty Hm eq_refl).
    + pose proof (price_shape_prefix_unique _ _ Hm' Hm E) as ->.
      apply app_inv_head in E as ->. f_equal. apply IH. assumption.
    + exfalso. exact (Hno m rest E Hm).
  - inversion S2 as [|m' rest' ms' Hm' S' E|c' s' ms' Hno' S' E]; subst.
    + exfalso. symmetry in E. exact (Hno m' rest' E Hm').
    + apply IH. assumption.
Qed.

End PriceFacts.

(** ** The letter substitutions *)

Module LetterFacts.
Import PyStr Re ReSpec ReFacts TextProcessor LetterSpec.

Lemma chr_eqb_true (a b : ascii) : chr_eqb a b = true -> a = b.
Proof.
  apply Ascii.eqb_eq.
Qed.

Lemma match_isolated (X : ascii) (prev : option ascii) (c : ascii) (s : str) :
  is_word X = true ->
  match_here (isolated X) prev (c :: s)
  = if chr_eqb X c && negb (word_before prev) && negb (word_after s)
    then Some (s, []) else None.
Proof.
  intros HX. unfold match_here, isolated, Chr. cbn [rmatch word_after].
  destruct (chr_eqb X c) eqn:E.
  - apply chr_eqb_true in E. subst c. cbn [word_before]. rewrite HX.
    rewrite ?xorb_true_r, ?xorb_true_l.
    destruct (word_before prev), (word_after s); reflexivity.
  - destruct (xorb (word_before prev) (is_word c)); reflexivity.
Qed.

(** [re.sub(r'\bX\b', d, s)] rewrites one character at a time. *)
Lemma sub_isolated (X d : ascii) (s : str) :
  is_word X = true ->
  forall prev,
    sub_from (isolated X) [Text [d]] prev s 0
    = ctx_map (fix_one X d) (word_before prev) s.
Proof.
  intros HX. induction s as [|c s IH]; intros prev; [reflexivity|].
  cbn [sub_from ctx_map]. rewrite match_isolated by assumption.
  unfold fix_one at 1.
  destruct (chr_eqb X c && negb (word_before prev) && negb (word_after s)).
  - change (c :: s) with ([c] ++ s). rewrite matched_app.
    cbn. f_equal. apply IH.
  - f_equal. apply IH.
Qed.

Lemma ctx_map_ext (f g : bool -> ascii -> bool -> ascii) (s : str) :
  (forall wb c wa, f wb c wa = g wb c wa) ->
  forall wb, ctx_map f wb s = ctx_map g wb s.
Proof.
  intros H. induction s as [|c s IH]; intros wb; simpl; [reflexivity|].
  rewrite H, IH. reflexivity.
Qed.

Lemma word_after_ctx_map (f : bool -> ascii -> bool -> ascii) (s : str)
    (wb : bool) :
  (forall wb c wa, is_word (f wb c wa) = is_word c) ->
  word_after (ctx_map f wb s) = word_after s.
Proof.
  intros H. destruct s; simpl; auto.
Qed.

Lemma ctx_map_compose (f g : bool -> ascii -> bool -> ascii) (s : str) :
  (forall wb c wa, is_word (f wb c wa) = is_word c) ->
  forall wb,
    ctx_map g wb (ctx_map f wb s)
    = ctx_map (fun wb c wa => g wb (f wb c wa) wa) wb s.
Proof.
  intros H. induction s as [|c s IH]; intros wb; simpl; [reflexivity|].
  rewrite word_after_ctx_map, H, IH by assumption. reflexivity.
Qed.

Lemma length_ctx_map (f : bool -> ascii -> bool -> ascii) (s : str) :
  forall wb, length (ctx_map f wb s) = length s.
Proof.
  induction s as [|c s IH]; intros wb; simpl; auto.
Qed.

Lemma word_after_nth (s : str) : word_after s = word_before (nth_error s 0).
Proof.
  destruct s; reflexivity.
Qed.

Lemma nth_error_ctx_map (f : bool -> ascii -> bool -> ascii) (s : str) :
  forall wb i,
    nth_error (ctx_map f wb s) i
    = match nth_error s i with
      | Some c =>
          Some (f match i with
                  | 0 => wb
                  | S j => word_before (nth_error s j)
                  end c (word_before (nth_error s (S i))))
      | None => None
      end.
Proof.
  induction s as [|c s IH]; intros wb [|i]; simpl; try reflexivity.
  - rewrite word_after_nth. reflexivity.
  - rewrite IH. destruct (nth_error s i); [|reflexivity].
    destruct i; reflexivity.
Qed.

Lemma fix_one_word (X d : ascii) :
  is_word X = true -> is_word d = true ->
  forall wb c wa, is_word (fix_one X d wb c wa) = is_word c.
Proof.
  intros HX Hd wb c wa. unfold fix_one.
  destruct (chr_eqb X c) eqn:E; [|reflexivity].
  apply chr_eqb_true in E. subst c.
  destruct wb, wa; cbn [andb negb]; rewrite ?HX, ?Hd; reflexivity.
Qed.

Lemma fix_letter_compose (wb : bool) (c : ascii) (wa : bool) :
  fix_one "B" "8" wb (fix_one "O" "0" wb (fix_one "I" "1" wb c wa) wa) wa
  = fix_letter wb c wa.
Proof.
  unfold fix_one, fix_letter, digit_for.
  destruct wb, wa; cbn [negb andb];
    rewrite ?andb_false_r, ?andb_true_r; try reflexivity.
  destruct (chr_eqb "I" c) eqn:EI; [reflexivity|].
  destruct (chr_eqb "O" c) eqn:EO; reflexivity.
Qed.

(** The three substitutions together rewrite each character on its own. *)
Lemma fix_letters_ctx_map (text : str) :
  fix_letters text = ctx_map fix_letter false text.
Proof.
  unfold fix_letters, sub.
  change (L "1") with ["1"%char]. change (L "0") with ["0"%char].
  change (L "8") with ["8"%char].
  rewrite !sub_isolated by reflexivity. cbn [word_before].
  rewrite !ctx_map_compose.
  - apply ctx_map_ext. intros. apply fix_letter_compose.
  - intros. rewrite !fix_one_word by reflexivity. reflexivity.
  - apply fix_one_word; reflexivity.
Qed.

End LetterFacts.

(** ** Stripping *)

Module StripFacts.
Import PyStr CleanSpec.

Lemma dropwhile_app (p : ascii -> bool) (a b : str) :
  dropwhile p (a ++ b)
  = if forallb p a then dropwhile p b else dropwhile p a ++ b.
Proof.
  induction a as [|c a IH]; simpl; [reflexivity|].
  destruct (p c); simpl; [exact IH|reflexivity].
Qed.

Lemma dropwhile_all (p : ascii -> bool) (s : str) :
  forallb p s = true -> dropwhile p s = [].
Proof.
  induction s as [|c s IH]; simpl; [reflexivity|].
  destruct (p c); simpl; [exact IH|discriminate].
Qed.

Lemma dropwhile_decomp (p : ascii -> bool) (s : str) :
  exists pre, s = pre ++ dropwhile p s /\ forallb p pre = true.
Proof.
  induction s as [|c s [pre [E H]]]; simpl.
  - exists []. auto.
  - destruct (p c) eqn:Pc.
    + exists (c :: pre). simpl. rewrite Pc, H, <- E. auto.
    + exists []. auto.
Qed.

Lemma dropwhile_head (p : ascii -> bool) (s : str) (c : ascii) (t : str) :
  dropwhile p s = c :: t -> p c = false.
Proof.
  induction s as [|d s IH]; simpl; [discriminate|].
  destruct (p d) eqn:Pd; [exact IH|].
  intros H. injection H as <- _. exact Pd.
Qed.

Lemma dropwhile_idem (p : ascii -> bool) (s : str) :
  dropwhile p (dropwhile p s) = dropwhile p s.
Proof.
  destruct (dropwhile p s) as [|c t] eqn:E; [reflexivity|].
  apply dropwhile_head in E. simpl. rewrite E. reflexivity.
Qed.

Lemma forallb_rev (p : ascii -> bool) (s : str) :
  forallb p (rev s) = forallb p s.
Proof.
  induction s as [|c s IH]; simpl; [reflexivity|].
  rewrite forallb_app, IH. simpl. rewrite andb_true_r. apply andb_comm.
Qed.

(** *** [lstrip] and [rstrip] on a concatenation *)

Lemma lstrip_app (a b : str) :
  lstrip (a ++ b) = if all_space a then lstrip b else lstrip a ++ b.
Proof.
  apply dropwhile_app.
Qed.

Lemma rstrip_app (a b : str) :
  rstrip (a ++ b) = if all_space b then rstrip a else a ++ rstrip b.
Proof.
  unfold rstrip, all_space. rewrite rev_app_distr, dropwhile_app, forallb_rev.
  destruct (forallb is_space b); [reflexivity|].
  rewrite rev_app_distr, rev_involutive. reflexivity.
Qed.

Lemma rstrip_nil : rstrip [] = [].
Proof.
  reflexivity.
Qed.

Lemma rstrip_cons (c : ascii) (s : str) :
  rstrip (c :: s)
  = if all_space s then (if is_space c then [] else [c]) else c :: rstrip s.
Proof.
  change (c :: s) with ([c] ++ s). rewrite rstrip_app.
  destruct (all_space s); [|reflexivity].
  unfold rstrip. simpl. destruct (is_space c); reflexivity.
Qed.

Lemma lstrip_all_space (s : str) : all_space s = true -> lstrip s = [].
Proof.
  apply dropwhile_all.
Qed.

Lemma rstrip_all_space (s : str) : all_space s = true -> rstrip s = [].
Proof.
  intros H. unfold rstrip. rewrite dropwhile_all; [reflexivity|].
  rewrite forallb_rev. exact H.
Qed.

Lemma all_space_cons_false (c : ascii) (s : str) :
  all_space (c :: s) = false -> rstrip (c :: s) = c :: rstrip s \/
                                (all_space s = true /\ rstrip (c :: s) = [c]).
Proof.
  unfold all_space. simpl. rewrite rstrip_cons. fold (all_space s).
  destruct (all_space s); [|auto].
  rewrite andb_true_r. intros ->. auto.
Qed.

(** What [rstrip] keeps starts like the text. *)
Lemma rstrip_keeps_head (c : ascii) (s : str) :
  all_space (c :: s) = false -> exists t, rstrip (c :: s) = c :: t.
Proof.
  intros H. apply all_space_cons_false in H as [H|[_ H]]; rewrite H; eauto.
Qed.

Lemma lstrip_idem (s : str) : lstrip (lstrip s) = lstrip s.
Proof.
  apply dropwhile_idem.
Qed.

Lemma rstrip_idem (s : str) : rstrip (rstrip s) = rstrip s.
Proof.
  unfold rstrip. rewrite rev_involutive, dropwhile_idem. reflexivity.
Qed.

Lemma all_space_lstrip (s : str) : all_space (lstrip s) = all_space s.
Proof.
  unfold all_space, lstrip.
  induction s as [|c s IH]; simpl; [reflexivity|].
  destruct (is_space c) eqn:E; simpl; [exact IH|].
  rewrite E. reflexivity.
Qed.

Lemma all_space_rstrip (s : str) : all_space (rstrip s) = all_space s.
Proof.
  induction s as [|c s IH]; [reflexivity|].
  rewrite rstrip_cons. unfold all_space in *. simpl.
  destruct (forallb is_space s) eqn:E.
  - rewrite andb_true_r. destruct (is_space c) eqn:Ec; simpl;
      rewrite ?Ec; reflexivity.
  - simpl. rewrite IH, !andb_false_r. reflexivity.
Qed.

Lemma lstrip_rstrip (s : str) : lstrip (rstrip s) = rstrip (lstrip s).
Proof.
  induction s as [|c s IH]; [reflexivity|].
  rewrite rstrip_cons. unfold lstrip at 2. simpl.
  destruct (is_space c) eqn:Ec.
  - fold (lstrip s). destruct (all_space s) eqn:Es.
    + rewrite (@lstrip_all_space s Es). reflexivity.
    + unfold lstrip at 1. simpl. rewrite Ec. exact IH.
  - rewrite rstrip_cons.
    destruct (all_space s); unfold lstrip; simpl; rewrite Ec; reflexivity.
Qed.

(** *** [strip] *)

Lemma strip_idem (s : str) : strip (strip s) = strip s.
Proof.
  unfold strip. rewrite lstrip_rstrip, lstrip_idem. apply rstrip_idem.
Qed.

Lemma strip_lstrip (s : str) : strip (lstrip s) = strip s.
Proof.
  unfold strip. rewrite lstrip_idem. reflexivity.
Qed.

Lemma strip_rstrip (s : str) : strip (rstrip s) = strip s.
Proof.
  unfold strip. rewrite lstrip_rstrip. apply rstrip_idem.
Qed.

Lemma lstrip_strip (s : str) : lstrip (strip s) = strip s.
Proof.
  unfold strip. rewrite lstrip_rstrip, lstrip_idem. reflexivity.
Qed.

Lemma rstrip_strip (s : str) : rstrip (strip s) = strip s.
Proof.
  unfold strip. apply rstrip_idem.
Qed.

Lemma strip_all_space (s : str) : all_space s = true -> strip s = [].
Proof.
  intros H. unfold strip. rewrite lstrip_all_space by assumption.
  reflexivity.
Qed.

Lemma all_space_strip (s : str) : all_space (strip s) = all_space s.
Proof.
  unfold strip. rewrite all_space_rstrip. apply all_space_lstrip.
Qed.

(** What [strip] keeps is a piece of the text. *)
Lemma strip_decomp (s : str) : exists pre suf, s = pre ++ strip s ++ suf.
Proof.
  unfold strip, rstrip.
  destruct (dropwhile_decomp is_space s) as [pre [E _]].
  destruct (dropwhile_decomp is_space (rev (lstrip s))) as [suf [E' _]].
  exists pre, (rev suf). rewrite <- rev_app_distr, <- E', rev_involutive.
  exact E.
Qed.

End StripFacts.

(** ** Lines *)

Module LineFacts.
Import PyStr TextProcessor CleanSpec StripFacts.

Lemma split_nl_line (a : str) : nl_free a = true -> split_nl a = [a].
Proof.
  induction a as [|c a IH]; simpl; [reflexivity|].
  intros H. apply andb_true_iff in H as [Hc Ha].
  apply negb_true_iff in Hc. rewrite Hc, (IH Ha). reflexivity.
Qed.

Lemma split_nl_app (a b : str) :
  nl_free a = true -> split_nl (a ++ NL :: b) = a :: split_nl b.
Proof.
  induction a as [|c a IH]; simpl; [reflexivity|].
  intros H. apply andb_true_iff in H as [Hc Ha].
  apply negb_true_iff in Hc. rewrite Hc, (IH Ha). reflexivity.
Qed.

Lemma split_nl_nonempty (s : str) : split_nl s <> [].
Proof.
  destruct s as [|c s]; simpl; [discriminate|].
  destruct (chr_eqb c NL); [discriminate|].
  destruct (split_nl s); discriminate.
Qed.

(** A text is one line, or a first line, a newline and the rest. *)
Lemma first_line (s : str) :
  nl_free s = true
  \/ exists a b, s = a ++ NL :: b /\ nl_free a = true.
Proof.
  induction s as [|c s IH]; [left; reflexivity|].
  destruct (chr_eqb c NL) eqn:E.
  - right. exists [], s. apply Ascii.eqb_eq in E. subst c. auto.
  - destruct IH as [H|(a & b & -> & H)].
    + left. simpl. rewrite E, H. reflexivity.
    + right. exists (c :: a), b. simpl. rewrite E, H. auto.
Qed.

(** Induction line by line. *)
Lemma lines_ind (P : str -> Prop) :
  (forall a, nl_free a = true -> P a) ->
  (forall a b, nl_free a = true -> P b -> P (a ++ NL :: b)) ->
  forall s, P s.
Proof.
  intros H1 H2 s.
  assert (H : forall n (t : str), length t <= n -> P t).
  { induction n as [|n IH]; intros t Hn.
    - destruct t; [|simpl in Hn; lia]. apply H1. reflexivity.
    - destruct (first_line t) as [Ht|(a & b & -> & Ha)]; [auto|].
      apply H2; [assumption|]. apply IH.
      rewrite length_app in Hn. simpl in Hn. lia. }
  apply (H (length s)). lia.
Qed.

Lemma nl_free_app (a b : str) : nl_free (a ++ b) = nl_free a && nl_free b.
Proof.
  apply forallb_app.
Qed.

Lemma nl_free_strip (a : str) : nl_free a = true -> nl_free (strip a) = true.
Proof.
  destruct (strip_decomp a) as (pre & suf & E). intros H.
  rewrite E, !nl_free_app in H.
  apply andb_true_iff in H as [_ H]. apply andb_true_iff in H as [H _].
  exact H.
Qed.

Lemma nl_free_lstrip (a : str) : nl_free a = true -> nl_free (lstrip a) = true.
Proof.
  destruct (dropwhile_decomp is_space a) as (pre & E & _). intros H.
  rewrite E, nl_free_app in H. apply andb_true_iff in H as [_ H]. exact H.
Qed.

Lemma nl_free_rstrip (a : str) : nl_free a = true -> nl_free (rstrip a) = true.
Proof.
  induction a as [|c a IH]; [reflexivity|].
  simpl. intros H. apply andb_true_iff in H as [Hc Ha].
  rewrite rstrip_cons.
  destruct (all_space a); [destruct (is_space c)|]; simpl;
    rewrite ?Hc, ?IH; auto.
Qed.

(** *** [strip_lines] line by line *)

Lemma strip_lines_line (a : str) :
  nl_free a = true -> strip_lines a = strip a.
Proof.
  intros H. unfold strip_lines. rewrite split_nl_line by assumption.
  reflexivity.
Qed.

Lemma strip_lines_app (a b : str) :
  nl_free a = true ->
  strip_lines (a ++ NL :: b) = strip a ++ NL :: strip_lines b.
Proof.
  intros H. unfold strip_lines. rewrite split_nl_app by assumption.
  pose proof (split_nl_nonempty b) as Hb.
  destruct (split_nl b) as [|l ls]; [congruence|]. reflexivity.
Qed.

Lemma all_space_NL (b : str) : all_space (NL :: b) = all_space b.
Proof.
  reflexivity.
Qed.

Lemma all_space_app (a b : str) :
  all_space (a ++ b) = all_space a && all_space b.
Proof.
  apply forallb_app.
Qed.

Lemma all_space_strip_lines (s : str) :
  all_space (strip_lines s) = all_space s.
Proof.
  induction s as [a Ha|a b Ha IH] using lines_ind.
  - rewrite strip_lines_line by assumption. apply all_space_strip.
  - rewrite strip_lines_app by assumption.
    rewrite !all_space_app, !all_space_NL, IH, all_space_strip. reflexivity.
Qed.

Lemma strip_lines_idem (s : str) :
  strip_lines (strip_lines s) = strip_lines s.
Proof.
  induction s as [a Ha|a b Ha IH] using lines_ind.
  - rewrite (strip_lines_line a Ha).
    rewrite strip_lines_line by (apply nl_free_strip; assumption).
    apply strip_idem.
  - rewrite (strip_lines_app a b Ha).
    rewrite strip_lines_app by (apply nl_free_strip; assumption).
    rewrite strip_idem, IH. reflexivity.
Qed.

Lemma lstrip_strip_lines (s : str) :
  strip_lines (lstrip s) = lstrip (strip_lines s).
Proof.
  induction s as [a Ha|a b Ha IH] using lines_ind.
  - rewrite (strip_lines_line a Ha).
    rewrite strip_lines_line by (apply nl_free_lstrip; assumption).
    rewrite strip_lstrip, lstrip_strip. reflexivity.
  - rewrite (strip_lines_app a b Ha), !lstrip_app, all_space_strip.
    destruct (all_space a) eqn:E.
    + change (lstrip (NL :: b)) with (lstrip b).
      change (lstrip (NL :: strip_lines b)) with (lstrip (strip_lines b)).
      exact IH.
    + rewrite strip_lines_app by (apply nl_free_lstrip; assumption).
      rewrite strip_lstrip, lstrip_strip. reflexivity.
Qed.

Lemma rstrip_strip_lines (s : str) :
  strip_lines (rstrip s) = rstrip (strip_lines s).
Proof.
  induction s as [a Ha|a b Ha IH] using lines_ind.
  - rewrite (strip_lines_line a Ha).
    rewrite strip_lines_line by (apply nl_free_rstrip; assumption).
    rewrite strip_rstrip, rstrip_strip. reflexivity.
  - rewrite (strip_lines_app a b Ha), !rstrip_app, !all_space_NL.
    rewrite all_space_strip_lines.
    destruct (all_space b) eqn:E.
    + rewrite strip_lines_line by (apply nl_free_rstrip; assumption).
      rewrite strip_rstrip, rstrip_strip. reflexivity.
    + rewrite !rstrip_cons, all_space_strip_lines, E.
      rewrite strip_lines_app by assumption. rewrite IH. reflexivity.
Qed.

Lemma strip_strip_lines (s : str) :
  strip_lines (strip s) = strip (strip_lines s).
Proof.
  unfold strip. rewrite rstrip_strip_lines, lstrip_strip_lines. reflexivity.
Qed.

End LineFacts.

(** ** The steps of [clean_text] against each other *)

Module CleanFacts.
Import PyStr Re ReSpec ReFacts TextProcessor LetterSpec LetterFacts.
Import StripFacts LineFacts CleanSpec.

(** *** Character classes *)

Lemma space_not_word (c : ascii) : is_space c = true -> is_word c = false.
Proof.
  destruct c as [[] [] [] [] [] [] [] []]; vm_compute; congruence.
Qed.

Lemma digit_is_word (c : ascii) : is_digit c = true -> is_word c = true.
Proof.
  destruct c as [[] [] [] [] [] [] [] []]; vm_compute; congruence.
Qed.

Lemma space_not_digit (c : ascii) : is_space c = true -> is_digit c = false.
Proof.
  destruct c as [[] [] [] [] [] [] [] []]; vm_compute; congruence.
Qed.

Lemma digit_for_cases (c : ascii) :
  digit_for c = c
  \/ ((c = "I" \/ c = "O" \/ c = "B")%char
      /\ (digit_for c = "1" \/ digit_for c = "0" \/ digit_for c = "8")%char).
Proof.
  unfold digit_for.
  destruct (chr_eqb "I" c) eqn:EI; [apply chr_eqb_true in EI; auto 6|].
  destruct (chr_eqb "O" c) eqn:EO; [apply chr_eqb_true in EO; auto 6|].
  destruct (chr_eqb "B" c) eqn:EB; [apply chr_eqb_true in EB; auto 6|].
  auto.
Qed.

Ltac digit_for_cases c :=
  destruct (digit_for_cases c) as [-> | [[-> | [-> | ->]] _]].

Lemma digit_for_space (c : ascii) : is_space (digit_for c) = is_space c.
Proof.
  digit_for_cases c; reflexivity.
Qed.

Lemma digit_for_word (c : ascii) : is_word (digit_for c) = is_word c.
Proof.
  digit_for_cases c; reflexivity.
Qed.

Lemma digit_for_nl (c : ascii) :
  chr_eqb (digit_for c) NL = chr_eqb c NL.
Proof.
  digit_for_cases c; reflexivity.
Qed.

Lemma digit_for_idem (c : ascii) : digit_for (digit_for c) = digit_for c.
Proof.
  destruct (digit_for_cases c) as [E | [[-> | [-> | ->]] _]];
    [rewrite !E|..]; reflexivity.
Qed.

Lemma digit_for_digit (c : ascii) :
  is_digit (digit_for c) = true -> is_word c = true.
Proof.
  digit_for_cases c; try reflexivity. apply digit_is_word.
Qed.

Lemma fix_letter_space (wb : bool) (c : ascii) (wa : bool) :
  is_space (fix_letter wb c wa) = is_space c.
Proof.
  unfold fix_letter. destruct (negb wb && negb wa); [|reflexivity].
  apply digit_for_space.
Qed.

Lemma fix_letter_word (wb : bool) (c : ascii) (wa : bool) :
  is_word (fix_letter wb c wa) = is_word c.
Proof.
  unfold fix_letter. destruct (negb wb && negb wa); [|reflexivity].
  apply digit_for_word.
Qed.

Lemma fix_letter_nl (wb : bool) (c : ascii) (wa : bool) :
  chr_eqb (fix_letter wb c wa) NL = chr_eqb c NL.
Proof.
  unfold fix_letter. destruct (negb wb && negb wa); [|reflexivity].
  apply digit_for_nl.
Qed.

Lemma fix_letter_idem (wb : bool) (c : ascii) (wa : bool) :
  fix_letter wb (fix_letter wb c wa) wa = fix_letter wb c wa.
Proof.
  unfold fix_letter. destruct (negb wb && negb wa); [|reflexivity].
  apply digit_for_idem.
Qed.

Lemma fix_letter_digit (wb : bool) (c : ascii) (wa : bool) :
  is_digit (fix_letter wb c wa) = true -> is_word c = true.
Proof.
  unfold fix_letter. destruct (negb wb && negb wa).
  - apply digit_for_digit.
  - apply digit_is_word.
Qed.

(** *** The letter substitutions and stripping *)

Lemma all_space_ctx_map (s : str) :
  forall wb, all_space (ctx_map fix_letter wb s) = all_space s.
Proof.
  unfold all_space.
  induction s as [|c s IH]; intros wb; simpl; [reflexivity|].
  rewrite fix_letter_space, IH. reflexivity.
Qed.

Lemma nl_free_ctx_map (s : str) :
  forall wb, nl_free (ctx_map fix_letter wb s) = nl_free s.
Proof.
  unfold nl_free.
  induction s as [|c s IH]; intros wb; simpl; [reflexivity|].
  rewrite fix_letter_nl, IH. reflexivity.
Qed.

Lemma word_after_all_space (s : str) :
  all_space s = true -> word_after s = false.
Proof.
  destruct s as [|c s]; [reflexivity|]. unfold all_space. simpl.
  intros H. apply andb_true_iff in H as [H _]. apply space_not_word, H.
Qed.

Lemma ctx_map_lstrip (s : str) :
  ctx_map fix_letter false (lstrip s) = lstrip (ctx_map fix_letter false s).
Proof.
  unfold lstrip. induction s as [|c s IH]; [reflexivity|].
  cbn [dropwhile ctx_map]. rewrite fix_letter_space.
  destruct (is_space c) eqn:E; [|reflexivity].
  rewrite (space_not_word _ E). exact IH.
Qed.

Lemma ctx_map_rstrip (s : str) :
  forall wb,
    ctx_map fix_letter wb (rstrip s) = rstrip (ctx_map fix_letter wb s).
Proof.
  induction s as [|c s IH]; intros wb; [reflexivity|].
  cbn [ctx_map]. rewrite !rstrip_cons, all_space_ctx_map, fix_letter_space.
  destruct (all_space s) eqn:Es.
  - rewrite (word_after_all_space _ Es).
    destruct (is_space c); reflexivity.
  - cbn [ctx_map]. rewrite IH. f_equal. f_equal.
    destruct s as [|d s]; [discriminate|].
    destruct (rstrip_keeps_head _ _ Es) as [t ->]. reflexivity.
Qed.

Lemma rewrite_letters_strip (s : str) :
  rewrite_letters (strip s) = strip (rewrite_letters s).
Proof.
  unfold rewrite_letters, strip. rewrite ctx_map_rstrip, ctx_map_lstrip. reflexivity.
Qed.

Lemma ctx_map_app_NL (a b : str) :
  forall wb,
    ctx_map fix_letter wb (a ++ NL :: b)
    = ctx_map fix_letter wb a ++ NL :: ctx_map fix_letter false b.
Proof.
  induction a as [|c a IH]; intros wb.
  - cbn. unfold fix_letter.
    destruct (negb wb && negb (word_after b)); reflexivity.
  - cbn [app ctx_map]. rewrite IH. f_equal.
    destruct a; reflexivity.
Qed.

Lemma rewrite_letters_strip_lines (s : str) :
  rewrite_letters (strip_lines s) = strip_lines (rewrite_letters s).
Proof.
  unfold rewrite_letters. induction s as [a Ha|a b Ha IH] using lines_ind.
  - rewrite (strip_lines_line a Ha).
    rewrite strip_lines_line by (rewrite nl_free_ctx_map; assumption).
    apply rewrite_letters_strip.
  - rewrite (strip_lines_app a b Ha), !ctx_map_app_NL.
    rewrite strip_lines_app by (rewrite nl_free_ctx_map; assumption).
    rewrite IH. f_equal. apply rewrite_letters_strip.
Qed.

Lemma rewrite_letters_idem (s : str) :
  rewrite_letters (rewrite_letters s) = rewrite_letters s.
Proof.
  unfold rewrite_letters. rewrite ctx_map_compose by apply fix_letter_word.
  apply ctx_map_ext. intros. apply fix_letter_idem.
Qed.

(** *** Texts without two digits in a row *)

Lemma digit_after_app (a b : str) :
  digit_after (a ++ b) = match a with [] => digit_after b | _ => digit_after a end.
Proof.
  destruct a; reflexivity.
Qed.

Lemma no_adjacent_app (a b : str) :
  no_adjacent_digits (a ++ b) = true ->
  no_adjacent_digits a = true /\ no_adjacent_digits b = true.
Proof.
  induction a as [|c a IH]; simpl; [auto|].
  intros H. apply andb_true_iff in H as [Hc H].
  destruct (IH H) as [Ha Hb]. split; [|assumption].
  rewrite Ha, andb_true_r.
  destruct a; simpl in *; [rewrite andb_false_r; reflexivity|exact Hc].
Qed.

(** Two texts put together around a character that is not a digit. *)
Lemma no_adjacent_join (a : str) (c : ascii) (b : str) :
  is_digit c = false ->
  no_adjacent_digits a = true -> no_adjacent_digits b = true ->
  no_adjacent_digits (a ++ c :: b) = true.
Proof.
  intros Hc Ha Hb. induction a as [|d a IH]; simpl.
  - rewrite Hc, Hb. reflexivity.
  - simpl in Ha. apply andb_true_iff in Ha as [Hd Ha].
    rewrite (IH Ha), andb_true_r.
    destruct a; simpl in *; [rewrite Hc, andb_false_r; reflexivity|exact Hd].
Qed.

Lemma two_digits_adjacent (a : str) (d1 d2 : ascii) (b : str) :
  is_digit d1 = true -> is_digit d2 = true ->
  no_adjacent_digits (a ++ d1 :: d2 :: b) = false.
Proof.
  intros H1 H2. induction a as [|c a IH]; simpl.
  - rewrite H1, H2. reflexivity.
  - rewrite IH. apply andb_false_r.
Qed.

Lemma no_adjacent_strip (s : str) :
  no_adjacent_digits s = true -> no_adjacent_digits (strip s) = true.
Proof.
  destruct (strip_decomp s) as (pre & suf & E). intros H. rewrite E in H.
  apply no_adjacent_app in H as [_ H]. apply no_adjacent_app in H as [H _].
  exact H.
Qed.

Lemma no_adjacent_strip_lines (s : str) :
  no_adjacent_digits s = true -> no_adjacent_digits (strip_lines s) = true.
Proof.
  induction s as [a Ha|a b Ha IH] using lines_ind; intros H.
  - rewrite (strip_lines_line a Ha). apply no_adjacent_strip, H.
  - rewrite (strip_lines_app a b Ha).
    apply no_adjacent_app in H as [H1 H2].
    change (NL :: b) with ([NL] ++ b) in H2.
    apply no_adjacent_app in H2 as [_ H2].
    apply no_adjacent_join; [reflexivity|apply no_adjacent_strip, H1|auto].
Qed.

Lemma no_adjacent_ctx_map (s : str) :
  forall wb,
    no_adjacent_digits s = true ->
    no_adjacent_digits (ctx_map fix_letter wb s) = true.
Proof.
  induction s as [|c s IH]; intros wb H; [reflexivity|].
  simpl in H. apply andb_true_iff in H as [Hc H].
  cbn [ctx_map no_adjacent_digits]. rewrite (IH _ H), andb_true_r.
  destruct s as [|d s]; [cbn; apply negb_true_iff, andb_false_r|].
  cbn [ctx_map digit_after word_after] in *.
  apply negb_true_iff. apply negb_true_iff in Hc.
  destruct (is_digit (fix_letter wb c (is_word d))) eqn:E1; [|reflexivity].
  rewrite (fix_letter_digit _ _ _ E1). cbn.
  destruct (is_digit d) eqn:Ed; [|reflexivity].
  rewrite (digit_is_word _ Ed) in E1. unfold fix_letter in E1.
  rewrite andb_false_r in E1. rewrite E1 in Hc. discriminate.
Qed.

(** *** The price substitutions need two digits in a row *)

Lemma length_two (run : str) :
  2 <= length run -> exists a b t, run = a :: b :: t.
Proof.
  destruct run as [|a [|b t]]; simpl; intros; eauto; lia.
Qed.

Ltac inv_matches :=
  repeat match goal with
         | H : matches (Seq _ _) _ _ _ |- _ => inversion H; subst; clear H
         | H : matches (Group _ _) _ _ _ |- _ => inversion H; subst; clear H
         | H : matches (Look _) _ _ _ |- _ => inversion H; subst; clear H
         | H : matches (Rep _ _ _) _ _ _ |- _ => inversion H; subst; clear H
         | H : matches (Cls _) _ _ _ |- _ => inversion H; subst; clear H
         | H : matches WordB _ _ _ |- _ => inversion H; subst; clear H
         end.

Lemma two_digits (run : str) :
  forallb is_digit run = true -> 2 <= length run ->
  exists a b t, run = a :: b :: t /\ is_digit a = true /\ is_digit b = true.
Proof.
  intros H L. apply length_two in L as (a & b & t & ->).
  simpl in H. apply andb_true_iff in H as [Ha H].
  apply andb_true_iff in H as [Hb _]. eauto 6.
Qed.

Lemma no_adjacent_tail (c : ascii) (s : str) :
  no_adjacent_digits (c :: s) = true -> no_adjacent_digits s = true.
Proof.
  simpl. intros H. apply andb_true_iff in H as [_ H]. exact H.
Qed.

Lemma two_digits_not_clean (a b : ascii) (t : str) :
  is_digit a = true -> is_digit b = true ->
  no_adjacent_digits (a :: b :: t) = true -> False.
Proof.
  intros Ha Hb. simpl. rewrite Ha, Hb. discriminate.
Qed.

Ltac split_clean :=
  repeat match goal with
         | H : no_adjacent_digits (_ ++ _) = true |- _ =>
             apply no_adjacent_app in H; destruct H
         | H : no_adjacent_digits (_ :: _ ++ _) = true |- _ =>
             apply no_adjacent_tail in H
         end.

Ltac needs_digits :=
  inv_matches;
  match goal with
  | H : forallb is_digit ?run = true, L : 2 <= length ?run |- _ =>
      destruct (two_digits _ H L) as (a & b & t & -> & Da & Db)
  end;
  match goal with
  | |- ?x = false => destruct x eqn:E; [exfalso|reflexivity]
  end;
  split_clean;
  match goal with
  | H : no_adjacent_digits (?a :: ?b :: ?t) = true,
    Ha : is_digit ?a = true, Hb : is_digit ?b = true |- _ =>
      exact (@two_digits_not_clean a b t Ha Hb H)
  end.

Lemma decimal_spacing_needs_digits (prev : option ascii) (pre m rest : str) :
  matches decimal_spacing_pattern prev m rest ->
  no_adjacent_digits (pre ++ m ++ rest) = false.
Proof.
  unfold decimal_spacing_pattern, Plus, Star, Times, Chr. intros M.
  needs_digits.
Qed.

Lemma missing_decimal_needs_digits (prev : option ascii) (pre m rest : str) :
  matches missing_decimal_pattern prev m rest ->
  no_adjacent_digits (pre ++ m ++ rest) = false.
Proof.
  unfold missing_decimal_pattern, Plus, Star, Times, Chr. intros M.
  needs_digits.
Qed.

(** The price substitutions change nothing in a text without two digits in
    a row. *)
Lemma fix_prices_id (s : str) :
  no_adjacent_digits s = true -> fix_prices s = s.
Proof.
  intros H. unfold fix_prices, sub.
  assert (E1 : sub_from decimal_spacing_pattern decimal_template None s 0 = s).
  { apply sub_no_match. intros pre m rest E M.
    apply (decimal_spacing_needs_digits pre) in M. congruence. }
  rewrite E1. apply sub_no_match. intros pre m rest E M.
  apply (missing_decimal_needs_digits pre) in M. congruence.
Qed.

(** Every pattern that [clean_text] substitutes or that the receipt score
    counts matches at least one character. *)
Lemma patterns_consume (r : regex) (prev : option ascii) (m rest : str) :
  (exists X, r = isolated X) \/ r = decimal_spacing_pattern
  \/ r = missing_decimal_pattern \/ r = price_pattern ->
  matches r prev m rest -> m <> [].
Proof.
  intros [[X ->] | [-> | [-> | ->]]] M.
  - unfold isolated, Chr in M. inv_matches. discriminate.
  - unfold decimal_spacing_pattern, Plus, Star, Times, Chr in M.
    inv_matches. intros E. apply (f_equal (@length ascii)) in E.
    rewrite !length_app in E. simpl in E. lia.
  - unfold missing_decimal_pattern, Plus, Star, Times, Chr in M.
    inv_matches. intros E. apply (f_equal (@length ascii)) in E.
    rewrite !length_app in E. simpl in E. lia.
  - apply PriceFacts.price_shape_nonempty.
    apply (PriceFacts.matches_price_shape prev m rest). exact M.
Qed.

End CleanFacts.
(** ** The heuristic classifier *)

Module ClassifierFacts.
Import PyStr Re TextProcessor.
Local Open Scope Q_scope.

Lemma Qltb_iff (a b : Q) : Qltb a b = true <-> a < b.
Proof.
  unfold Qltb. rewrite negb_true_iff. split; intros H.
  - apply Qnot_le_lt. intros Hle. apply Qle_bool_iff in Hle. congruence.
  - destruct (Qle_bool b a) eqn:E; [|reflexivity].
    apply Qle_bool_iff in E. lra.
Qed.

Lemma qualifies_iff (score confidence : Q) :
  qualifies score confidence = true <-> 2 <= score /\ 3#5 < confidence.
Proof.
  unfold qualifies. rewrite andb_true_iff, Qle_bool_iff, Qltb_iff. tauto.
Qed.

Lemma of_nat_nonneg (n : nat) : 0 <= of_nat n.
Proof.
  unfold of_nat, Qle. simpl. lia.
Qed.

Lemma price_component_range (text : str) :
  0 <= price_component text /\ price_component text <= 2.
Proof.
  unfold price_component. split.
  - apply Q.min_glb; [|lra].
    apply Qle_shift_div_l; [lra|]. pose proof (of_nat_nonneg (price_matches text)). lra.
  - apply Q.le_min_r.
Qed.

Lemma receipt_score_nonneg (text : str) : 0 <= _calculate_receipt_score text.
Proof.
  unfold _calculate_receipt_score.
  pose proof (of_nat_nonneg (keyword_matches receipt_keywords text)).
  pose proof (price_component_range text) as [? _].
  destruct (search receipt_date_pattern text); lra.
Qed.

Lemma invoice_score_nonneg (text : str) : 0 <= _calculate_invoice_score text.
Proof.
  unfold _calculate_invoice_score.
  pose proof (of_nat_nonneg (keyword_matches invoice_keywords text)).
  destruct (search invoice_num_pattern text);
    destruct (search invoice_date_pattern text); lra.
Qed.

(** The division is only reached with a positive divisor, so it returns. *)
Lemma confidences_cases (r i : Q) :
  (0 < r + i /\ confidences r i = Some (r / (r + i), i / (r + i)))
  \/ (~ 0 < r + i /\ confidences r i = Some (0, 0)).
Proof.
  unfold confidences, truediv.
  destruct (Qltb 0 (r + i)) eqn:E.
  - apply Qltb_iff in E. left. split; [assumption|].
    destruct (Qeq_bool (r + i) 0) eqn:Z; [|reflexivity].
    apply Qeq_bool_iff in Z. lra.
  - right. split; [|reflexivity].
    intros H. apply Qltb_iff in H. congruence.
Qed.

Lemma ratio_range (a t : Q) : 0 <= a -> a <= t -> 0 < t ->
  0 <= a / t /\ a / t <= 1.
Proof.
  intros Ha Hat Ht. split.
  - apply Qle_shift_div_l; [assumption|lra].
  - apply Qle_shift_div_r; [assumption|lra].
Qed.

Lemma ratios_sum (r i : Q) : 0 < r + i -> r / (r + i) + i / (r + i) == 1.
Proof.
  intros H. field. lra.
Qed.

Lemma decision_confidence_range (r i rc ic : Q) :
  0 <= rc <= 1 -> 0 <= ic <= 1 ->
  0 <= snd (decision r i rc ic) <= 1.
Proof.
  intros Hr Hi. unfold decision.
  destruct (qualifies r rc); [exact Hr|].
  destruct (qualifies i ic); [exact Hi|].
  simpl. split.
  - apply Qle_trans with rc; [tauto|apply Q.le_max_l].
  - apply Q.max_lub; tauto.
Qed.

End ClassifierFacts.


(** ** More on stripping, lines and scores *)

Module MoreFacts.
Import PyStr Re ReSpec ReFacts TextProcessor LetterSpec LetterFacts.
Import StripFacts LineFacts CleanSpec CleanFacts ClassifierFacts.

Lemma rstrip_head (s : str) (c : ascii) (t : str) :
  rstrip s = c :: t -> exists u, s = c :: u.
Proof.
  destruct s as [|d s]; [discriminate|]. rewrite rstrip_cons.
  destruct (all_space s); [destruct (is_space d)|]; intros H;
    try discriminate; injection H as -> _; eauto.
Qed.

Lemma strip_first (s : str) (c : ascii) (t : str) :
  strip s = c :: t -> is_space c = false.
Proof.
  unfold strip. intros H. apply rstrip_head in H as [u H].
  exact (dropwhile_head _ _ H).
Qed.

Lemma strip_last (s init : str) (c : ascii) :
  strip s = init ++ [c] -> is_space c = false.
Proof.
  unfold strip, rstrip. intros H.
  apply (f_equal (@rev ascii)) in H.
  rewrite rev_involutive, rev_app_distr in H. simpl in H.
  exact (dropwhile_head _ _ H).
Qed.

Lemma all_space_no_adjacent (s : str) :
  all_space s = true -> no_adjacent_digits s = true.
Proof.
  unfold all_space. induction s as [|c s IH]; [reflexivity|].
  simpl. intros H. apply andb_true_iff in H as [Hc Hs].
  rewrite (space_not_digit _ Hc), (IH Hs). reflexivity.
Qed.

Lemma join_split_nl (s : str) : join_nl (split_nl s) = s.
Proof.
  induction s as [a Ha|a b Ha IH] using lines_ind.
  - rewrite split_nl_line by assumption. reflexivity.
  - rewrite split_nl_app by assumption.
    pose proof (split_nl_nonempty b) as Hb.
    destruct (split_nl b) as [|l ls]; [congruence|].
    change (join_nl (a :: l :: ls)) with (a ++ NL :: join_nl (l :: ls)).
    rewrite IH. reflexivity.
Qed.

Lemma ctx_map_id (f : bool -> ascii -> bool -> ascii) (s : str) :
  (forall c, In c s -> forall wb wa, f wb c wa = c) ->
  forall wb, ctx_map f wb s = s.
Proof.
  induction s as [|c s IH]; intros H wb; [reflexivity|].
  simpl. rewrite (H c (or_introl eq_refl)), IH; [reflexivity|].
  intros d Hd. apply H. right. exact Hd.
Qed.

Lemma list_sum_flags (A : Type) (p : A -> bool) (l : list A) :
  list_sum (map (fun x => if p x then 1 else 0) l) <= length l.
Proof.
  induction l as [|x l IH]; simpl; [lia|]. destruct (p x); lia.
Qed.

Lemma keyword_matches_le (keywords : list str) (text : str) :
  keyword_matches keywords text <= length keywords.
Proof.
  apply list_sum_flags.
Qed.

Local Open Scope Q_scope.

Lemma of_nat_le (n m : nat) : (n <= m)%nat -> of_nat n <= of_nat m.
Proof.
  intros H. unfold of_nat, Qle. simpl. lia.
Qed.

Lemma of_nat_lt (n m : nat) : (n < m)%nat -> of_nat n < of_nat m.
Proof.
  intros H. unfold of_nat, Qlt. simpl. lia.
Qed.

Lemma classify_document_total (text : str) :
  exists ty c, classify_document text = Some (ty, c).
Proof.
  unfold classify_document.
  destruct (confidences_cases (_calculate_receipt_score (lower text))
              (_calculate_invoice_score (lower text))) as [[_ ->] | [_ ->]].
  - destruct (decision _ _ _ _) as [ty c]. eauto.
  - destruct (decision _ _ _ _) as [ty c]. eauto.
Qed.

Lemma lower_chr_idem (c : ascii) : lower_chr (lower_chr c) = lower_chr c.
Proof.
  destruct c as [[] [] [] [] [] [] [] []]; reflexivity.
Qed.

Lemma lower_idem (s : str) : lower (lower s) = lower s.
Proof.
  unfold lower. rewrite map_map. apply map_ext. intros c.
  apply lower_chr_idem.
Qed.

End MoreFacts.

(** ** Rounding *)

Module Binary64Facts.
Import Binary64.
Local Open Scope Z_scope.

(** From four times the denominator on, the exponent is at least 2 and the
    power of two it names is below the number. *)
Lemma exponent_from_4 (n d : positive) :
  4 * Zpos d <= Zpos n ->
  2 <= exponent n d /\ Zpos d * 2 ^ exponent n d <= Zpos n.
Proof.
  intros H. unfold exponent.
  set (ln := Z.log2 (Zpos n)). set (ld := Z.log2 (Zpos d)).
  assert (Hn : 2 ^ ln <= Zpos n < 2 ^ (ln + 1))
    by (apply Z.log2_spec; lia).
  assert (Hd : 2 ^ ld <= Zpos d < 2 ^ (ld + 1))
    by (apply Z.log2_spec; lia).
  assert (Hld : 0 <= ld) by apply Z.log2_nonneg.
  assert (Hln : 0 <= ln) by apply Z.log2_nonneg.
  assert (He : 2 <= ln - ld).
  { assert (Hlt : 2 ^ (ld + 2) < 2 ^ (ln + 1)).
    { rewrite Z.pow_add_r by lia. change (2 ^ 2) with 4. lia. }
    apply Z.pow_lt_mono_r_iff in Hlt; lia. }
  destruct (0 <=? ln - ld) eqn:E0; [|apply Z.leb_gt in E0; lia].
  destruct (Zpos d * 2 ^ (ln - ld) <=? Zpos n) eqn:T.
  - apply Z.leb_le in T. split; [exact He|exact T].
  - apply Z.leb_gt in T.
    assert (H3 : 3 <= ln - ld).
    { destruct (Z.eq_dec (ln - ld) 2) as [E2|]; [|lia].
      rewrite E2 in T. change (2 ^ 2) with 4 in T. lia. }
    split; [lia|].
    assert (Hp : 2 ^ (ld + 1) * 2 ^ (ln - ld - 1) = 2 ^ ln).
    { rewrite <- Z.pow_add_r by lia. f_equal. lia. }
    assert (Hpos : 0 < 2 ^ (ln - ld - 1)) by (apply Z.pow_pos_nonneg; lia).
    nia.
Qed.

(** Rounding does not take a number from 4 on below 4. *)
Lemma round_pos_from_4 (n d : positive) :
  4 * Zpos d <= Zpos n -> (4 <= round_pos n d)%Q.
Proof.
  intros H. destruct (exponent_from_4 H) as [He Hlow].
  unfold round_pos. set (e := exponent n d) in *.
  destruct (0 <=? 52 - e) eqn:S.
  - apply Z.leb_le in S.
    assert (Hs : 0 < 2 ^ (52 - e)) by (apply Z.pow_pos_nonneg; lia).
    pose proof (Z.div_eucl_eq (Zpos n * 2 ^ (52 - e)) (Zpos d)
                  ltac:(lia)) as Hdiv.
    pose proof (Z.mod_pos_bound (Zpos n * 2 ^ (52 - e)) (Zpos d)
                  ltac:(lia)) as Hmod.
    unfold Z.modulo in Hmod.
    destruct (Z.div_eucl (Zpos n * 2 ^ (52 - e)) (Zpos d)) as [q r].
    assert (Hq : 4 * 2 ^ (52 - e) <= q) by nia.
    rewrite Qred_correct.
    unfold Qle. cbn [Qnum Qden]. rewrite Z2Pos.id by exact Hs.
    destruct ((Zpos d <? 2 * r) || ((Zpos d =? 2 * r) && Z.odd q)); lia.
  - apply Z.leb_gt in S.
    set (D := Zpos d * 2 ^ (- (52 - e))).
    assert (Ht : 0 < 2 ^ (- (52 - e))) by (apply Z.pow_pos_nonneg; lia).
    assert (HD : 0 < D) by (unfold D; lia).
    pose proof (Z.div_eucl_eq (Zpos n) D ltac:(lia)) as Hdiv.
    pose proof (Z.mod_pos_bound (Zpos n) D HD) as Hmod.
    unfold Z.modulo in Hmod.
    assert (Hn : D * 2 ^ 52 <= Zpos n).
    { unfold D.
      replace (Zpos d * 2 ^ (- (52 - e)) * 2 ^ 52) with (Zpos d * 2 ^ e).
      - exact Hlow.
      - rewrite <- Z.mul_assoc, <- Z.pow_add_r by lia. do 2 f_equal. lia. }
    destruct (Z.div_eucl (Zpos n) D) as [q r].
    assert (H52 : 4 <= 2 ^ 52) by (vm_compute; discriminate).
    assert (Hq : 2 ^ 52 <= q) by nia.
    unfold Qle, inject_Z. cbn [Qnum Qden].
    destruct ((D <? 2 * r) || ((D =? 2 * r) && Z.odd q)); nia.
Qed.

End Binary64Facts.

(** ** The classifier on every combination of scores *)

Module GridFacts.
Import PyStr Re TextProcessor ScoreGrid Binary64Facts ClassifierFacts MoreFacts.
Local Open Scope Q_scope.

Lemma in_bools (b : bool) : In b [false; true].
Proof.
  destruct b; simpl; auto.
Qed.

Lemma same_fraction_eq (a b : Q) : same_fraction a b = true -> a = b.
Proof.
  destruct a as [n d], b as [n' d']. unfold same_fraction. cbn [Qnum Qden].
  intros H. apply andb_true_iff in H as [Hn Hd].
  apply Z.eqb_eq in Hn. apply Pos.eqb_eq in Hd. congruence.
Qed.

Lemma in_add_to (exact float : Q) (groups : list (Q * list Q)) :
  (exists exacts, In (float, exacts) (add_to exact float groups)
                  /\ In exact exacts)
  /\ (forall f e exacts,
        In (f, exacts) groups -> In e exacts ->
        exists exacts', In (f, exacts') (add_to exact float groups)
                        /\ In e exacts').
Proof.
  induction groups as [|[f0 es] groups [IH1 IH2]]; cbn [add_to].
  - split; [exists [exact]; simpl; auto|]. intros f e exacts [].
  - destruct (same_fraction f0 float) eqn:E.
    + apply same_fraction_eq in E. subst f0. split.
      * exists (exact :: es). simpl. auto.
      * intros f e exacts [H|H] He.
        -- injection H as <- <-. exists (exact :: es). simpl. auto.
        -- exists exacts. simpl. auto.
    + split.
      * destruct IH1 as (exacts & H & He). exists exacts. simpl. auto.
      * intros f e exacts [H|H] He.
        -- injection H as <- <-. exists es. simpl. auto.
        -- destruct (IH2 _ _ _ H He) as (exacts' & H' & He').
           exists exacts'. simpl. auto.
Qed.

Lemma in_group (scores : list (Q * Q)) (exact float : Q) :
  In (exact, float) scores ->
  exists exacts, In (float, exacts) (group scores) /\ In exact exacts.
Proof.
  induction scores as [|[e f] scores IH]; [intros []|].
  intros [H|H]; cbn [group fold_right fst snd].
  - injection H as -> ->. apply in_add_to.
  - destruct (IH H) as (exacts & Hg & He).
    exact (proj2 (in_add_to e f (group scores)) _ _ _ Hg He).
Qed.

Lemma grid_all (A : Type) (f : Q -> Q -> A) (P : Q -> Q -> A -> bool) :
  grid f P = true ->
  forall kr p d ki n dd,
    (kr <= 17)%nat -> (p <= 7)%nat -> (ki <= 13)%nat ->
    P (receipt_score kr p d) (invoice_score ki n dd)
      (f (receipt_score64 kr p d) (invoice_score64 ki n dd)) = true.
Proof.
  unfold grid. intros H kr p d ki n dd Hkr Hp Hki.
  rewrite forallb_forall in H.
  assert (Ir : In (receipt_score kr p d, receipt_score64 kr p d)
                 receipt_grid).
  { unfold receipt_grid. apply in_flat_map. exists kr.
    split; [apply in_seq; lia|].
    apply in_flat_map. exists p. split; [apply in_seq; lia|].
    apply (in_map (fun d => (receipt_score kr p d, receipt_score64 kr p d))).
    apply in_bools. }
  assert (Ii : In (invoice_score ki n dd, invoice_score64 ki n dd)
                 invoice_grid).
  { unfold invoice_grid. apply in_flat_map. exists ki.
    split; [apply in_seq; lia|].
    apply in_flat_map. exists n. split; [apply in_bools|].
    apply (in_map (fun dd => (invoice_score ki n dd,
                              invoice_score64 ki n dd))).
    apply in_bools. }
  apply in_group in Ir as (res & Ir & Hre).
  apply in_group in Ii as (ies & Ii & Hie).
  specialize (H _ Ir). rewrite forallb_forall in H.
  specialize (H _ Ii). cbn [fst snd] in H.
  rewrite forallb_forall in H. specialize (H _ Hre).
  rewrite forallb_forall in H. exact (H _ Hie).
Qed.

Lemma answer64_eq (r i : Q) : answer64 r i = (classify64 r i, both64 r i).
Proof.
  unfold answer64, classify64, both64.
  destruct (TextProcessor64.confidences r i) as [[rc ic]|]; reflexivity.
Qed.

(** From seven prices on the price part is 2, in both arithmetics. *)
Lemma price_part_cap (p : nat) :
  (7 <= p)%nat -> Qmin (of_nat p / 3) 2 = 2.
Proof.
  intros H. unfold Qmin, GenericMinMax.gmin.
  replace (of_nat p / 3 ?= 2) with Gt; [reflexivity|].
  symmetry. apply Qgt_alt. unfold of_nat, Qlt, Qdiv, Qmult, Qinv, inject_Z.
  cbn [Qnum Qden]. change (1 * 3)%positive with 3%positive. lia.
Qed.

Lemma price_part64_cap (p : nat) :
  (7 <= p)%nat -> Binary64.py_min (Binary64.div_int (Z.of_nat p) 3) 2 = 2.
Proof.
  intros H. unfold Binary64.py_min.
  replace (Qle_bool (Binary64.div_int (Z.of_nat p) 3) 2) with false;
    [reflexivity|].
  symmetry. apply not_true_iff_false. intros Hle.
  apply Qle_bool_iff in Hle.
  destruct (Nat.lt_ge_cases p 12) as [Hlt|Hge].
  - assert (Hp : (p = 7 \/ p = 8 \/ p = 9 \/ p = 10 \/ p = 11)%nat) by lia.
    destruct Hp as [Hp|[Hp|[Hp|[Hp|Hp]]]]; subst p; vm_compute in Hle;
      apply Hle; reflexivity.
  - unfold Binary64.div_int, Binary64.round, Qdiv, Qmult, Qinv, inject_Z
      in Hle.
    cbn [Qnum Qden] in Hle. rewrite Z.mul_1_r in Hle.
    destruct (Z.of_nat p) as [|n|n] eqn:E; try lia.
    assert (H4 : (4 <= Binary64.round_pos n (1 * 3))%Q).
    { apply round_pos_from_4. change (Z.pos (1 * 3)) with 3%Z. lia. }
    lra.
Qed.

Lemma receipt_score_cap (k p : nat) (d : bool) :
  receipt_score k p d = receipt_score k (Nat.min p 7) d
  /\ receipt_score64 k p d = receipt_score64 k (Nat.min p 7) d.
Proof.
  destruct (Nat.le_gt_cases p 7) as [H|H].
  - rewrite Nat.min_l by exact H. split; reflexivity.
  - rewrite Nat.min_r by lia. unfold receipt_score, receipt_score64.
    rewrite (@price_part_cap p), (@price_part64_cap p) by lia.
    split; reflexivity.
Qed.

(** What holds of the scores of every combination of the grid holds of the
    scores of every text. *)
Lemma scores_on_grid (A : Type) (f : Q -> Q -> A)
    (P : Q -> Q -> A -> bool) :
  grid f P = true ->
  forall t : str,
    P (_calculate_receipt_score t) (_calculate_invoice_score t)
      (f (TextProcessor64._calculate_receipt_score t)
         (TextProcessor64._calculate_invoice_score t)) = true.
Proof.
  intros H t.
  pose proof (keyword_matches_le receipt_keywords t) as Hkr.
  pose proof (keyword_matches_le invoice_keywords t) as Hki.
  change (length receipt_keywords) with 17%nat in Hkr.
  change (length invoice_keywords) with 13%nat in Hki.
  pose proof (@grid_all A f P H (keyword_matches receipt_keywords t)
                (Nat.min (price_matches t) 7)
                (search receipt_date_pattern t)
                (keyword_matches invoice_keywords t)
                (search invoice_num_pattern t)
                (search invoice_date_pattern t)
                Hkr (Nat.le_min_r _ _) Hki) as G.
  destruct (receipt_score_cap (keyword_matches receipt_keywords t)
              (price_matches t) (search receipt_date_pattern t))
    as [E E64].
  rewrite <- E, <- E64 in G. exact G.
Qed.

Lemma grid_sound : grid answer64 sound = true.
Proof.
  vm_cast_no_check (eq_refl true).
Qed.

Lemma text_sound (t : str) :
  agree (classify (_calculate_receipt_score t) (_calculate_invoice_score t))
        (classify64 (TextProcessor64._calculate_receipt_score t)
                    (TextProcessor64._calculate_invoice_score t)) = true
  /\ both64 (TextProcessor64._calculate_receipt_score t)
            (TextProcessor64._calculate_invoice_score t) = false
  /\ in_range (classify64 (TextProcessor64._calculate_receipt_score t)
                          (TextProcessor64._calculate_invoice_score t))
     = true.
Proof.
  pose proof (scores_on_grid answer64 sound grid_sound t) as H.
  rewrite answer64_eq in H. unfold sound in H. cbn [fst snd] in H.
  apply andb_true_iff in H as [H H3].
  apply andb_true_iff in H as [H1 H2].
  apply negb_true_iff in H2. repeat split; assumption.
Qed.

(** On the scores of the grid and on their sums and quotients, the
    arithmetic of [Binary64] is that of the Standard Library's
    specification of IEEE 754 binary64. *)
Lemma arithmetic_is_ieee754 :
  IEEE754.same_scores = true /\ IEEE754.same_confidences = true.
Proof.
  split; vm_cast_no_check (eq_refl true).
Qed.

Lemma same_type_eq (a b : doc_type) : same_type a b = true -> a = b.
Proof.
  destruct a, b; simpl; congruence.
Qed.

Lemma qualifies64_iff (score confidence : Q) :
  TextProcessor64.qualifies score confidence = true
  <-> 2 <= score /\ TextProcessor64.six_tenths < confidence.
Proof.
  unfold TextProcessor64.qualifies.
  rewrite andb_true_iff, Qle_bool_iff, Qltb_iff. tauto.
Qed.

(** The guarded divisions of the binary64 classifier never raise. *)
Lemma confidences64_total (r i : Q) :
  exists rc ic, TextProcessor64.confidences r i = Some (rc, ic).
Proof.
  unfold TextProcessor64.confidences, TextProcessor64.truediv.
  destruct (Qltb 0 (Binary64.add r i)) eqn:E; [|eauto].
  apply Qltb_iff in E.
  destruct (Qeq_bool (Binary64.add r i) 0) eqn:Z; [|eauto].
  apply Qeq_bool_iff in Z. lra.
Qed.

Lemma classify64_total (text : str) :
  exists ty c, TextProcessor64.classify_document text = Some (ty, c).
Proof.
  unfold TextProcessor64.classify_document.
  destruct (confidences64_total
              (TextProcessor64._calculate_receipt_score (lower text))
              (TextProcessor64._calculate_invoice_score (lower text)))
    as (rc & ic & ->).
  destruct (TextProcessor64.decision _ _ rc ic) as [ty c]. eauto.
Qed.

End GridFacts.

(** ** [re.search] and the shapes of the patterns *)

Module SearchFacts.
Import PyStr Re ReSpec ReFacts TextProcessor PatternSpec PriceFacts CleanFacts.

(** [re.search] succeeds exactly when the pattern matches somewhere. *)
Lemma search_from_iff (r : regex) (s : str) :
  forall prev,
    search_from r prev s = true
    <-> exists pre m rest,
          s = pre ++ m ++ rest /\ matches r (prev_after prev pre) m rest.
Proof.
  induction s as [|c s IH]; intros prev.
  - cbn [search_from].
    destruct (match_here r prev []) as [[rest cs]|] eqn:E.
    + split; [intros _|reflexivity].
      apply match_here_sound in E as (m & Hs & M).
      exists [], m, rest. auto.
    + split; [discriminate|].
      intros (pre & m & rest & Hs & M).
      destruct pre; [|discriminate]. simpl in Hs, M. rewrite Hs in E.
      exfalso. exact (match_here_complete E M).
  - cbn [search_from].
    destruct (match_here r prev (c :: s)) as [[rest cs]|] eqn:E.
    + split; [intros _|reflexivity].
      apply match_here_sound in E as (m & Hs & M).
      exists [], m, rest. auto.
    + rewrite IH. split.
      * intros (pre & m & rest & Hs & M).
        exists (c :: pre), m, rest. simpl. rewrite Hs. auto.
      * intros (pre & m & rest & Hs & M).
        destruct pre as [|c' pre].
        -- simpl in Hs, M. rewrite Hs in E.
           exfalso. exact (match_here_complete E M).
        -- simpl in Hs. injection Hs as <- Hs.
           exists pre, m, rest. auto.
Qed.

Lemma search_iff (r : regex) (s : str) :
  search r s = true
  <-> exists pre m rest,
        s = pre ++ m ++ rest /\ matches r (prev_after None pre) m rest.
Proof.
  apply search_from_iff.
Qed.

Lemma occurs_inside (shape : str -> Prop) (pre m rest : str) :
  occurs shape m -> occurs shape (pre ++ m ++ rest).
Proof.
  intros (pre' & m' & rest' & -> & H).
  exists (pre ++ pre'), m', (rest' ++ rest).
  rewrite <- !app_assoc. auto.
Qed.

(** The search for a pattern whose matches contain a text of a shape, and
    which matches every text of that shape, finds the shape. *)
Lemma search_occurs (r : regex) (shape : str -> Prop) :
  (forall prev m rest, matches r prev m rest -> occurs shape m) ->
  (forall prev m rest, shape m -> matches r prev m rest) ->
  forall text, search r text = true <-> occurs shape text.
Proof.
  intros Hto Hfrom text. rewrite search_iff. split.
  - intros (pre & m & rest & -> & M).
    apply occurs_inside. exact (Hto _ _ _ M).
  - intros (pre & m & rest & -> & H).
    exists pre, m, rest. auto.
Qed.

(** *** Literal words under [re.IGNORECASE] *)

Lemma matches_LitI (word : str) :
  forall prev m rest, matches (LitI word) prev m rest <-> lower m = word.
Proof.
  induction word as [|c word IH]; intros prev m rest.
  - simpl. split.
    + intros M. inversion M. reflexivity.
    + intros H. destruct m; [constructor|discriminate].
  - destruct word as [|c2 word].
    + simpl. unfold ChrI. split.
      * intros M. inversion M as [|? x ? ? P| | | | | | | |]; subst.
        simpl. apply chr_eqb_eq in P. rewrite <- P. reflexivity.
      * intros H. destruct m as [|x [|y m]]; try discriminate.
        simpl in H. injection H as H. constructor. rewrite H.
        apply Ascii.eqb_refl.
    + change (LitI (c :: c2 :: word))
        with (Seq (ChrI c) (LitI (c2 :: word))).
      unfold ChrI. split.
      * intros M. inversion M as [| | |? ? ? m1 m2 ? M1 M2| | | | | |]; subst.
        inversion M1 as [|? x ? ? P| | | | | | | |]; subst.
        apply IH in M2. simpl. rewrite M2.
        apply chr_eqb_eq in P. rewrite <- P. reflexivity.
      * intros H. destruct m as [|x m]; [discriminate|].
        simpl in H. injection H as Hx Hm.
        change (x :: m) with ([x] ++ m). constructor.
        -- constructor. rewrite Hx. apply Ascii.eqb_refl.
        -- apply IH. exact Hm.
Qed.

(** *** The date pattern *)

Lemma digits_1_2 (run : str) :
  forallb is_digit run = true -> 1 <= length run -> length run <= 2 ->
  exists init a, run = init ++ [a] /\ is_digit a = true.
Proof.
  destruct run as [|a [|b [|c run]]]; simpl; intros H ? ?; try lia.
  - exists [], a. rewrite andb_true_r in H. auto.
  - exists [a], b. apply andb_true_iff in H as [_ H].
    rewrite andb_true_r in H. auto.
Qed.

Lemma date_parts (r1 : str) (s1 : ascii) (r2 : str) (s2 : ascii) (r3 : str) :
  forallb is_digit r1 = true -> 1 <= length r1 <= 2 ->
  is_date_sep s1 = true ->
  forallb is_digit r2 = true -> 1 <= length r2 <= 2 ->
  is_date_sep s2 = true ->
  forallb is_digit r3 = true -> 2 <= length r3 ->
  occurs date_shape (r1 ++ [s1] ++ r2 ++ [s2] ++ r3).
Proof.
  intros H1 [L1 L1'] S1 H2 L2 S2 H3 L3.
  destruct (@digits_1_2 r1 H1 L1 L1') as (init & a & -> & Da).
  destruct (@two_digits r3 H3 L3) as (c & d & t & -> & Dc & Dd).
  exists init, (a :: s1 :: r2 ++ [s2; c; d]), t. split.
  - rewrite <- !app_assoc. simpl. rewrite <- !app_assoc. reflexivity.
  - exists a, s1, r2, s2, c, d. repeat split; auto; lia.
Qed.

Lemma matches_date (prev : option ascii) (m rest : str) :
  matches receipt_date_pattern prev m rest -> occurs date_shape m.
Proof.
  unfold receipt_date_pattern. intros M. inv_matches.
  repeat match goal with
         | H : within _ (Some _) |- _ => simpl in H
         end.
  apply date_parts; auto.
Qed.

Lemma date_matches (prev : option ascii) (m rest : str) :
  date_shape m -> matches receipt_date_pattern prev m rest.
Proof.
  intros (a & s1 & mid & s2 & c & d & -> & Da & S1 & Hm & [L1 L2] & S2
          & Dc & Dd).
  unfold receipt_date_pattern.
  change (a :: s1 :: mid ++ [s2; c; d])
    with ([a] ++ [s1] ++ mid ++ [s2] ++ [c; d]).
  repeat (apply M_Seq || apply M_Cls || apply M_Rep);
    simpl; rewrite ?Da, ?Dc, ?Dd; try reflexivity; try assumption; lia.
Qed.

(** *** The invoice patterns *)

Lemma invoice_number_parts (inv o x w1 h w2 ds : str) :
  lower inv = L "inv" ->
  forallb is_oice o = true ->
  forallb not_alnum x = true -> length x <= 1 ->
  forallb is_space w1 = true ->
  forallb (chr_eqb "#") h = true -> length h <= 1 ->
  forallb is_space w2 = true ->
  forallb is_digit ds = true -> 1 <= length ds ->
  occurs invoice_number_shape (inv ++ o ++ x ++ w1 ++ h ++ w2 ++ ds).
Proof.
  intros Hinv Ho Hx Lx Hw1 Hh Lh Hw2 Hd Ld.
  destruct ds as [|d ds']; [simpl in Ld; lia|].
  exists [], (inv ++ o ++ x ++ w1 ++ h ++ w2 ++ [d]), ds'. split.
  - simpl. rewrite <- !app_assoc. reflexivity.
  - exists inv, o, x, w1, h, w2, d. repeat split; auto.
    + destruct x as [|c [|c' x]]; simpl in *; try lia; [auto|].
      right. exists c. rewrite andb_true_r in Hx. auto.
    + destruct h as [|c [|c' h]]; simpl in *; try lia; [auto|].
      right. rewrite andb_true_r in Hh.
      apply (chr_eqb_eq "#"%char) in Hh. subst c. reflexivity.
    + simpl in Hd. apply andb_true_iff in Hd as [Hd _]. exact Hd.
Qed.

Lemma matches_invoice_number (prev : option ascii) (m rest : str) :
  matches invoice_num_pattern prev m rest -> occurs invoice_number_shape m.
Proof.
  unfold invoice_num_pattern, Star, Plus, Opt.
  intros M.
  inversion M as [| | |? ? ? inv m' ? Minv M'| | | | | |]; subst; clear M.
  apply (matches_LitI (L "inv")) in Minv.
  inv_matches.
  repeat match goal with
         | H : within _ (Some _) |- _ => simpl in H
         end.
  apply invoice_number_parts; auto.
Qed.

Lemma invoice_number_matches (prev : option ascii) (m rest : str) :
  invoice_number_shape m -> matches invoice_num_pattern prev m rest.
Proof.
  intros (inv & o & x & w1 & h & w2 & d & -> & Hinv & Ho & Hx & Hw1 & Hh
          & Hw2 & Hd).
  unfold invoice_num_pattern, Star, Plus, Opt.
  constructor; [apply (matches_LitI (L "inv")); exact Hinv|].
  assert (Lx : forallb not_alnum x = true /\ length x <= 1).
  { destruct Hx as [-> | (c & -> & Hc)]; simpl; [auto|].
    rewrite Hc. auto. }
  assert (Lh : forallb (chr_eqb "#") h = true /\ length h <= 1).
  { destruct Hh as [-> | ->]; simpl; auto. }
  repeat (apply M_Seq || apply M_Cls || apply M_Rep);
    simpl; rewrite ?Hd; try reflexivity; try assumption; try tauto; lia.
Qed.

Lemma matches_due_date (prev : option ascii) (m rest : str) :
  matches invoice_date_pattern prev m rest <-> due_date_shape m.
Proof.
  unfold invoice_date_pattern, Plus. split.
  - intros M.
    inversion M as [| | | |? ? ? ? ? M'|? ? ? ? ? M'| | | |]; subst; clear M;
      inversion M' as [| | |? ? ? w1 m' ? M1 M2| | | | | |]; subst; clear M';
      inversion M2 as [| | |? ? ? ws w2 ? M3 M4| | | | | |]; subst; clear M2;
      inversion M3 as [| |? ? ? ? ? ? Hw Lw _| | | | | | |]; subst; clear M3;
      first [apply (matches_LitI (L "due")) in M1
            |apply (matches_LitI (L "payment")) in M1];
      first [apply (matches_LitI (L "date")) in M4
            |apply (matches_LitI (L "due")) in M4];
      exists w1, ws, w2; repeat split; auto;
      destruct ws; simpl in Lw; try lia; discriminate.
  - intros (w1 & ws & w2 & -> & Hne & Hws & [[H1 H2] | [H1 H2]]).
    + apply M_AltL. constructor; [apply (matches_LitI (L "due")); exact H1|].
      constructor; [|apply (matches_LitI (L "date")); exact H2].
      constructor; auto; simpl; [|exact I].
      destruct ws; [congruence|simpl; lia].
    + apply M_AltR.
      constructor; [apply (matches_LitI (L "payment")); exact H1|].
      constructor; [|apply (matches_LitI (L "due")); exact H2].
      constructor; auto; simpl; [|exact I].
      destruct ws; [congruence|simpl; lia].
Qed.

End SearchFacts.

(** ** Greedy repetition and runs of newlines *)

Module FormatFacts.
Import PyStr Re ReSpec ReFacts ReceiptFormatting.

Lemma leading_split (p : ascii -> bool) (s : str) :
  s = firstn (leading p s) s ++ dropwhile p s.
Proof.
  induction s as [|c s IH]; simpl; [reflexivity|].
  destruct (p c); simpl; [f_equal; exact IH|reflexivity].
Qed.

Lemma leading_dropwhile (p : ascii -> bool) (s : str) :
  leading p (dropwhile p s) = 0.
Proof.
  induction s as [|c s IH]; simpl; [reflexivity|].
  destruct (p c) eqn:E; [exact IH|]. simpl. rewrite E. reflexivity.
Qed.

Lemma length_leading (p : ascii -> bool) (s : str) :
  length (firstn (leading p s) s) = leading p s.
Proof.
  induction s as [|c s IH]; simpl; [reflexivity|].
  destruct (p c); simpl; [f_equal; exact IH|reflexivity].
Qed.

(** With a continuation that always succeeds, the greedy repetition takes
    the whole run of the class and nothing less. *)
Lemma rep_greedy_total (p : ascii -> bool)
    (k : option ascii -> str -> option result) (s : str) :
  (forall prev' s', k prev' s' <> None) ->
  forall lo prev,
    rep p lo None prev s k
    = if lo <=? leading p s
      then k (prev_after prev (firstn (leading p s) s)) (dropwhile p s)
      else None.
Proof.
  intros Hk. induction s as [|c s IH]; intros lo prev.
  - simpl. destruct lo; reflexivity.
  - cbn [rep leading dropwhile]. rewrite andb_true_r.
    destruct (p c) eqn:Pc.
    + cbn [option_map]. rewrite IH. cbn [firstn prev_after].
      destruct lo as [|lo]; cbn [Nat.pred Nat.leb Nat.eqb].
      * destruct (k (prev_after (Some c) (firstn (leading p s) s))
                    (dropwhile p s)) eqn:E; [reflexivity|].
        exfalso. exact (Hk _ _ E).
      * destruct (lo <=? leading p s) eqn:L; [|reflexivity].
        destruct (k (prev_after (Some c) (firstn (leading p s) s))
                    (dropwhile p s)) eqn:E; [reflexivity|].
        exfalso. exact (Hk _ _ E).
    + destruct lo; reflexivity.
Qed.

Lemma match_newlines (prev : option ascii) (s : str) :
  match_here newlines_pattern prev s
  = if 3 <=? leading is_nl s then Some (dropwhile is_nl s, []) else None.
Proof.
  unfold match_here, newlines_pattern. cbn [rmatch].
  rewrite rep_greedy_total by discriminate. reflexivity.
Qed.

Lemma no_triple_cons (c : ascii) (s : str) :
  no_triple_newline (c :: s)
  = (if is_nl c then leading is_nl s <? 2 else true) && no_triple_newline s.
Proof.
  cbn [no_triple_newline]. f_equal. unfold is_nl.
  destruct (chr_eqb NL c); [|reflexivity]. cbn [andb].
  destruct s as [|c2 [|c3 s]]; cbn [leading]; unfold is_nl.
  - reflexivity.
  - destruct (chr_eqb NL c2); reflexivity.
  - destruct (chr_eqb NL c2); [|reflexivity].
    destruct (chr_eqb NL c3); reflexivity.
Qed.

(** Replacing runs of three or more newlines by two leaves no three
    newlines in a row, and at most two at the head. *)
Lemma collapse_newlines (n : nat) :
  forall (s : str) prev,
    length s <= n ->
    let out := sub_from newlines_pattern [Text [NL; NL]] prev s 0 in
    no_triple_newline out = true
    /\ leading is_nl out = Nat.min (leading is_nl s) 2.
Proof.
  induction n as [|n IH]; intros s prev Hn.
  - destruct s; [split; reflexivity|simpl in Hn; lia].
  - destruct s as [|c s]; [split; reflexivity|].
    destruct (3 <=? leading is_nl (c :: s)) eqn:L.
    + pose proof (match_newlines prev (c :: s)) as M. rewrite L in M.
      apply Nat.leb_le in L.
      pose proof (leading_split is_nl (c :: s)) as E.
      pose proof (length_leading is_nl (c :: s)) as Hlen.
      pose proof (leading_dropwhile is_nl (c :: s)) as Hrest.
      cbv zeta.
      set (k := leading is_nl (c :: s)) in *.
      set (run := firstn k (c :: s)) in *.
      set (rest := dropwhile is_nl (c :: s)) in *.
      clearbody run rest. clearbody k.
      rewrite E in M, Hn |- *.
      assert (Hne : run <> []) by (intros ->; simpl in Hlen; lia).
      erewrite sub_hit by eassumption.
      destruct (IH rest (prev_after prev run)) as [H1 H2].
      { rewrite length_app in Hn. lia. }
      rewrite Hrest in H2. cbn [Nat.min] in H2.
      change (expand [Text [NL; NL]] []) with [NL; NL]. cbn [app].
      rewrite !no_triple_cons. cbn [leading].
      change (is_nl NL) with true. cbv iota. rewrite H2, H1.
      split; [reflexivity|]. lia.
    + pose proof (match_newlines prev (c :: s)) as M. rewrite L in M.
      cbv zeta. cbn [sub_from]. rewrite M.
      destruct (IH s (Some c)) as [H1 H2]; [simpl in Hn; lia|].
      rewrite no_triple_cons, H1, andb_true_r.
      apply Nat.leb_gt in L. cbn [leading] in L |- *.
      destruct (is_nl c); [|auto].
      rewrite H2. split; [apply Nat.ltb_lt|]; lia.
Qed.

End FormatFacts.

(** ** Paths and documents *)

Module DocumentFacts.
Import PyStr World TextProcessor Documents DocumentSpec.

(** *** [rfind] *)

Lemma rfind_without (c : ascii) (p : str) :
  without c p = true -> rfind c p = None.
Proof.
  unfold without. induction p as [|x p IH]; simpl; [reflexivity|].
  intros H. apply andb_true_iff in H as [Hx Hp].
  rewrite (IH Hp). apply negb_true_iff in Hx. rewrite Hx. reflexivity.
Qed.

Lemma rfind_app_without (c : ascii) (a b : str) :
  without c b = true -> rfind c (a ++ b) = rfind c a.
Proof.
  intros H. induction a as [|x a IH]; simpl.
  - rewrite (@rfind_without c b H). reflexivity.
  - rewrite IH. reflexivity.
Qed.

Lemma rfind_last (c : ascii) (a b : str) :
  without c b = true -> rfind c (a ++ c :: b) = Some (length a).
Proof.
  intros H. induction a as [|x a IH]; simpl.
  - rewrite (@rfind_without c b H). unfold chr_eqb.
    rewrite Ascii.eqb_refl. reflexivity.
  - rewrite IH. reflexivity.
Qed.

Lemma rfind_bound (c : ascii) (p : str) (i : nat) :
  rfind c p = Some i -> i < length p.
Proof.
  revert i. induction p as [|x p IH]; simpl; intros i; [discriminate|].
  destruct (rfind c p) as [j|].
  - intros H. injection H as <-. specialize (IH j eq_refl). lia.
  - destruct (chr_eqb c x); [|discriminate].
    intros H. injection H as <-. lia.
Qed.

(** *** The loop that skips leading dots *)

Lemma has_name_app (b : str) :
  forall a c,
    has_name (a ++ b ++ c) (length a) (length b)
    = negb (only_dots b).
Proof.
  unfold only_dots. induction b as [|x b IH]; intros a c; [reflexivity|].
  cbn [length has_name app forallb].
  rewrite nth_error_app2 by lia. rewrite Nat.sub_diag. cbn [nth_error].
  destruct (chr_eqb DOT x); cbn [negb andb]; [|reflexivity].
  specialize (IH (a ++ [x]) c).
  rewrite <- app_assoc, length_app in IH. cbn [app length] in IH.
  rewrite Nat.add_1_r in IH. exact IH.
Qed.

(** *** [splitext] on a directory, a name and an extension *)

Lemma sep_index (dir rest : str) :
  dir_part dir -> without SEP rest = true ->
  index (rfind SEP (dir ++ rest)) = (Z.of_nat (length dir) - 1)%Z.
Proof.
  intros [-> | [d ->]] H.
  - simpl. rewrite (@rfind_without SEP rest H). reflexivity.
  - rewrite <- app_assoc. cbn [app]. rewrite (@rfind_last SEP d rest H).
    rewrite length_app. cbn [index length]. lia.
Qed.

Lemma without_app (c : ascii) (a b : str) :
  without c (a ++ b) = without c a && without c b.
Proof.
  apply forallb_app.
Qed.

Lemma splitext_named (dir name ext : str) :
  dir_part dir -> without SEP name = true -> only_dots name = false ->
  without SEP ext = true -> without DOT ext = true ->
  splitext (dir ++ name ++ DOT :: ext) = (dir ++ name, DOT :: ext).
Proof.
  intros Hdir Hname Hdots Hsep Hdot. unfold splitext.
  assert (Es : index (rfind SEP (dir ++ name ++ DOT :: ext))
               = (Z.of_nat (length dir) - 1)%Z).
  { apply sep_index; [assumption|].
    rewrite without_app, Hname. simpl. exact Hsep. }
  rewrite Es. clear Es.
  rewrite app_assoc, (@rfind_last DOT (dir ++ name) ext Hdot), length_app.
  cbn [index].
  destruct (Z.ltb_spec (Z.of_nat (length dir) - 1)
              (Z.of_nat (length dir + length name))) as [_|H]; [|lia].
  replace (Z.to_nat (Z.of_nat (length dir) - 1 + 1)) with (length dir) by lia.
  replace (Z.to_nat (Z.of_nat (length dir + length name)
                     - (Z.of_nat (length dir) - 1 + 1)))
    with (length name) by lia.
  rewrite <- app_assoc, has_name_app, Hdots. cbn [negb].
  rewrite Nat2Z.id, app_assoc, <- length_app.
  rewrite firstn_app, firstn_all, Nat.sub_diag, firstn_O, app_nil_r.
  rewrite skipn_app, skipn_all, Nat.sub_diag. reflexivity.
Qed.

Lemma only_dots_without (s : str) :
  only_dots s = true -> without SEP s = true.
Proof.
  unfold only_dots, without.
  induction s as [|x s IH]; cbn [forallb]; [reflexivity|].
  intros H. apply andb_true_iff in H as [Hx Hs].
  apply (PriceFacts.chr_eqb_eq DOT) in Hx. subst x. rewrite (IH Hs).
  reflexivity.
Qed.

Lemma only_dots_last (dots : str) :
  only_dots dots = true -> dots <> [] ->
  exists init, dots = init ++ [DOT] /\ only_dots init = true.
Proof.
  unfold only_dots. intros H Hne.
  destruct (exists_last Hne) as (init & x & ->).
  rewrite forallb_app in H. apply andb_true_iff in H as [Hi Hx].
  cbn [forallb] in Hx. rewrite andb_true_r in Hx.
  apply (PriceFacts.chr_eqb_eq DOT) in Hx. subst x. eauto.
Qed.

Lemma splitext_plain (dir dots base : str) :
  dir_part dir -> only_dots dots = true ->
  without SEP base = true -> without DOT base = true ->
  splitext (dir ++ dots ++ base) = (dir ++ dots ++ base, []).
Proof.
  intros Hdir Hdots Hsep Hdot. unfold splitext.
  assert (Es : index (rfind SEP (dir ++ dots ++ base))
               = (Z.of_nat (length dir) - 1)%Z).
  { apply sep_index; [assumption|].
    rewrite without_app, (@only_dots_without dots Hdots). exact Hsep. }
  rewrite Es. clear Es.
  destruct dots as [|x dots'].
  - cbn [app]. rewrite (@rfind_app_without DOT dir base Hdot).
    destruct Hdir as [-> | [d ->]].
    + reflexivity.
    + destruct (rfind DOT (d ++ [SEP])) as [i|] eqn:E.
      * change [SEP] with ([] ++ [SEP]) in E.
        rewrite rfind_app_without in E by reflexivity.
        apply rfind_bound in E. rewrite length_app. cbn [index length].
        destruct (Z.ltb_spec (Z.of_nat (length d + 1) - 1) (Z.of_nat i));
          [lia|reflexivity].
      * cbn [index]. rewrite length_app. cbn [length].
        destruct (Z.ltb_spec (Z.of_nat (length d + 1) - 1) (-1));
          [lia|reflexivity].
  - destruct (@only_dots_last (x :: dots') Hdots) as (init & E & Hinit);
      [discriminate|].
    rewrite E, <- !app_assoc. cbn [app].
    rewrite (app_assoc dir init), (@rfind_last DOT (dir ++ init) base Hdot),
      length_app.
    cbn [index].
    destruct (Z.ltb_spec (Z.of_nat (length dir) - 1)
                (Z.of_nat (length dir + length init))) as [_|H]; [|lia].
    replace (Z.to_nat (Z.of_nat (length dir) - 1 + 1)) with (length dir)
      by lia.
    replace (Z.to_nat (Z.of_nat (length dir + length init)
                       - (Z.of_nat (length dir) - 1 + 1)))
      with (length init) by lia.
    rewrite <- app_assoc, has_name_app, Hinit. reflexivity.
Qed.

(** *** The dict of [process_image] *)

Lemma to_dict_no_text (fs : pdf_services) (r : ImageProcessor.response) :
  lookup (L "text") (to_dict fs r) = None.
Proof.
  unfold to_dict.
  destruct (ImageProcessor.structured_data r), (ImageProcessor.error r);
    reflexivity.
Qed.

(** *** Comparing strings *)

Lemma str_eqb_eq (a b : str) : str_eqb a b = true <-> a = b.
Proof.
  unfold str_eqb. revert b.
  induction a as [|x a IH]; intros [|y b]; cbn [length startswith];
    try (split; [intros H; apply andb_true_iff in H as [H1 H2];
                 try discriminate; reflexivity
                |discriminate || reflexivity]).
  change (S (length a) =? S (length b)) with (length a =? length b).
  split.
  - intros H. apply andb_true_iff in H as [H1 H2].
    apply andb_true_iff in H2 as [H2 H3].
    apply PriceFacts.chr_eqb_eq in H2. subst y. f_equal.
    apply IH. rewrite H1, H3. reflexivity.
  - intros H. injection H as <- <-.
    destruct (IH a) as [_ H]. specialize (H eq_refl).
    apply andb_true_iff in H as [H1 H2]. rewrite H1, H2.
    unfold chr_eqb. rewrite Ascii.eqb_refl. reflexivity.
Qed.

(** *** The loop of [process_folder] *)

Lemma printed_lines_app (a b : list output) :
  printed_lines (a ++ b) = printed_lines a ++ printed_lines b.
Proof.
  apply flat_map_app.
Qed.

(** The [except] clause prints the error line of the file after what was
    done, or raises what its [print] raised. *)
Lemma handle_cases (gs : folder_services) (f : str) (done : list output)
    (e : str) :
  handle gs f done e = (done ++ [Printed (error_line f e)], Ok tt)
  \/ exists e', handle gs f done e = (done, Raise e')
                /\ print gs (error_line f e) = Raise e'.
Proof.
  unfold handle. destruct (print gs (error_line f e)) as [u|e'].
  - left. reflexivity.
  - right. exists e'. split; reflexivity.
Qed.

(** One regular file: either the run goes on after exactly one line about
    the file, or it ends with what the [print] of the [except] clause
    raised and no line; a result is only written if [process_document]
    returned it. *)
Lemma process_entry_file (w : world) (fs : pdf_services)
    (gs : folder_services) (input_dir output_dir : str) (dpi : nat)
    (f : str) :
  isfile gs (path_join input_dir f) = true ->
  let entry := fst (process_entry w fs gs input_dir output_dir dpi f) in
  ((snd entry = Ok tt
    /\ exists line, printed_lines (fst entry) = [line] /\ reports f line)
   \/ (exists e e0, snd entry = Raise e
                    /\ print gs (error_line f e0) = Raise e
                    /\ printed_lines (fst entry) = []))
  /\ (forall path d,
        In (Written path d) (fst entry) ->
        fst (process_document w fs (path_join input_dir f) dpi) = Ok d
        /\ path = path_join output_dir (fst (splitext f) ++ L ".json")
        /\ (In (Printed (success_line f)) (fst entry)
            \/ exists e, print gs (success_line f) = Raise e)).
Proof.
  intros Hf. unfold process_entry. rewrite Hf.
  destruct (process_document w fs (path_join input_dir f) dpi)
    as [[d|e] l]; cbn [World.bind World.ret fst snd].
  - set (output_file := path_join output_dir (fst (splitext f) ++ L ".json")).
    destruct (open_w gs output_file) as [u|e]; cbn [fst snd].
    + destruct (json_dump gs output_file d) as [u'|e]; cbn [fst snd].
      * destruct (print gs (success_line f)) as [u''|e] eqn:P;
          cbn [fst snd].
        -- split.
           ++ left. split; [destruct u''; reflexivity|].
              exists (success_line f). split; [reflexivity|].
              left. reflexivity.
           ++ intros path d' [H|[H|[H|[]]]]; try discriminate.
              injection H as <- <-. split; [reflexivity|].
              split; [reflexivity|]. left. simpl. auto.
        -- destruct (handle_cases gs f
                       [Opened output_file; Written output_file d] e)
             as [->|(e' & -> & He')]; cbn [fst snd].
           ++ split.
              ** left. split; [reflexivity|].
                 exists (error_line f e). split; [reflexivity|].
                 right. exists e. reflexivity.
              ** intros path d' [H|[H|[H|[]]]]; try discriminate.
                 injection H as <- <-. split; [reflexivity|].
                 split; [reflexivity|]. right. exists e. reflexivity.
           ++ split.
              ** right. exists e', e. repeat split. exact He'.
              ** intros path d' [H|[H|[]]]; try discriminate.
                 injection H as <- <-. split; [reflexivity|].
                 split; [reflexivity|]. right. exists e. reflexivity.
      * destruct (handle_cases gs f [Opened output_file] e)
          as [->|(e' & -> & He')]; cbn [fst snd].
        -- split.
           ++ left. split; [reflexivity|].
              exists (error_line f e). split; [reflexivity|].
              right. exists e. reflexivity.
           ++ intros path d' [H|[H|[]]]; discriminate.
        -- split.
           ++ right. exists e', e. repeat split. exact He'.
           ++ intros path d' [H|[]]; discriminate.
    + destruct (handle_cases gs f [] e) as [->|(e' & -> & He')];
        cbn [fst snd].
      * split.
        -- left. split; [reflexivity|].
           exists (error_line f e). split; [reflexivity|].
           right. exists e. reflexivity.
        -- intros path d' [H|[]]; discriminate.
      * split.
        -- right. exists e', e. repeat split. exact He'.
        -- intros path d' [].
  - destruct (handle_cases gs f [] e) as [->|(e' & -> & He')];
      cbn [fst snd].
    + split.
      * left. split; [reflexivity|].
        exists (error_line f e). split; [reflexivity|].
        right. exists e. reflexivity.
      * intros path d' [H|[]]; discriminate.
    + split.
      * right. exists e', e. repeat split. exact He'.
      * intros path d' [].
Qed.

Lemma process_entry_other (w : world) (fs : pdf_services)
    (gs : folder_services) (input_dir output_dir : str) (dpi : nat)
    (f : str) :
  isfile gs (path_join input_dir f) = false ->
  fst (process_entry w fs gs input_dir output_dir dpi f) = ([], Ok tt).
Proof.
  intros Hf. unfold process_entry. rewrite Hf. reflexivity.
Qed.

Lemma process_entries_cons (w : world) (fs : pdf_services)
    (gs : folder_services) (input_dir output_dir : str) (dpi : nat)
    (f : str) (names : list str) :
  let entry := fst (process_entry w fs gs input_dir output_dir dpi f) in
  let rest := fst (process_entries w fs gs input_dir output_dir dpi names) in
  fst (process_entries w fs gs input_dir output_dir dpi (f :: names))
  = match snd entry with
    | Raise e => (fst entry, Raise e)
    | Ok _ => (fst entry ++ fst rest, snd rest)
    end.
Proof.
  cbn [process_entries].
  destruct (process_entry w fs gs input_dir output_dir dpi f)
    as [[out r] l].
  cbn [World.bind World.ret fst snd]. destruct r as [u|e]; [|reflexivity].
  destruct (process_entries w fs gs input_dir output_dir dpi names)
    as [[outs r'] l'].
  reflexivity.
Qed.

End DocumentFacts.

(** ** What the substitutions on prices put in and take out *)

Module EditFacts.
Import PyStr Re ReSpec TextProcessor CleanSpec EditSpec ReFacts StripFacts
  LineFacts.

(** A substitution keeps every relation between result and text that holds
    for each replacement and its match and goes through concatenation. *)
Lemma sub_related (R : str -> str -> Prop) (r : regex) (t : template) :
  R [] [] ->
  (forall c a b, R a b -> R (c :: a) (c :: b)) ->
  (forall a b a' b', R a b -> R a' b' -> R (a ++ a') (b ++ b')) ->
  (forall prev s rest cs,
     match_here r prev s = Some (rest, cs) ->
     matched s rest <> [] /\ R (expand t cs) (matched s rest)) ->
  forall s prev, R (sub_from r t prev s 0) s.
Proof.
  intros Hnil Hcons Happ Hm s.
  assert (H : forall n (s : str) prev,
             length s <= n -> R (sub_from r t prev s 0) s).
  { induction n as [|n IH]; intros u prev Hn.
    - destruct u; [exact Hnil|simpl in Hn; lia].
    - destruct u as [|c u]; [exact Hnil|].
      destruct (match_here r prev (c :: u)) as [[rest cs]|] eqn:E.
      + destruct (Hm _ _ _ _ E) as [Hne HR].
        destruct (match_here_sound _ _ _ E) as (m & Es & _).
        rewrite Es in *. rewrite matched_app in Hne, HR.
        rewrite (@sub_hit r t prev m rest cs Hne E).
        apply Happ; [exact HR|]. apply IH.
        destruct m as [|x m]; [congruence|].
        rewrite length_app in Hn. simpl in Hn. lia.
      + cbn [sub_from]. rewrite E. apply Hcons. apply IH.
        simpl in Hn. lia. }
  intros prev. apply (H (length s)). lia.
Qed.

(** *** The two price patterns *)

Lemma firstn_matched (m rest : str) :
  firstn (length (m ++ rest) - length rest) (m ++ rest) = m.
Proof.
  apply matched_app.
Qed.

Lemma decimal_spacing_match (prev : option ascii) (s rest : str)
    (cs : captures) :
  match_here decimal_spacing_pattern prev s = Some (rest, cs) ->
  exists ds ws1 ws2 d2,
    s = ds ++ ws1 ++ "."%char :: ws2 ++ d2 ++ rest
    /\ 1 <= length ds /\ all_space ws1 = true /\ all_space ws2 = true
    /\ forallb is_digit ds = true /\ forallb is_digit d2 = true
    /\ 2 <= length d2
    /\ expand decimal_template cs = ds ++ "."%char :: d2.
Proof.
  unfold match_here, decimal_spacing_pattern, Plus, Star, Times, Chr.
  cbn [rmatch]. intros H.
  apply rep_sound in H as (ds & r1 & -> & Hds & Hlo & _ & H).
  apply rep_sound in H as (ws1 & r2 & -> & Hw1 & _ & _ & H).
  destruct r2 as [|c r2]; [discriminate|].
  destruct (chr_eqb "." c) eqn:Ec; [|discriminate].
  apply PriceFacts.chr_eqb_eq in Ec. subst c.
  apply rep_sound in H as (ws2 & r3 & -> & Hw2 & _ & _ & H).
  apply rep_sound in H as (d2 & r4 & -> & Hd2 & Hl2 & _ & H).
  injection H as <- <-.
  exists ds, ws1, ws2, d2.
  repeat (split; [solve [auto]|]).
  unfold decimal_template. cbn [expand group Nat.eqb].
  rewrite (firstn_matched d2 r4), (firstn_matched ds).
  rewrite app_nil_r. reflexivity.
Qed.

Lemma missing_decimal_match (prev : option ascii) (s rest : str)
    (cs : captures) :
  match_here missing_decimal_pattern prev s = Some (rest, cs) ->
  exists ds ws d2,
    s = ds ++ ws ++ d2 ++ rest
    /\ 1 <= length ds /\ 1 <= length ws /\ all_space ws = true
    /\ forallb is_digit ds = true /\ forallb is_digit d2 = true
    /\ 2 <= length d2
    /\ expand decimal_template cs = ds ++ "."%char :: d2.
Proof.
  unfold match_here, missing_decimal_pattern, Plus, Star, Times, Chr.
  cbn [rmatch]. intros H.
  apply rep_sound in H as (ds & r1 & -> & Hds & Hlo & _ & H).
  apply rep_sound in H as (ws & r2 & -> & Hw & Hlo2 & _ & H).
  apply rep_sound in H as (d2 & r3 & -> & Hd2 & Hl2 & _ & H).
  assert (E : Some (r3, [(2, firstn (length (d2 ++ r3) - length r3)
                               (d2 ++ r3));
                         (1, firstn (length (ds ++ ws ++ d2 ++ r3)
                                     - length (ws ++ d2 ++ r3))
                               (ds ++ ws ++ d2 ++ r3))])
              = Some (rest, cs)).
  { destruct r3 as [|c r3].
    - cbn in H. exact H.
    - cbn [rmatch] in H. destruct (is_space c).
      + exact H.
      + destruct (at_end (c :: r3)); [exact H|discriminate]. }
  injection E as <- <-.
  exists ds, ws, d2.
  repeat (split; [solve [auto]|]).
  unfold decimal_template. cbn [expand group Nat.eqb].
  rewrite (firstn_matched d2 r3), (firstn_matched ds).
  rewrite app_nil_r. reflexivity.
Qed.

(** *** Whitespace and points *)

Lemma solids_app (a b : str) : solids (a ++ b) = solids a ++ solids b.
Proof.
  apply filter_app.
Qed.

Lemma solids_space (ws : str) : all_space ws = true -> solids ws = [].
Proof.
  induction ws as [|c ws IH]; [reflexivity|].
  cbn [all_space forallb]. intros H. apply andb_true_iff in H as [Hc Hw].
  unfold solids, solid. cbn [filter]. rewrite Hc. exact (IH Hw).
Qed.

Lemma strip_spaces (s : str) :
  exists pre suf,
    s = pre ++ strip s ++ suf
    /\ all_space pre = true /\ all_space suf = true.
Proof.
  unfold strip, rstrip.
  destruct (dropwhile_decomp is_space s) as [pre [E Hp]].
  destruct (dropwhile_decomp is_space (rev (lstrip s))) as [suf [E' Hs]].
  exists pre, (rev suf). split; [|split].
  - rewrite <- rev_app_distr, <- E', rev_involutive. exact E.
  - exact Hp.
  - unfold all_space. rewrite forallb_rev. exact Hs.
Qed.

Lemma solids_strip (s : str) : solids (strip s) = solids s.
Proof.
  destruct (strip_spaces s) as (pre & suf & E & Hp & Hs).
  rewrite E at 2. rewrite !solids_app, (solids_space _ Hp), (solids_space _ Hs).
  rewrite app_nil_r. reflexivity.
Qed.

Lemma length_strip (s : str) : length (strip s) <= length s.
Proof.
  destruct (strip_spaces s) as (pre & suf & E & _).
  rewrite E at 2. rewrite !length_app. lia.
Qed.

Lemma solids_strip_lines (s : str) : solids (strip_lines s) = solids s.
Proof.
  induction s as [a Ha|a b Ha IH] using lines_ind.
  - rewrite (strip_lines_line a Ha). apply solids_strip.
  - rewrite (strip_lines_app a b Ha).
    change (strip a ++ NL :: strip_lines b)
      with (strip a ++ [NL] ++ strip_lines b).
    change (a ++ NL :: b) with (a ++ [NL] ++ b).
    rewrite !solids_app, solids_strip, IH. reflexivity.
Qed.

Lemma length_strip_lines (s : str) : length (strip_lines s) <= length s.
Proof.
  induction s as [a Ha|a b Ha IH] using lines_ind.
  - rewrite (strip_lines_line a Ha). apply length_strip.
  - rewrite (strip_lines_app a b Ha). rewrite !length_app.
    cbn [length]. pose proof (length_strip a). lia.
Qed.

(** *** What a replacement changes *)

Lemma decimal_spacing_edit (prev : option ascii) (s rest : str)
    (cs : captures) :
  match_here decimal_spacing_pattern prev s = Some (rest, cs) ->
  matched s rest <> []
  /\ (solids (expand decimal_template cs) = solids (matched s rest)
      /\ length (expand decimal_template cs) <= length (matched s rest)).
Proof.
  intros H.
  apply decimal_spacing_match in H
    as (ds & ws1 & ws2 & d2 & -> & Hlen & Hw1 & Hw2 & _ & _ & _ & ->).
  replace (ds ++ ws1 ++ "."%char :: ws2 ++ d2 ++ rest)
    with ((ds ++ ws1 ++ "."%char :: ws2 ++ d2) ++ rest)
    by (rewrite <- !app_assoc; cbn [app]; rewrite <- !app_assoc;
        reflexivity).
  rewrite matched_app. split; [|split].
  - destruct ds; [simpl in Hlen; lia|discriminate].
  - change (ds ++ "."%char :: d2) with (ds ++ ["."%char] ++ d2).
    change (ds ++ ws1 ++ "."%char :: ws2 ++ d2)
      with (ds ++ ws1 ++ ["."%char] ++ ws2 ++ d2).
    rewrite !solids_app, (solids_space _ Hw1), (solids_space _ Hw2).
    reflexivity.
  - rewrite !length_app. cbn [length]. rewrite !length_app. lia.
Qed.

Lemma missing_decimal_edit (prev : option ascii) (s rest : str)
    (cs : captures) :
  match_here missing_decimal_pattern prev s = Some (rest, cs) ->
  matched s rest <> []
  /\ (solids (expand decimal_template cs) = solids (matched s rest)
      /\ length (expand decimal_template cs) <= length (matched s rest)).
Proof.
  intros H.
  apply missing_decimal_match in H
    as (ds & ws & d2 & -> & Hlen & Hlw & Hw & _ & _ & _ & ->).
  rewrite !app_assoc, matched_app, <- !app_assoc. split; [|split].
  - destruct ds; [simpl in Hlen; lia|discriminate].
  - change (ds ++ "."%char :: d2) with (ds ++ ["."%char] ++ d2).
    rewrite !solids_app, (solids_space _ Hw). reflexivity.
  - rewrite !length_app. cbn [length]. lia.
Qed.

Lemma sub_edit (r : regex) (t : template) :
  (forall prev s rest cs,
     match_here r prev s = Some (rest, cs) ->
     matched s rest <> []
     /\ (solids (expand t cs) = solids (matched s rest)
         /\ length (expand t cs) <= length (matched s rest))) ->
  forall s, solids (sub r t s) = solids s /\ length (sub r t s) <= length s.
Proof.
  intros H s. unfold sub.
  apply (@sub_related (fun a b => solids a = solids b /\ length a <= length b)
           r t).
  - split; [reflexivity|lia].
  - intros c a b [E Hl]. split.
    + unfold solids in *. cbn [filter]. rewrite E. reflexivity.
    + cbn [length]. lia.
  - intros a b a' b' [E Hl] [E' Hl']. split.
    + rewrite !solids_app, E, E'. reflexivity.
    + rewrite !length_app. lia.
  - exact H.
Qed.

Lemma fix_prices_edit (text : str) :
  solids (fix_prices text) = solids text
  /\ length (fix_prices text) <= length text.
Proof.
  unfold fix_prices.
  destruct (@sub_edit decimal_spacing_pattern decimal_template
              decimal_spacing_edit text) as [E1 L1].
  destruct (@sub_edit missing_decimal_pattern decimal_template
              missing_decimal_edit
              (sub decimal_spacing_pattern decimal_template text))
    as [E2 L2].
  split; [congruence|lia].
Qed.

End EditFacts.

(** ** Checks that the price substitutions keep *)

Module NeighbourFacts.
Import PyStr Re ReSpec TextProcessor LetterSpec CleanSpec Neighbours ReFacts
  EditFacts.

Section CheckFacts.
Variable k : ascii -> bool.
Variable p : bool -> ascii -> bool -> bool.

Lemma ahead_app (x y : str) (a : bool) :
  ahead k (x ++ y) a = ahead k x (ahead k y a).
Proof.
  destruct x; reflexivity.
Qed.

Lemma behind_app (x y : str) :
  forall b, behind k b (x ++ y) = behind k (behind k b x) y.
Proof.
  induction x as [|c x IH]; intros b; simpl; auto.
Qed.

Lemma behind_nonempty (x : str) (b b' : bool) :
  x <> [] -> behind k b x = behind k b' x.
Proof.
  destruct x; [congruence|reflexivity].
Qed.

Lemma ahead_nonempty (x : str) (a a' : bool) :
  x <> [] -> ahead k x a = ahead k x a'.
Proof.
  destruct x; [congruence|reflexivity].
Qed.

Lemma seg_app (x y : str) (a : bool) :
  forall b,
    seg k p b (x ++ y) a
    = seg k p b x (ahead k y a) && seg k p (behind k b x) y a.
Proof.
  induction x as [|c x IH]; intros b; [reflexivity|].
  cbn [app seg behind]. rewrite IH, ahead_app, andb_assoc. reflexivity.
Qed.

Lemma keeps_refl (s : str) : keeps k p s s.
Proof.
  repeat split; auto.
Qed.

Lemma keeps_app (a b a' b' : str) :
  keeps k p a b -> keeps k p a' b' -> keeps k p (a ++ a') (b ++ b').
Proof.
  intros (S1 & B1 & A1) (S2 & B2 & A2). split; [|split].
  - intros bb aa. rewrite !seg_app. intros H.
    apply andb_true_iff in H as [H1 H2].
    rewrite A2, B1. rewrite (S1 _ _ H1), (S2 _ _ H2). reflexivity.
  - intros bb. rewrite !behind_app, B1, B2. reflexivity.
  - intros aa. rewrite !ahead_app, A1, A2. reflexivity.
Qed.

Lemma keeps_cons (c : ascii) (a b : str) :
  keeps k p a b -> keeps k p (c :: a) (c :: b).
Proof.
  intros H. apply (keeps_app (keeps_refl [c]) H).
Qed.

(** A text of characters that pass the check between any neighbours. *)
Lemma seg_harmless (x : str) :
  (forall c, In c x -> forall b a, p b c a = true) ->
  forall b a, seg k p b x a = true.
Proof.
  induction x as [|c x IH]; intros H b a; [reflexivity|].
  cbn [seg]. rewrite (H c (or_introl eq_refl)).
  apply IH. intros c' Hc. apply H. right. exact Hc.
Qed.

(** A substitution keeps the check when each replacement does. *)
Lemma keeps_sub (r : regex) (t : template) :
  (forall prev s rest cs,
     match_here r prev s = Some (rest, cs) ->
     matched s rest <> [] /\ keeps k p (expand t cs) (matched s rest)) ->
  forall s, keeps k p (sub r t s) s.
Proof.
  intros H s. unfold sub.
  apply (@sub_related (keeps k p) r t).
  - apply keeps_refl.
  - intros c a b. apply keeps_cons.
  - intros a b a' b'. apply keeps_app.
  - exact H.
Qed.

End CheckFacts.

End NeighbourFacts.

(** ** The result of the normaliser *)

Module TidyFacts.
Import PyStr Re ReSpec TextProcessor LetterSpec CleanSpec Neighbours ReFacts
  StripFacts LineFacts CleanFacts EditFacts NeighbourFacts MoreFacts.

(** *** Digits and points pass both checks *)

Lemma digit_for_digit_id (c : ascii) : is_digit c = true -> digit_for c = c.
Proof.
  destruct c as [[] [] [] [] [] [] [] []]; try discriminate; reflexivity.
Qed.

Lemma price_char_letter_ok (c : ascii) :
  is_digit c = true \/ c = "."%char ->
  forall b a, letter_ok b c a = true.
Proof.
  intros H b a. unfold letter_ok.
  replace (chr_eqb (digit_for c) c) with true;
    [rewrite orb_true_r; reflexivity|].
  symmetry. destruct H as [H| ->].
  - rewrite (digit_for_digit_id c H). unfold chr_eqb. apply Ascii.eqb_refl.
  - reflexivity.
Qed.

Lemma price_char_space_ok (c : ascii) :
  is_digit c = true \/ c = "."%char ->
  forall b a, space_ok b c a = true.
Proof.
  intros H b a. unfold space_ok.
  replace (is_space c) with false; [reflexivity|].
  symmetry. destruct H as [H| ->]; [|reflexivity].
  destruct (is_space c) eqn:E; [|reflexivity].
  apply space_not_digit in E. congruence.
Qed.

Section Replacement.
Variable k : ascii -> bool.
Variable p : bool -> ascii -> bool -> bool.
Hypothesis price_char_ok :
  forall c, is_digit c = true \/ c = "."%char -> forall b a, p b c a = true.

(** The replacement [ds.d2] for [ds], something and [d2]. *)
Lemma keeps_price (ds mid d2 : str) :
  1 <= length ds -> 2 <= length d2 ->
  forallb is_digit ds = true -> forallb is_digit d2 = true ->
  keeps k p (ds ++ "."%char :: d2) (ds ++ mid ++ d2).
Proof.
  intros Hl1 Hl2 Hds Hd2.
  assert (N1 : ds <> []) by (destruct ds; [simpl in Hl1; lia|discriminate]).
  assert (N2 : d2 <> []) by (destruct d2; [simpl in Hl2; lia|discriminate]).
  split; [|split].
  - intros b a _. apply seg_harmless. intros c Hc.
    apply price_char_ok. rewrite forallb_forall in Hds, Hd2.
    apply in_app_or in Hc as [Hc|[Hc|Hc]]; auto.
  - intros b. change (ds ++ "."%char :: d2) with (ds ++ ["."%char] ++ d2).
    rewrite !behind_app. apply behind_nonempty, N2.
  - intros a. rewrite !ahead_app. apply ahead_nonempty, N1.
Qed.

Lemma decimal_spacing_keeps (prev : option ascii) (s rest : str)
    (cs : captures) :
  match_here decimal_spacing_pattern prev s = Some (rest, cs) ->
  matched s rest <> []
  /\ keeps k p (expand decimal_template cs) (matched s rest).
Proof.
  intros H.
  apply decimal_spacing_match in H
    as (ds & ws1 & ws2 & d2 & -> & Hl1 & _ & _ & Hds & Hd2 & Hl2 & ->).
  replace (ds ++ ws1 ++ "."%char :: ws2 ++ d2 ++ rest)
    with ((ds ++ (ws1 ++ "."%char :: ws2) ++ d2) ++ rest)
    by (rewrite <- !app_assoc; cbn [app]; rewrite <- ?app_assoc;
        reflexivity).
  rewrite matched_app. split.
  - destruct ds; [simpl in Hl1; lia|discriminate].
  - apply keeps_price; assumption.
Qed.

Lemma missing_decimal_keeps (prev : option ascii) (s rest : str)
    (cs : captures) :
  match_here missing_decimal_pattern prev s = Some (rest, cs) ->
  matched s rest <> []
  /\ keeps k p (expand decimal_template cs) (matched s rest).
Proof.
  intros H.
  apply missing_decimal_match in H
    as (ds & ws & d2 & -> & Hl1 & _ & _ & Hds & Hd2 & Hl2 & ->).
  rewrite !app_assoc, matched_app, <- !app_assoc. split.
  - destruct ds; [simpl in Hl1; lia|discriminate].
  - apply keeps_price; assumption.
Qed.

(** The price substitutions keep the check. *)
Lemma fix_prices_keeps (s : str) :
  seg k p false s false = true -> seg k p false (fix_prices s) false = true.
Proof.
  intros H. unfold fix_prices.
  apply (proj1 (@keeps_sub k p missing_decimal_pattern decimal_template
                  missing_decimal_keeps
                  (sub decimal_spacing_pattern decimal_template s))).
  apply (proj1 (@keeps_sub k p decimal_spacing_pattern decimal_template
                  decimal_spacing_keeps s)).
  exact H.
Qed.

End Replacement.

(** *** The letters *)

Lemma letters_seg (s : str) :
  forall wb,
    ctx_map fix_letter wb s = s <-> seg is_word letter_ok wb s false = true.
Proof.
  induction s as [|c s IH]; intros wb; [split; reflexivity|].
  cbn [ctx_map seg]. rewrite andb_true_iff, <- IH.
  change (ahead is_word s false) with (word_after s).
  assert (E : fix_letter wb c (word_after s) = c
              <-> letter_ok wb c (word_after s) = true).
  { unfold fix_letter, letter_ok.
    destruct wb, (word_after s); cbn [negb andb orb];
      try (split; reflexivity).
    split; intros H.
    - rewrite H. unfold chr_eqb. apply Ascii.eqb_refl.
    - apply PriceFacts.chr_eqb_eq, H. }
  rewrite <- E. split.
  - intros H. injection H as H1 H2. rewrite H1 at 1. auto.
  - intros [H1 H2]. rewrite H1, H2. reflexivity.
Qed.

(** *** The lines *)

Lemma seg_line (a : str) :
  nl_free a = true ->
  forall b aa,
    (b = false -> forall c t, a = c :: t -> is_space c = false) ->
    (aa = false -> forall init c, a = init ++ [c] -> is_space c = false) ->
    seg not_nl space_ok b a aa = true.
Proof.
  induction a as [|c a IH]; intros Hnl b aa Hb Ha; [reflexivity|].
  cbn [nl_free forallb] in Hnl. apply andb_true_iff in Hnl as [Hc Hnl].
  cbn [seg]. fold (not_nl c) in Hc. rewrite Hc. apply andb_true_iff. split.
  - unfold space_ok. rewrite Hc, andb_true_r.
    destruct (is_space c) eqn:Sc; [|reflexivity]. cbn [negb orb].
    destruct b; [|rewrite (Hb eq_refl c a eq_refl) in Sc; discriminate].
    destruct a as [|d a].
    + cbn [ahead]. destruct aa; [reflexivity|].
      rewrite (Ha eq_refl [] c eq_refl) in Sc. discriminate.
    + cbn [ahead]. cbn [nl_free forallb] in Hnl.
      apply andb_true_iff in Hnl as [Hd _]. exact Hd.
  - apply IH; [exact Hnl|discriminate|].
    intros E init c' H. apply (Ha E (c :: init) c'). rewrite H. reflexivity.
Qed.

Lemma seg_line_rstrip (a : str) :
  nl_free a = true ->
  forall b, seg not_nl space_ok b a false = true -> rstrip a = a.
Proof.
  induction a as [|c a IH]; intros Hnl b H; [reflexivity|].
  cbn [nl_free forallb] in Hnl. apply andb_true_iff in Hnl as [Hc Hnl].
  fold (not_nl c) in Hc.
  cbn [seg] in H. apply andb_true_iff in H as [H1 H2].
  pose proof (IH Hnl _ H2) as E. rewrite rstrip_cons.
  destruct (all_space a) eqn:Sa.
  - rewrite (rstrip_all_space _ Sa) in E. subst a.
    cbn [ahead] in H1. unfold space_ok in H1.
    rewrite Hc, andb_true_r, andb_false_r, orb_false_r in H1.
    apply negb_true_iff in H1. rewrite H1. reflexivity.
  - rewrite E. reflexivity.
Qed.

Lemma strip_seg (a : str) :
  nl_free a = true ->
  strip a = a <-> seg not_nl space_ok false a false = true.
Proof.
  intros Hnl. split.
  - intros E. apply seg_line; [exact Hnl| |]; intros _.
    + intros c t H. rewrite H in E. exact (@strip_first _ _ _ E).
    + intros init c H. rewrite H in E. exact (@strip_last _ _ _ E).
  - intros H. unfold strip.
    assert (El : lstrip a = a).
    { destruct a as [|c a]; [reflexivity|].
      cbn [nl_free forallb] in Hnl. apply andb_true_iff in Hnl as [Hc _].
      fold (not_nl c) in Hc.
      cbn [seg] in H. apply andb_true_iff in H as [H _].
      unfold space_ok in H.
      rewrite Hc, andb_true_r in H. cbn [andb] in H.
      rewrite orb_false_r in H. apply negb_true_iff in H.
      unfold lstrip. cbn [dropwhile]. rewrite H. reflexivity. }
    rewrite El. exact (seg_line_rstrip a Hnl false H).
Qed.

Lemma app_NL_inj (a a' b b' : str) :
  nl_free a = true -> nl_free a' = true ->
  a ++ NL :: b = a' ++ NL :: b' -> a = a' /\ b = b'.
Proof.
  revert a'. induction a as [|c a IH]; intros [|c' a'] Ha Ha' E.
  - injection E as <-. auto.
  - injection E as <- _. cbn [nl_free forallb] in Ha'.
    unfold chr_eqb in Ha'. rewrite Ascii.eqb_refl in Ha'. discriminate.
  - injection E as -> _. cbn [nl_free forallb] in Ha.
    unfold chr_eqb in Ha. rewrite Ascii.eqb_refl in Ha. discriminate.
  - injection E as <- E. cbn [nl_free forallb] in Ha, Ha'.
    apply andb_true_iff in Ha as [_ Ha].
    apply andb_true_iff in Ha' as [_ Ha'].
    destruct (IH a' Ha Ha' E) as [-> ->]. auto.
Qed.

Lemma lines_seg (s : str) :
  strip_lines s = s <-> seg not_nl space_ok false s false = true.
Proof.
  induction s as [a Ha|a b Ha IH] using lines_ind.
  - rewrite (strip_lines_line a Ha). apply strip_seg, Ha.
  - rewrite (strip_lines_app a b Ha).
    change (a ++ NL :: b) with (a ++ [NL] ++ b) at 2.
    rewrite !seg_app. cbn [ahead behind seg app].
    change (not_nl NL) with false. cbn [andb].
    assert (Enl : forall x y, space_ok x NL y = true) by reflexivity.
    rewrite Enl. cbn [andb].
    rewrite andb_true_iff, <- IH, <- (strip_seg a Ha). split.
    + intros E.
      apply app_NL_inj in E; [exact E| |exact Ha].
      apply nl_free_strip, Ha.
    + intros [E1 E2]. rewrite E1, E2. reflexivity.
Qed.

(** *** What [clean_text] returns *)

(** The result of [clean_text] has stripped lines and no letter left to
    replace. *)
Lemma clean_text_tidy (text : str) :
  strip_lines (clean_text text) = clean_text text
  /\ fix_letters (clean_text text) = clean_text text.
Proof.
  unfold clean_text. rewrite !LetterFacts.fix_letters_ctx_map.
  fold (rewrite_letters (strip_lines text)).
  set (u := rewrite_letters (strip_lines text)).
  assert (Hl : strip_lines u = u).
  { unfold u. rewrite rewrite_letters_strip_lines, strip_lines_idem.
    reflexivity. }
  assert (Hw : rewrite_letters u = u).
  { unfold u. apply rewrite_letters_idem. }
  split.
  - rewrite strip_strip_lines. f_equal.
    apply lines_seg.
    apply (@fix_prices_keeps not_nl space_ok price_char_space_ok).
    apply lines_seg, Hl.
  - fold (rewrite_letters (strip (fix_prices u))).
    rewrite rewrite_letters_strip. f_equal.
    apply letters_seg.
    apply (@fix_prices_keeps is_word letter_ok price_char_letter_ok).
    apply letters_seg, Hw.
Qed.

(** A second pass is the price substitutions and a strip, and changes
    nothing exactly when the price substitutions change nothing. *)
Lemma clean_text_again (text : str) :
  clean_text (clean_text text) = strip (fix_prices (clean_text text))
  /\ (clean_text (clean_text text) = clean_text text
      <-> fix_prices (clean_text text) = clean_text text).
Proof.
  destruct (clean_text_tidy text) as [Hl Hw].
  set (y := clean_text text) in *.
  assert (E : clean_text y = strip (fix_prices y)).
  { unfold clean_text at 1. rewrite Hl, Hw. reflexivity. }
  split; [exact E|]. rewrite E. split.
  - intros H.
    destruct (strip_spaces (fix_prices y)) as (pre & suf & Es & _).
    rewrite H in Es.
    pose proof (proj2 (fix_prices_edit y)) as Hlen.
    rewrite Es in Hlen at 1. rewrite !length_app in Hlen.
    destruct pre; [|simpl in Hlen; lia].
    destruct suf; [|simpl in Hlen; lia].
    rewrite Es, app_nil_r. reflexivity.
  - intros H. rewrite H. unfold y, clean_text. apply strip_idem.
Qed.

End TidyFacts.
(** * Main theorems *)

Import PyStr Re TextProcessor World Scenario ClassifierFacts.
Local Open Scope Q_scope.

(** C3. For every text the heuristic classifier returns (the guarded
    divisions never raise) and its confidence lies in [0,1]; when both
    scores are zero, as for the empty string, the result is
    [("other", 0)]. *)
Theorem classify_document_confidence_range :
  (forall text : str,
     exists ty c, classify_document text = Some (ty, c) /\ 0 <= c /\ c <= 1)
  /\ (forall text : str,
        _calculate_receipt_score (lower text) == 0 ->
        _calculate_invoice_score (lower text) == 0 ->
        classify_document text = Some (other, 0))
  /\ classify_document [] = Some (other, 0).
Proof.
  split; [|split].
  - intros text. unfold classify_document.
    set (r := _calculate_receipt_score (lower text)).
    set (i := _calculate_invoice_score (lower text)).
    assert (Hr : 0 <= r) by apply receipt_score_nonneg.
    assert (Hi : 0 <= i) by apply invoice_score_nonneg.
    destruct (confidences_cases r i) as [[Ht ->] | [_ ->]].
    + destruct (decision r i (r / (r + i)) (i / (r + i))) as [ty c] eqn:D.
      exists ty, c. split; [reflexivity|].
      change c with (snd (ty, c)). rewrite <- D.
      apply decision_confidence_range; apply ratio_range; lra.
    + destruct (decision r i 0 0) as [ty c] eqn:D.
      exists ty, c. split; [reflexivity|].
      change c with (snd (ty, c)). rewrite <- D.
      apply decision_confidence_range; lra.
  - intros text Hr Hi. unfold classify_document.
    destruct (confidences_cases (_calculate_receipt_score (lower text))
                (_calculate_invoice_score (lower text))) as [[Ht _] | [_ ->]].
    + lra.
    + unfold decision, qualifies.
      rewrite !andb_false_r. reflexivity.
  - reflexivity.
Qed.

Lemma classify_document_confidence_range_witness :
  classify_document [] = Some (other, 0).
Proof.
  apply (proj1 (proj2 classify_document_confidence_range) []);
    vm_compute; reflexivity.
Defined.



(** C9. The two confidences are always defined; when the total score is
    positive they add up to exactly one; so they are never both above 0.6,
    and the receipt and invoice branch conditions never hold together. *)
Theorem confidences_exclusive (r i : Q) :
  exists rc ic,
    confidences r i = Some (rc, ic)
    /\ (0 < r + i -> rc + ic == 1)
    /\ ~ (3#5 < rc /\ 3#5 < ic)
    /\ ~ (qualifies r rc = true /\ qualifies i ic = true).
Proof.
  destruct (confidences_cases r i) as [[Ht ->] | [Ht ->]].
  - exists (r / (r + i)), (i / (r + i)).
    pose proof (ratios_sum Ht) as Hsum.
    repeat split; [tauto|lra|].
    rewrite !qualifies_iff. lra.
  - exists 0, 0. repeat split; [tauto|lra|].
    rewrite !qualifies_iff. lra.
Qed.

Lemma confidences_exclusive_witness :
  exists rc ic,
    confidences (19#6) 0 = Some (rc, ic)
    /\ (0 < (19#6) + 0 -> rc + ic == 1)
    /\ ~ (3#5 < rc /\ 3#5 < ic)
    /\ ~ (qualifies (19#6) rc = true /\ qualifies 0 ic = true).
Proof.
  exact (confidences_exclusive (19#6) 0).
Defined.

(** C10. If the classifier answers "receipt" or "invoice" with confidence
    [c], then [c > 0.6] and the score of that category is at least 2; and
    when neither category meets both thresholds the answer is "other".
    Scores, confidences and the literal 0.6 are the binary64 numbers the
    interpreter computes, so the text "inv 1 1.00 2.00 3.00 4.00", whose
    invoice confidence is 0.6000000000000001, is answered "invoice". *)
Theorem classify_document_thresholds (text : str) (ty : doc_type) (c : Q) :
  let r := TextProcessor64._calculate_receipt_score (lower text) in
  let i := TextProcessor64._calculate_invoice_score (lower text) in
  TextProcessor64.classify_document text = Some (ty, c) ->
  (ty = receipt -> TextProcessor64.six_tenths < c /\ 2 <= r)
  /\ (ty = invoice -> TextProcessor64.six_tenths < c /\ 2 <= i)
  /\ (forall rc ic,
        TextProcessor64.confidences r i = Some (rc, ic) ->
        ~ (2 <= r /\ TextProcessor64.six_tenths < rc) ->
        ~ (2 <= i /\ TextProcessor64.six_tenths < ic) ->
        ty = other).
Proof.
  intros r i. unfold TextProcessor64.classify_document. fold r. fold i.
  destruct (TextProcessor64.confidences r i) as [[rc ic]|] eqn:E;
    [|discriminate].
  unfold TextProcessor64.decision.
  destruct (TextProcessor64.qualifies r rc) eqn:Qr;
    [|destruct (TextProcessor64.qualifies i ic) eqn:Qi];
    intros H; injection H as <- <-.
  - apply GridFacts.qualifies64_iff in Qr.
    split; [tauto|]. split; [discriminate|].
    intros rc' ic' H' Hn _. injection H' as <- <-. tauto.
  - apply GridFacts.qualifies64_iff in Qi.
    split; [discriminate|]. split; [tauto|].
    intros rc' ic' H' _ Hn. injection H' as <- <-. tauto.
  - split; [discriminate|]. split; [discriminate|]. reflexivity.
Qed.

Lemma classify_document_thresholds_witness :
  TextProcessor64.six_tenths < 1351079888211149 # 2251799813685248
  /\ 2 <= TextProcessor64._calculate_invoice_score
            (lower (L "inv 1 1.00 2.00 3.00 4.00")).
Proof.
  apply (proj1 (proj2 (@classify_document_thresholds
                         (L "inv 1 1.00 2.00 3.00 4.00") invoice
                         (1351079888211149 # 2251799813685248)
                         ltac:(vm_compute; reflexivity)))).
  reflexivity.
Defined.

(** C5. On the scenario text normalisation changes nothing; the lower-cased
    text contains three receipt keywords ("total", "store" and "cash"), two
    prices and a date, so the receipt score is [0.5*3 + min(2/3, 2) + 1],
    that is 19/6; the invoice score is 0 and the classifier answers
    "receipt" with confidence 1. *)
Theorem receipt_text_scenario :
  clean_text receipt_text = receipt_text
  /\ filter (fun keyword => contains keyword (lower receipt_text))
            receipt_keywords = [L "total"; L "store"; L "cash"]
  /\ keyword_matches receipt_keywords (lower receipt_text) = 3%nat
  /\ findall price_pattern (lower receipt_text) = [L "$12.99"; L "$12.99"]
  /\ search receipt_date_pattern (lower receipt_text) = true
  /\ _calculate_receipt_score (lower receipt_text)
     == (1#2) * 3 + Qmin (2 / 3) 2 + 1
  /\ _calculate_receipt_score (lower receipt_text) == 19#6
  /\ _calculate_invoice_score (lower receipt_text) == 0
  /\ exists c, classify_document receipt_text = Some (receipt, c) /\ c == 1.
Proof.
  repeat split; try (vm_compute; reflexivity).
  exists (228#228). split; vm_compute; reflexivity.
Qed.

(** The receipt score of the scenario text is not [0.5*2 + min(2/3, 2) + 1],
    nor 2.67 to two decimal places. *)
Lemma receipt_text_score_is_not_8_3 :
  ~ (clean_text receipt_text = receipt_text
     /\ _calculate_receipt_score (lower receipt_text)
        == (1#2) * 2 + Qmin (2 / 3) 2 + 1
     /\ _calculate_invoice_score (lower receipt_text) == 0
     /\ exists c, classify_document receipt_text = Some (receipt, c) /\ c == 1)
  /\ ~ ((267#100) - (1#200) <= _calculate_receipt_score (lower receipt_text)
        <= (267#100) + (1#200)).
Proof.
  split.
  - intros (_ & H & _). vm_compute in H. discriminate.
  - intros [_ H]. vm_compute in H. apply H. reflexivity.
Qed.

(** ** The pipeline *)

Section Pipeline.
Import AgentState.
Variable w : world.

#[local] Arguments L : simpl never.
#[local] Arguments clean_text : simpl never.

(** C7. A stage that receives a record with [error] set leaves
    [cleaned_text], [classification] and [structured_data] as they are, keeps
    an error on the record and calls no service; and when OCR fails, the
    classifier and the extractor are not entered and the final record has
    the OCR error and an empty [cleaned_text]. *)
Theorem error_is_terminal :
  (forall state, has_error state = true ->
     DocumentClassifier.classify_document w state = (state, [Enter classify]))
  /\ (forall state, has_error state = true ->
        let (state', log) := StructuredDataExtractor.extract_data w state in
        cleaned_text state' = cleaned_text state
        /\ classification state' = classification state
        /\ structured_data state' = structured_data state
        /\ has_error state' = true
        /\ log = [Enter extract])
  /\ (forall path e, ocr_engine w path = Raise e ->
        let (state, log) := OCRPipeline.process_image w path in
        log = [Enter ocr; CallOCR path]
        /\ error state = L "OCR processing failed: " ++ e
        /\ has_error state = true
        /\ cleaned_text state = []
        /\ classification state = JObj []
        /\ structured_data state = JObj [])
  /\ (forall path e, ocr_engine w path = Raise e ->
        exists result,
          OCRPipeline.process_document w path
          = (Ok result, [Enter ocr; CallOCR path; Enter classify])
          /\ OCRResult.error result = L "OCR processing failed: " ++ e
          /\ OCRResult.error result <> []
          /\ OCRResult.cleaned_text result = []
          /\ OCRResult.classification result = JObj []
          /\ OCRResult.structured_data result = JObj []).
Proof.
  split; [|split; [|split]].
  - intros state H. unfold DocumentClassifier.classify_document.
    rewrite H. reflexivity.
  - intros state H. unfold StructuredDataExtractor.extract_data.
    rewrite H. cbn. repeat split.
  - intros path e H.
    unfold OCRPipeline.process_image, OCRProcessor.process_image.
    cbn. rewrite H. cbn. repeat split.
  - intros path e H.
    unfold OCRPipeline.process_document, OCRPipeline.invoke,
      OCRProcessor.process_image.
    cbn. rewrite H. cbn.
    eexists. split; [reflexivity|]. cbn. repeat split. discriminate.
Qed.

(** C1. When the classification is "other", neither chat model is asked to
    extract anything and the record carries no structured data; but
    [OCRPipeline.process_image] enters the extractor stage, and it and
    [image_processor.process_image] finish with [error] set to the
    "not supported" message.  Only the graph of [process_document] skips the
    extractor stage and finishes without an error. *)
Theorem other_is_reported_unsupported :
  (forall path,
     let (state, log) := OCRPipeline.process_image w path in
     classified_other state = true ->
     existsb is_extraction log = false
     /\ existsb (is_enter extract) log = true
     /\ structured_data state = JObj []
     /\ error state = StructuredDataExtractor.not_supported)
  /\ (forall path r log,
        ImageProcessor.process_image w path = (Ok r, log) ->
        fst (ImageProcessor.classification r) = other ->
        existsb is_extraction log = false
        /\ ImageProcessor.structured_data r = None
        /\ ImageProcessor.error r
           = Some (ImageProcessor.not_supported (L "other")))
  /\ (forall path result log,
        OCRPipeline.process_document w path = (Ok result, log) ->
        other_type (OCRResult.classification result) = true ->
        existsb is_extraction log = false
        /\ existsb (is_enter extract) log = false
        /\ OCRResult.structured_data result = JObj []
        /\ OCRResult.error result = []).
Proof.
  split; [|split].
  - intros path.
    unfold OCRPipeline.process_image, OCRProcessor.process_image.
    cbn. destruct (ocr_engine w path) as [text|e]; cbn; [|discriminate].
    unfold DocumentClassifier.classify_document. cbn.
    destruct (classifier_model w (clean_text text)) as [j|e]; cbn;
      [|discriminate].
    unfold StructuredDataExtractor.extract_data, classified_other. cbn.
    destruct j as [| | | |items|fields]; cbn; try discriminate.
    destruct (lookup (L "type") fields) as [doc_type|] eqn:E; cbn.
    + destruct (is_str (L "other") doc_type) eqn:O; cbn.
      * intros _. repeat split.
      * destruct (extractor_model w (clean_text text) doc_type); cbn;
          rewrite E, O; discriminate.
    + rewrite E. discriminate.
  - intros path r log.
    unfold ImageProcessor.process_image. cbn.
    destruct (image_ocr w path) as [text|e]; cbn; [|discriminate].
    destruct (TextProcessor64.classify_document (clean_text text))
      as [[ty c]|]; cbn; [|discriminate].
    destruct ty; cbn.
    + destruct (receipt_model w (clean_text text)); cbn;
        intros H; injection H as <- <-; discriminate.
    + destruct (receipt_model w (clean_text text)); cbn;
        intros H; injection H as <- <-; discriminate.
    + intros H; injection H as <- <-. intros _. repeat split.
  - intros path result log.
    unfold OCRPipeline.process_document, OCRPipeline.invoke,
      OCRProcessor.process_image.
    cbn. destruct (ocr_engine w path) as [text|e]; cbn;
      [|intros H; injection H as <- <-; discriminate].
    unfold DocumentClassifier.classify_document. cbn.
    destruct (classifier_model w (clean_text text)) as [j|e]; cbn;
      [|intros H; injection H as <- <-; discriminate].
    unfold OCRPipeline.should_extract, other_type. cbn.
    destruct j as [| | | |items|fields]; cbn; try discriminate.
    destruct (lookup (L "type") fields) as [doc_type|] eqn:E; cbn.
    + destruct (is_str (L "other") doc_type) eqn:O; cbn.
      * intros H; injection H as <- <-. cbn. repeat split.
      * unfold StructuredDataExtractor.extract_data. cbn. rewrite ?E. cbn.
        rewrite ?O. cbn.
        destruct (extractor_model w (clean_text text) doc_type);
          cbn; intros H; injection H as <- <-; cbn; rewrite E, O;
          discriminate.
    + unfold StructuredDataExtractor.extract_data. cbn. rewrite ?E.
      cbn. intros H; injection H as <- <-. cbn. rewrite E. discriminate.
Qed.

End Pipeline.

Lemma error_is_terminal_witness :
  (let state := AgentState.set_error (L "OCR failed")
                  (AgentState.initial (L "scan.png")) in
   DocumentClassifier.classify_document memo_world state
   = (state, [Enter classify]))
  /\ (let (state, log) :=
        OCRPipeline.process_image unreadable_world (L "scan.png") in
      log = [Enter ocr; CallOCR (L "scan.png")]
      /\ AgentState.error state
         = L "OCR processing failed: " ++ L "cannot identify image file"
      /\ AgentState.has_error state = true
      /\ AgentState.cleaned_text state = []
      /\ AgentState.classification state = JObj []
      /\ AgentState.structured_data state = JObj []).
Proof.
  split.
  - apply (proj1 (error_is_terminal memo_world)). reflexivity.
  - apply (proj1 (proj2 (proj2 (error_is_terminal unreadable_world)))
             (L "scan.png") (L "cannot identify image file")).
    reflexivity.
Defined.

Lemma other_is_reported_unsupported_witness :
  existsb is_extraction (snd (OCRPipeline.process_image memo_world (L "memo.png")))
  = false
  /\ existsb (is_enter extract)
       (snd (OCRPipeline.process_image memo_world (L "memo.png"))) = true
  /\ AgentState.structured_data
       (fst (OCRPipeline.process_image memo_world (L "memo.png"))) = JObj []
  /\ AgentState.error
       (fst (OCRPipeline.process_image memo_world (L "memo.png")))
     = StructuredDataExtractor.not_supported.
Proof.
  exact (proj1 (other_is_reported_unsupported memo_world) (L "memo.png")
           eq_refl).
Defined.

(** In the memo world both [OCRPipeline.process_image] and
    [image_processor.process_image] classify the memo as "other" and finish
    with an error on the record; the former has entered the extractor. *)
Lemma other_ends_with_error :
  ~ (classified_other
       (fst (OCRPipeline.process_image memo_world (L "memo.png"))) = true ->
     existsb (is_enter extract)
       (snd (OCRPipeline.process_image memo_world (L "memo.png"))) = false
     /\ AgentState.structured_data
          (fst (OCRPipeline.process_image memo_world (L "memo.png"))) = JObj []
     /\ AgentState.error
          (fst (OCRPipeline.process_image memo_world (L "memo.png"))) = [])
  /\ exists r log,
       ImageProcessor.process_image memo_world (L "memo.png") = (Ok r, log)
       /\ fst (ImageProcessor.classification r) = other
       /\ ImageProcessor.error r <> None.
Proof.
  split.
  - intros H. destruct (H eq_refl) as (H1 & _). vm_compute in H1.
    discriminate.
  - eexists _, _. split; [vm_compute; reflexivity|].
    split; [reflexivity|discriminate].
Qed.

(** ** The normaliser and the price pattern *)

Import ReSpec ReFacts PriceFacts LetterSpec LetterFacts.
Import StripFacts LineFacts CleanSpec CleanFacts.

(** C8. The three letter substitutions keep the length of the text and
    change character by character: a character with no word character on
    either side becomes 1 if it is I, 0 if it is O, 8 if it is B; every
    other character, and every I, O or B with a word character next to it,
    stays as it is. *)
Theorem fix_letters_isolated_only (text : str) :
  length (fix_letters text) = length text
  /\ forall i c,
       nth_error text i = Some c ->
       nth_error (fix_letters text) i
       = Some (if isolated_at text i then digit_for c else c).
Proof.
  rewrite fix_letters_ctx_map. split; [apply length_ctx_map|].
  intros i c H. rewrite nth_error_ctx_map, H.
  unfold fix_letter, isolated_at, char_before.
  destruct i; reflexivity.
Qed.

Lemma fix_letters_isolated_only_witness :
  nth_error (fix_letters (L "I BOB O")) 0%nat = Some "1"%char
  /\ nth_error (fix_letters (L "I BOB O")) 3%nat = Some "O"%char.
Proof.
  split.
  - exact (proj2 (fix_letters_isolated_only (L "I BOB O")) 0%nat "I"%char eq_refl).
  - exact (proj2 (fix_letters_isolated_only (L "I BOB O")) 3%nat "O"%char eq_refl).
Defined.

(** C4. The price component is [min(n / 3, 2)], where [n] counts the texts
    made of an optional dollar sign, one or more digits, a point and two
    digits that are met when the text is read from left to right, each one
    taken where it starts and the reading going on after it; the receipt
    score is the keyword part plus this component plus the date part. *)
Theorem price_component_counts_price_shapes (text : str) :
  scan price_shape text (findall price_pattern text)
  /\ (forall ms, scan price_shape text ms -> ms = findall price_pattern text)
  /\ price_component text
     == Qmin (of_nat (length (findall price_pattern text)) / 3) 2
  /\ _calculate_receipt_score text
     == of_nat (keyword_matches receipt_keywords text) * (1#2)
        + price_component text
        + (if search receipt_date_pattern text then 1 else 0).
Proof.
  assert (S : scan price_shape text (findall price_pattern text)).
  { unfold findall. apply (findall_price_scan (n := length text)). lia. }
  split; [exact S|]. split; [|split].
  - intros ms H. exact (scan_price_unique H S).
  - reflexivity.
  - unfold _calculate_receipt_score.
    destruct (search receipt_date_pattern text); lra.
Qed.

Lemma price_component_counts_price_shapes_witness :
  [L "12.34"] = findall price_pattern (L "12.34").
Proof.
  apply (proj1 (proj2 (price_component_counts_price_shapes (L "12.34")))).
  change (L "12.34") with (L "12.34" ++ []).
  apply scan_hit; [|apply scan_end].
  exists (L "12"), "3"%char, "4"%char.
  repeat split; try reflexivity; try discriminate. left. reflexivity.
Defined.

(** A price without a currency sign is counted, and so is the start of an
    amount with three decimal digits. *)
Lemma price_pattern_counts_more :
  (contains (L "$") (L "12.34") = false
   /\ price_matches (L "12.34") = 1%nat
   /\ price_component (L "12.34") == 1#3)
  /\ findall price_pattern (L "$12.345") = [L "$12.34"].
Proof.
  repeat split; vm_compute; reflexivity.
Qed.

(** C2. Let [y] be what [clean_text] returns for a text.  Stripping the
    lines of [y] and the letter substitutions leave [y] as it is, so a
    second pass of [clean_text] is the two price substitutions and the
    final strip; and the second pass changes nothing exactly when the two
    price substitutions leave [y] unchanged.  That is so for every text in
    which no digit is followed at once by another digit. *)
Theorem clean_text_idempotent_iff (text : str) :
  let y := clean_text text in
  strip_lines y = y
  /\ fix_letters y = y
  /\ clean_text y = strip (fix_prices y)
  /\ (clean_text y = y <-> fix_prices y = y)
  /\ (no_adjacent_digits text = true -> clean_text y = y).
Proof.
  intros y.
  destruct (TidyFacts.clean_text_tidy text) as [Hl Hw].
  destruct (TidyFacts.clean_text_again text) as [E Hiff].
  fold y in Hl, Hw, E, Hiff.
  split; [exact Hl|]. split; [exact Hw|]. split; [exact E|].
  split; [exact Hiff|].
  intros H. apply Hiff. apply fix_prices_id.
  unfold y, clean_text. rewrite fix_letters_ctx_map.
  fold (rewrite_letters (strip_lines text)).
  set (u := rewrite_letters (strip_lines text)).
  assert (Hu : no_adjacent_digits u = true).
  { apply no_adjacent_ctx_map, no_adjacent_strip_lines, H. }
  rewrite (fix_prices_id u Hu). apply no_adjacent_strip, Hu.
Qed.

Lemma clean_text_idempotent_iff_witness :
  clean_text (clean_text (L "TOTAL 10  I paid 12 . 50 and 12 50"))
  = clean_text (L "TOTAL 10  I paid 12 . 50 and 12 50")
  /\ clean_text (clean_text receipt_text) = clean_text receipt_text
  /\ clean_text (clean_text (L "  I paid 5 . 7 for O B  "))
     = clean_text (L "  I paid 5 . 7 for O B  ").
Proof.
  split; [|split].
  - apply (proj2 (proj1 (proj2 (proj2 (proj2
             (clean_text_idempotent_iff
                (L "TOTAL 10  I paid 12 . 50 and 12 50"))))))).
    vm_compute. reflexivity.
  - apply (proj2 (proj1 (proj2 (proj2 (proj2
             (clean_text_idempotent_iff receipt_text)))))).
    vm_compute. reflexivity.
  - apply (proj2 (proj2 (proj2 (proj2
             (clean_text_idempotent_iff (L "  I paid 5 . 7 for O B  ")))))).
    reflexivity.
Defined.

(** Normalising "1 23 45" gives "1.23 45", and normalising that gives
    "1.23.45". *)
Lemma clean_text_not_idempotent :
  clean_text (L "1 23 45") = L "1.23 45"
  /\ clean_text (clean_text (L "1 23 45")) = L "1.23.45"
  /\ clean_text (clean_text (L "1 23 45")) <> clean_text (L "1 23 45").
Proof.
  repeat split; try (vm_compute; reflexivity).
  vm_compute. discriminate.
Qed.

(** * Further properties of the code *)

(** ** The normaliser *)

Import MoreFacts Scenario2.

(** X1. What [clean_text] returns neither starts nor ends with a whitespace
    character, and a text of whitespace only (the empty text too) is
    normalised to the empty text. *)
Theorem clean_text_outer_space (text : str) :
  (forall c rest, clean_text text = c :: rest -> is_space c = false)
  /\ (forall init c, clean_text text = init ++ [c] -> is_space c = false)
  /\ (all_space text = true -> clean_text text = []).
Proof.
  split; [|split].
  - intros c rest. unfold clean_text. apply strip_first.
  - intros init c. unfold clean_text. apply strip_last.
  - intros H. unfold clean_text. rewrite fix_letters_ctx_map.
    assert (Hs : all_space (ctx_map fix_letter false (strip_lines text))
                 = true).
    { rewrite all_space_ctx_map, all_space_strip_lines. exact H. }
    rewrite fix_prices_id by (apply all_space_no_adjacent, Hs).
    apply strip_all_space, Hs.
Qed.

Lemma clean_text_outer_space_witness :
  is_space "1"%char = false /\ clean_text (L "  	 ") = [].
Proof.
  split.
  - apply (proj1 (clean_text_outer_space (L " I owe "))
             "1"%char (L " owe")).
    reflexivity.
  - apply (proj2 (proj2 (clean_text_outer_space (L "  	 ")))).
    reflexivity.
Defined.

(** X2. The first step of [clean_text] keeps the lines of the text: the
    lines of its result are the lines of the text, each one stripped, in
    the same order and number. *)
Theorem strip_lines_keeps_lines (text : str) :
  split_nl (strip_lines text) = map strip (split_nl text)
  /\ length (split_nl (strip_lines text)) = length (split_nl text).
Proof.
  assert (E : split_nl (strip_lines text) = map strip (split_nl text)).
  { induction text as [a Ha|a b Ha IH] using lines_ind.
    - rewrite (strip_lines_line a Ha), (split_nl_line a Ha).
      apply split_nl_line, nl_free_strip, Ha.
    - rewrite (strip_lines_app a b Ha), (split_nl_app a b Ha).
      rewrite split_nl_app by (apply nl_free_strip, Ha).
      rewrite IH. reflexivity. }
  split; [exact E|]. rewrite E. apply length_map.
Qed.

(** X3. The letter substitutions are idempotent, and they change nothing
    in a text without the letters I, O and B. *)
Theorem fix_letters_idempotent (text : str) :
  fix_letters (fix_letters text) = fix_letters text
  /\ (forallb (fun c => negb (chr_eqb "I" c || chr_eqb "O" c || chr_eqb "B" c))
              text = true ->
      fix_letters text = text).
Proof.
  split.
  - rewrite !fix_letters_ctx_map. apply rewrite_letters_idem.
  - intros H. rewrite fix_letters_ctx_map. apply ctx_map_id.
    intros c Hc wb wa. rewrite forallb_forall in H. specialize (H c Hc).
    apply negb_true_iff in H. apply orb_false_iff in H as [H HB].
    apply orb_false_iff in H as [HI HO].
    unfold fix_letter, digit_for. rewrite HI, HO, HB.
    destruct (negb wb && negb wa); reflexivity.
Qed.

Lemma fix_letters_idempotent_witness :
  fix_letters (L "total 12.50 due") = L "total 12.50 due".
Proof.
  apply (proj2 (fix_letters_idempotent (L "total 12.50 due"))). reflexivity.
Defined.

(** X4. The two price substitutions change nothing in a text in which no
    digit is followed at once by another digit. *)
Theorem fix_prices_needs_two_digits (text : str) :
  no_adjacent_digits text = true -> fix_prices text = text.
Proof.
  apply fix_prices_id.
Qed.

Lemma fix_prices_needs_two_digits_witness :
  fix_prices (L "1 . 5 and 2 7") = L "1 . 5 and 2 7".
Proof.
  apply fix_prices_needs_two_digits. reflexivity.
Defined.

(** ** The scores *)

(** X5. The price part of the receipt score is a third of a point for each
    price found, up to six prices; from six prices on it is capped at 2. *)
Theorem price_component_cap (text : str) :
  ((price_matches text < 6)%nat ->
   price_component text == of_nat (price_matches text) / 3
   /\ price_component text < 2)
  /\ ((6 <= price_matches text)%nat -> price_component text == 2).
Proof.
  unfold price_component. split; intros H.
  - assert (Hlt : of_nat (price_matches text) / 3 < 2).
    { apply Qlt_shift_div_r; [reflexivity|].
      apply (of_nat_lt H). }
    rewrite Q.min_l by (apply Qlt_le_weak, Hlt).
    split; [reflexivity|exact Hlt].
  - apply Q.min_r. apply Qle_shift_div_l; [reflexivity|].
    apply (of_nat_le H).
Qed.

Lemma price_component_cap_witness :
  price_component (L "$1.00 $2.00") == of_nat 2 / 3
  /\ price_component (L "1.00 2.00 3.00 4.00 5.00 6.00 7.00") == 2.
Proof.
  split.
  - apply (proj1 (price_component_cap (L "$1.00 $2.00"))).
    vm_compute. lia.
  - apply (proj2 (price_component_cap
                    (L "1.00 2.00 3.00 4.00 5.00 6.00 7.00"))).
    vm_compute. lia.
Defined.

(** X6. The receipt score lies between 0 and 11.5 and the invoice score
    between 0 and 9.5, whatever the text. *)
Theorem score_bounds (text : str) :
  0 <= _calculate_receipt_score text <= 23#2
  /\ 0 <= _calculate_invoice_score text <= 19#2.
Proof.
  split; split.
  - apply receipt_score_nonneg.
  - unfold _calculate_receipt_score.
    pose proof (of_nat_le (keyword_matches_le receipt_keywords text)) as Hk.
    change (of_nat (length receipt_keywords)) with 17 in Hk.
    pose proof (price_component_range text) as [_ Hp].
    destruct (search receipt_date_pattern text); lra.
  - apply invoice_score_nonneg.
  - unfold _calculate_invoice_score.
    pose proof (of_nat_le (keyword_matches_le invoice_keywords text)) as Hk.
    change (of_nat (length invoice_keywords)) with 13 in Hk.
    destruct (search invoice_num_pattern text);
      destruct (search invoice_date_pattern text); lra.
Qed.

(** X7. A text whose receipt score is at least 2 and whose invoice score is
    zero is classified "receipt" with confidence 1, and the other way round
    for "invoice"; a text with both scores below 2 is classified "other". *)
Theorem classify_document_one_sided (text : str) :
  let r := _calculate_receipt_score (lower text) in
  let i := _calculate_invoice_score (lower text) in
  (2 <= r -> i == 0 ->
   exists c, classify_document text = Some (receipt, c) /\ c == 1)
  /\ (2 <= i -> r == 0 ->
      exists c, classify_document text = Some (invoice, c) /\ c == 1)
  /\ (r < 2 -> i < 2 ->
      exists c, classify_document text = Some (other, c)).
Proof.
  intros r i. unfold classify_document. fold r i. clearbody r i.
  split; [|split].
  - intros Hr Hi.
    destruct (confidences_cases r i) as [[Ht ->] | [Ht _]]; [|lra].
    assert (E : r / (r + i) == 1)
      by (rewrite Hi, Qplus_0_r; field; lra).
    unfold decision.
    rewrite (proj2 (qualifies_iff r (r / (r + i)))) by (split; lra).
    eexists. split; [reflexivity|exact E].
  - intros Hi Hr.
    destruct (confidences_cases r i) as [[Ht ->] | [Ht _]]; [|lra].
    assert (E : i / (r + i) == 1)
      by (rewrite Hr, Qplus_0_l; field; lra).
    unfold decision.
    destruct (qualifies r (r / (r + i))) eqn:Q.
    + apply qualifies_iff in Q. lra.
    + rewrite (proj2 (qualifies_iff i (i / (r + i)))) by (split; lra).
      eexists. split; [reflexivity|exact E].
  - intros Hr Hi.
    destruct (confidences_cases r i) as [[_ ->] | [_ ->]]; unfold decision.
    + destruct (qualifies r (r / (r + i))) eqn:Q1;
        [apply qualifies_iff in Q1; lra|].
      destruct (qualifies i (i / (r + i))) eqn:Q2;
        [apply qualifies_iff in Q2; lra|].
      eexists. reflexivity.
    + destruct (qualifies r 0) eqn:Q1; [apply qualifies_iff in Q1; lra|].
      destruct (qualifies i 0) eqn:Q2; [apply qualifies_iff in Q2; lra|].
      eexists. reflexivity.
Qed.

Lemma classify_document_one_sided_witness :
  (exists c, classify_document receipt_text = Some (receipt, c) /\ c == 1)
  /\ (exists c, classify_document (L "Invoice #42") = Some (invoice, c)
                /\ c == 1)
  /\ (exists c, classify_document memo_text = Some (other, c)).
Proof.
  split; [|split].
  - apply (proj1 (classify_document_one_sided receipt_text));
      vm_compute; congruence.
  - apply (proj1 (proj2 (classify_document_one_sided (L "Invoice #42"))));
      vm_compute; congruence.
  - apply (proj2 (proj2 (classify_document_one_sided memo_text)));
      vm_compute; congruence.
Defined.

(** X8. The confidence the classifier reports is 0 or at least one half:
    it is never strictly between 0 and 0.5. *)
Theorem classify_document_confidence_gap (text : str) (ty : doc_type) (c : Q) :
  classify_document text = Some (ty, c) -> c == 0 \/ 1#2 <= c.
Proof.
  unfold classify_document.
  set (r := _calculate_receipt_score (lower text)).
  set (i := _calculate_invoice_score (lower text)).
  destruct (confidences_cases r i) as [[Ht ->] | [_ ->]]; unfold decision.
  - pose proof (ratios_sum Ht) as Hsum.
    destruct (qualifies r (r / (r + i))) eqn:Q1.
    + apply qualifies_iff in Q1. intros H; injection H as _ <-. right. lra.
    + destruct (qualifies i (i / (r + i))) eqn:Q2.
      * apply qualifies_iff in Q2. intros H; injection H as _ <-.
        right. lra.
      * intros H; injection H as _ <-. right.
        destruct (Q.max_spec (r / (r + i)) (i / (r + i))) as [[? ->]|[? ->]];
          lra.
  - destruct (qualifies r 0); [|destruct (qualifies i 0)];
      intros H; injection H as _ <-; left; reflexivity.
Qed.

Lemma classify_document_confidence_gap_witness :
  228#228 == 0 \/ 1#2 <= 228#228.
Proof.
  apply (@classify_document_confidence_gap receipt_text receipt (228#228)).
  vm_compute. reflexivity.
Defined.

(** X21. [classify_document] ignores the case of letters: two texts that
    are equal once put in lower case get the same type and the same
    confidence, and so does a text and its lower-case form. *)
Theorem classify_document_ignores_case (a b : str) :
  (lower a = lower b -> classify_document a = classify_document b)
  /\ classify_document (lower a) = classify_document a.
Proof.
  split.
  - intros H. unfold classify_document. rewrite H. reflexivity.
  - unfold classify_document. rewrite lower_idem. reflexivity.
Qed.

Lemma classify_document_ignores_case_witness :
  classify_document (L "TOTAL Due 1.50") = classify_document (L "total due 1.50").
Proof.
  apply (proj1 (classify_document_ignores_case (L "TOTAL Due 1.50")
                  (L "total due 1.50"))).
  reflexivity.
Defined.

(** X22. Apart from whitespace and points, what [clean_text] returns has
    the characters of the text after the letter substitutions, in the same
    order: every other change it makes is to whitespace and points.  The
    result is never longer than the text. *)
Theorem clean_text_edits (text : str) :
  EditSpec.solids (clean_text text) = EditSpec.solids (fix_letters text)
  /\ (length (clean_text text) <= length text)%nat.
Proof.
  unfold clean_text.
  destruct (EditFacts.fix_prices_edit (fix_letters (strip_lines text)))
    as [E L].
  split.
  - rewrite EditFacts.solids_strip, E, !LetterFacts.fix_letters_ctx_map.
    change (ctx_map fix_letter false (strip_lines text))
      with (rewrite_letters (strip_lines text)).
    rewrite CleanFacts.rewrite_letters_strip_lines.
    apply EditFacts.solids_strip_lines.
  - pose proof (EditFacts.length_strip
                  (fix_prices (fix_letters (strip_lines text)))) as L1.
    pose proof (EditFacts.length_strip_lines text) as L2.
    rewrite LetterFacts.fix_letters_ctx_map in L at 2.
    rewrite LetterFacts.length_ctx_map in L. lia.
Qed.

(** X23. The classifier in exact rationals and the classifier in binary64
    answer every text with confidences that are within [2^-52] of each
    other, and with the same type unless the exact answer is "other" with
    confidence exactly 3/5.  The exception occurs: the text
    "inv 1 1.00 2.00 3.00 4.00" has exact confidence 3/5 and is "other" in
    exact rationals, while in binary64 its confidence is
    0.6000000000000001 and it is "invoice". *)
Theorem classifiers_agree :
  (forall text : str,
     exists ty c ty' c',
       classify_document text = Some (ty, c)
       /\ TextProcessor64.classify_document text = Some (ty', c')
       /\ (ty' = ty \/ (ty = other /\ c == 3#5))
       /\ c' - c <= 1 # 2 ^ 52 /\ c - c' <= 1 # 2 ^ 52)
  /\ (exists c,
        classify_document (L "inv 1 1.00 2.00 3.00 4.00") = Some (other, c)
        /\ c == 3#5)
  /\ TextProcessor64.classify_document (L "inv 1 1.00 2.00 3.00 4.00")
     = Some (invoice, 1351079888211149 # 2251799813685248).
Proof.
  split; [|split].
  - intros text.
    destruct (GridFacts.text_sound (lower text)) as (H & _ & _).
    change (ScoreGrid.classify (_calculate_receipt_score (lower text))
              (_calculate_invoice_score (lower text)))
      with (classify_document text) in H.
    change (ScoreGrid.classify64
              (TextProcessor64._calculate_receipt_score (lower text))
              (TextProcessor64._calculate_invoice_score (lower text)))
      with (TextProcessor64.classify_document text) in H.
    unfold ScoreGrid.agree in H.
    destruct (classify_document text) as [[ty c]|]; [|discriminate].
    destruct (TextProcessor64.classify_document text) as [[ty' c']|];
      [|discriminate].
    apply andb_true_iff in H as [H H3].
    apply andb_true_iff in H as [H1 H2].
    apply Qle_bool_iff in H2. apply Qle_bool_iff in H3.
    exists ty, c, ty', c'. repeat (split; [solve [auto]|]).
    split; [|split; assumption].
    apply orb_true_iff in H1 as [H1|H1].
    + left. symmetry. apply GridFacts.same_type_eq, H1.
    + right. apply andb_true_iff in H1 as [Ht Hc].
      split; [apply GridFacts.same_type_eq, Ht|].
      apply Qeq_bool_iff, Hc.
  - exists (48 # 80). split; vm_compute; reflexivity.
  - vm_compute. reflexivity.
Qed.

(** X24. In binary64 too the classifier answers every text (its guarded
    divisions never raise), with a confidence between 0 and 1 that is 0 or
    at least one half. *)
Theorem classify64_confidence (text : str) :
  exists ty c,
    TextProcessor64.classify_document text = Some (ty, c)
    /\ 0 <= c <= 1 /\ (c == 0 \/ 1#2 <= c).
Proof.
  destruct (GridFacts.text_sound (lower text)) as (_ & _ & H).
  change (ScoreGrid.classify64
            (TextProcessor64._calculate_receipt_score (lower text))
            (TextProcessor64._calculate_invoice_score (lower text)))
    with (TextProcessor64.classify_document text) in H.
  unfold ScoreGrid.in_range in H.
  destruct (TextProcessor64.classify_document text) as [[ty c]|];
    [|discriminate].
  apply andb_true_iff in H as [H H3].
  apply andb_true_iff in H as [H1 H2].
  apply Qle_bool_iff in H1. apply Qle_bool_iff in H2.
  exists ty, c. split; [reflexivity|]. split; [split; assumption|].
  apply orb_true_iff in H3 as [H3|H3].
  - left. apply Qeq_bool_iff, H3.
  - right. apply Qle_bool_iff, H3.
Qed.

(** ** The pipelines *)

Section MorePipeline.
Import AgentState.
Variable w : world.

#[local] Arguments L : simpl never.
#[local] Arguments clean_text : simpl never.

(** X9. A run of [OCRPipeline.process_image] ends in one of two ways: with
    an error on the record and no structured data, or without error after
    OCR, the classifier and the extractor all answered and the type was not
    "other", the record then holding their three answers.  Either way the
    record keeps the path it was given and its cleaned text is the
    normalisation of its raw text. *)
Theorem process_image_outcome (path : str) :
  let (state, log) := OCRPipeline.process_image w path in
  image_path state = path
  /\ cleaned_text state = clean_text (raw_text state)
  /\ ((has_error state = true /\ structured_data state = JObj [])
      \/ (has_error state = false
          /\ exists text j doc_type d,
               ocr_engine w path = Ok text
               /\ classifier_model w (clean_text text) = Ok j
               /\ getitem w j (L "type") = Ok doc_type
               /\ is_str (L "other") doc_type = false
               /\ extractor_model w (clean_text text) doc_type = Ok d
               /\ state = mk path text (clean_text text) j d [])).
Proof.
  unfold OCRPipeline.process_image, OCRProcessor.process_image.
  cbn. destruct (ocr_engine w path) as [text|e] eqn:E1; cbn;
    [|split; [|split]; auto].
  unfold DocumentClassifier.classify_document. cbn.
  destruct (classifier_model w (clean_text text)) as [j|e] eqn:E2; cbn;
    [|split; [|split]; auto].
  unfold StructuredDataExtractor.extract_data. cbn.
  destruct (getitem w j (L "type")) as [doc_type|e] eqn:E3; cbn;
    [|split; [|split]; auto].
  destruct (is_str (L "other") doc_type) eqn:E4; cbn;
    [split; [|split]; auto|].
  destruct (extractor_model w (clean_text text) doc_type) as [d|e] eqn:E5;
    cbn; (split; [|split]; auto).
  right. split; [reflexivity|]. exists text, j, doc_type, d. auto 7.
Qed.

(** X10. [OCRPipeline.process_image] calls each service at most once and in
    the order OCR, classifier, extractor; a service is only called after
    the ones before it were, and the two models are given the cleaned
    text. *)
Theorem process_image_calls (path : str) :
  let (state, log) := OCRPipeline.process_image w path in
  let text := cleaned_text state in
  log = [Enter ocr; CallOCR path]
  \/ log = [Enter ocr; CallOCR path; Enter classify; CallClassifier text]
  \/ log = [Enter ocr; CallOCR path; Enter classify; CallClassifier text;
            Enter extract]
  \/ exists doc_type,
       log = [Enter ocr; CallOCR path; Enter classify; CallClassifier text;
              Enter extract; CallExtractor text doc_type].
Proof.
  unfold OCRPipeline.process_image, OCRProcessor.process_image.
  cbn. destruct (ocr_engine w path) as [text|e]; cbn;
    [|left; reflexivity].
  unfold DocumentClassifier.classify_document. cbn.
  destruct (classifier_model w (clean_text text)) as [j|e]; cbn;
    [|right; left; reflexivity].
  unfold StructuredDataExtractor.extract_data. cbn.
  destruct (getitem w j (L "type")) as [doc_type|e]; cbn;
    [|right; right; left; reflexivity].
  destruct (is_str (L "other") doc_type); cbn;
    [right; right; left; reflexivity|].
  destruct (extractor_model w (clean_text text) doc_type); cbn;
    right; right; right; exists doc_type; reflexivity.
Qed.

(** X11. When the classifier's answer has no [type] (it is not an object,
    or an object without that key), [OCRPipeline.process_image] does not
    call the extractor model and reports "Data extraction failed: "
    followed by the text of the failed subscript. *)
Theorem process_image_missing_type (path text : str) (j : json) (e : str) :
  ocr_engine w path = Ok text ->
  classifier_model w (clean_text text) = Ok j ->
  getitem w j (L "type") = Raise e ->
  OCRPipeline.process_image w path
  = (mk path text (clean_text text) j (JObj [])
        (L "Data extraction failed: " ++ e),
     [Enter ocr; CallOCR path; Enter classify;
      CallClassifier (clean_text text); Enter extract]).
Proof.
  intros E1 E2 E3.
  unfold OCRPipeline.process_image, OCRProcessor.process_image.
  cbn. rewrite E1. cbn.
  unfold DocumentClassifier.classify_document. cbn. rewrite E2. cbn.
  unfold StructuredDataExtractor.extract_data. cbn. rewrite E3. reflexivity.
Qed.

(** X12. Whenever [process_document] returns a result, its raw text,
    cleaned text, classification and structured data are those of the
    record [OCRPipeline.process_image] returns for the same path, its
    [processing_info] is a processing time of 0, and its error is that of
    the record, except that for a classification "other" the record
    carries the "not supported" error, which the result does not. *)
Theorem graph_agrees_with_pipeline (path : str) (result : OCRResult.t)
    (log : list call) :
  OCRPipeline.process_document w path = (Ok result, log) ->
  let state := fst (OCRPipeline.process_image w path) in
  OCRResult.raw_text result = raw_text state
  /\ OCRResult.cleaned_text result = cleaned_text state
  /\ OCRResult.classification result = classification state
  /\ OCRResult.structured_data result = structured_data state
  /\ OCRResult.processing_info result
     = JObj [(L "processing_time", JNum 0)]
  /\ error state
     = if other_type (OCRResult.classification result)
       then StructuredDataExtractor.not_supported
       else OCRResult.error result.
Proof.
  unfold OCRPipeline.process_document, OCRPipeline.invoke,
    OCRPipeline.process_image, OCRProcessor.process_image.
  cbn. destruct (ocr_engine w path) as [text|e]; cbn;
    [|intros H; injection H as <- _; cbn; repeat split].
  unfold DocumentClassifier.classify_document. cbn.
  destruct (classifier_model w (clean_text text)) as [j|e]; cbn;
    [|intros H; injection H as <- _; cbn; repeat split].
  unfold OCRPipeline.should_extract, StructuredDataExtractor.extract_data,
    other_type. cbn.
  destruct j as [| | | |items|fields]; cbn; try discriminate.
  destruct (lookup (L "type") fields) as [doc_type|] eqn:E; cbn.
  - destruct (is_str (L "other") doc_type) eqn:O; cbn.
    + intros H; injection H as <- _. cbn. rewrite E, O. repeat split.
    + rewrite ?E. cbn. rewrite ?O. cbn.
      destruct (extractor_model w (clean_text text) doc_type); cbn;
        intros H; injection H as <- _; cbn; rewrite E, O; repeat split.
  - rewrite ?E. cbn. intros H; injection H as <- _. cbn. rewrite E.
    repeat split.
Qed.

(** X13. The graph of [process_document] raises exactly when OCR and the
    classifier answered and the answer is not an object; in that case
    [OCRPipeline.process_image] returns a record with a "Data extraction
    failed" error instead. *)
Theorem graph_raises_on_non_object (path : str) :
  (exists e, fst (OCRPipeline.process_document w path) = Raise e)
  <-> exists text j,
        ocr_engine w path = Ok text
        /\ classifier_model w (clean_text text) = Ok j
        /\ (forall fields, j <> JObj fields)
        /\ error (fst (OCRPipeline.process_image w path))
           = L "Data extraction failed: " ++ subscript_error w j (L "type").
Proof.
  unfold OCRPipeline.process_document, OCRPipeline.invoke,
    OCRPipeline.process_image, OCRProcessor.process_image.
  cbn. destruct (ocr_engine w path) as [text|e]; cbn;
    [|split; [intros [? ?]; discriminate
             |intros (? & ? & ? & _); congruence]].
  unfold DocumentClassifier.classify_document. cbn.
  destruct (classifier_model w (clean_text text)) as [j|e] eqn:Ec; cbn;
    [|split; [intros [? ?]; discriminate
             |intros (? & ? & E1 & ? & _); injection E1 as <-; congruence]].
  unfold OCRPipeline.should_extract, StructuredDataExtractor.extract_data.
  destruct j as [|b|q|s|items|fields]; cbn;
    try (split;
         [intros _; eexists text, _; split; [reflexivity|];
          split; [exact Ec|]; split; [intros; discriminate|reflexivity]
         |intros _; eexists; reflexivity]).
  split.
  - intros [e He]. exfalso.
    destruct (lookup (L "type") fields) as [doc_type|]; cbn in He.
    + destruct (is_str (L "other") doc_type); cbn in He; [discriminate|].
      destruct (extractor_model w (clean_text text) doc_type);
        discriminate.
    + discriminate.
  - intros (text' & j' & E1 & E2 & Hj & _). injection E1 as <-.
    rewrite Ec in E2. injection E2 as <-.
    exfalso. exact (Hj fields eq_refl).
Qed.

(** X14. [image_processor.process_image] raises only when reading the image
    or OCR raises.  Otherwise it returns a response with the raw text, its
    normalisation and the heuristic classification of the normalised text
    as binary64 arithmetic gives it, and with exactly one of
    [structured_data] and [error]; the receipt model is called exactly
    when the type is not "other". *)
Theorem image_response_shape (path : str) :
  (forall e, image_ocr w path = Raise e ->
             ImageProcessor.process_image w path = (Raise e, [CallOCR path]))
  /\ (forall text, image_ocr w path = Ok text ->
        exists r log,
          ImageProcessor.process_image w path = (Ok r, log)
          /\ ImageProcessor.raw_text r = text
          /\ ImageProcessor.cleaned_text r = clean_text text
          /\ TextProcessor64.classify_document (clean_text text)
             = Some (ImageProcessor.classification r)
          /\ ((exists d, ImageProcessor.structured_data r = Some d
                         /\ ImageProcessor.error r = None)
              \/ (exists e, ImageProcessor.structured_data r = None
                            /\ ImageProcessor.error r = Some e))
          /\ log = if match fst (ImageProcessor.classification r) with
                      | other => false
                      | _ => true
                      end
                   then [CallOCR path; CallReceiptModel (clean_text text)]
                   else [CallOCR path]).
Proof.
  split.
  - intros e H. unfold ImageProcessor.process_image. cbn. rewrite H.
    reflexivity.
  - intros text H. unfold ImageProcessor.process_image. cbn. rewrite H. cbn.
    destruct (GridFacts.classify64_total (clean_text text))
      as (ty & c & ->).
    destruct ty; cbn.
    + destruct (receipt_model w (clean_text text)) as [d|e]; cbn;
        eexists _, _; (split; [reflexivity|]); cbn; repeat split; eauto.
    + destruct (receipt_model w (clean_text text)) as [d|e]; cbn;
        eexists _, _; (split; [reflexivity|]); cbn; repeat split; eauto.
    + eexists _, _. split; [reflexivity|]. cbn. repeat split; eauto.
Qed.

End MorePipeline.

Lemma process_image_missing_type_witness :
  OCRPipeline.process_image no_type_world (L "memo.png")
  = (AgentState.mk (L "memo.png") memo_text (clean_text memo_text)
       (JObj [(L "kind", JStr (L "memo"))]) (JObj [])
       (L "Data extraction failed: " ++ L "type"),
     [Enter ocr; CallOCR (L "memo.png"); Enter classify;
      CallClassifier (clean_text memo_text); Enter extract]).
Proof.
  apply (@process_image_missing_type no_type_world (L "memo.png") memo_text
           (JObj [(L "kind", JStr (L "memo"))]) (L "type"));
    reflexivity.
Defined.

Lemma graph_agrees_with_pipeline_witness :
  AgentState.error
    (fst (OCRPipeline.process_image memo_world (L "memo.png")))
  = StructuredDataExtractor.not_supported.
Proof.
  exact (proj2 (proj2 (proj2 (proj2 (proj2
           (@graph_agrees_with_pipeline memo_world (L "memo.png")
              (OCRResult.mk memo_text (clean_text memo_text)
                 (JObj [(L "type", JStr (L "other"));
                        (L "confidence", JNum 0%Q)])
                 (JObj [(L "processing_time", JNum 0%Q)])
                 (JObj []) [])
              [Enter ocr; CallOCR (L "memo.png"); Enter classify;
               CallClassifier (clean_text memo_text)]
              eq_refl)))))).
Defined.

Lemma image_response_shape_witness :
  ImageProcessor.process_image unreadable_world (L "scan.png")
  = (Raise (L "Could not read image"), [CallOCR (L "scan.png")]).
Proof.
  apply (proj1 (image_response_shape unreadable_world (L "scan.png"))).
  reflexivity.
Defined.

Lemma graph_raises_on_non_object_witness :
  exists e,
    fst (OCRPipeline.process_document Scenario3.list_world (L "memo.png"))
    = Raise e.
Proof.
  apply (proj2 (graph_raises_on_non_object Scenario3.list_world
                  (L "memo.png"))).
  exists memo_text, (JArr []).
  split; [reflexivity|]. split; [reflexivity|].
  split; [intros fields; discriminate|reflexivity].
Defined.

(** ** What the scores look for *)

Import PatternSpec SearchFacts.

(** X15. The receipt score gets its date point exactly when the text
    contains, anywhere, a digit, a "/" or "-", one or two digits, a "/" or
    "-" and two digits; more digits may stand before and after. *)
Theorem date_point_iff (text : str) :
  search receipt_date_pattern text = true <-> occurs date_shape text.
Proof.
  apply search_occurs.
  - apply matches_date.
  - intros prev m rest. apply date_matches.
Qed.

Lemma date_point_iff_witness :
  search receipt_date_pattern (L "ref 2021-3-4567") = true.
Proof.
  apply (proj2 (date_point_iff (L "ref 2021-3-4567"))).
  exists (L "ref 202"), (L "1-3-45"), (L "67"). split; [reflexivity|].
  exists "1"%char, "-"%char, (L "3"), "-"%char, "4"%char, "5"%char.
  repeat split; auto.
Defined.

(** X16. The invoice score gets its two points for an invoice number
    exactly when the text contains "inv" in any case, then any letters
    among o, i, c, e, at most one character that is not an ASCII letter or
    digit, whitespace, at most one "#", whitespace and a digit; and its
    point for a due date exactly when it contains "due" and "date", or
    "payment" and "due", in any case with whitespace between. *)
Theorem invoice_points_iff (text : str) :
  (search invoice_num_pattern text = true
   <-> occurs invoice_number_shape text)
  /\ (search invoice_date_pattern text = true
      <-> occurs due_date_shape text).
Proof.
  split.
  - apply search_occurs.
    + apply matches_invoice_number.
    + intros prev m rest. apply invoice_number_matches.
  - apply search_occurs.
    + intros prev m rest M. apply matches_due_date in M.
      exists [], m, []. rewrite app_nil_r. auto.
    + intros prev m rest H. apply matches_due_date. exact H.
Qed.

Lemma invoice_points_iff_witness :
  search invoice_num_pattern (L "see INV-0042") = true
  /\ search invoice_date_pattern (L "Payment  DUE in May") = true.
Proof.
  split.
  - apply (proj2 (proj1 (invoice_points_iff (L "see INV-0042")))).
    exists (L "see "), (L "INV-0"), (L "042"). split; [reflexivity|].
    exists (L "INV"), [], (L "-"), [], [], [], "0"%char.
    repeat split; auto. right. exists "-"%char. auto.
  - apply (proj2 (proj2 (invoice_points_iff (L "Payment  DUE in May")))).
    exists [], (L "Payment  DUE"), (L " in May"). split; [reflexivity|].
    exists (L "Payment"), (L "  "), (L "DUE").
    split; [reflexivity|]. split; [discriminate|]. split; [reflexivity|].
    right. split; reflexivity.
Defined.

(** ** [_fix_receipt_formatting] *)

Import ReceiptFormatting FormatFacts.

(** X17. Whatever the text, the result of [_fix_receipt_formatting] has no
    three newlines in a row. *)
Theorem fix_receipt_formatting_newlines (text : str) :
  no_triple_newline (_fix_receipt_formatting text) = true.
Proof.
  unfold _fix_receipt_formatting, sub.
  set (t := sub_from total_pattern _ _ _ _).
  exact (proj1 (@collapse_newlines (length t) t None (le_n _))).
Qed.

(** ** PDFs, documents and folders *)

Import Documents DocumentSpec DocumentFacts.

Section DocumentsSection.
Variable w : world.
Variable fs : pdf_services.

#[local] Arguments L : simpl never.
#[local] Arguments ImageProcessor.process_image : simpl never.
#[local] Arguments page_path : simpl never.
#[local] Arguments to_dict : simpl never.
#[local] Arguments lookup : simpl never.

(** X18. [process_pdf] returns a result only for a PDF without pages, and
    the result is then empty.  For a PDF with pages it works on the first
    page only and raises: what [process_image] raised, or else the
    [KeyError] for ['text'], a key the dict of [process_image] does not
    have.  So [process_document] never returns text read from a PDF. *)
Theorem process_pdf_first_page (pdf_path : str) (dpi : nat) :
  (forall r log,
     process_pdf w fs pdf_path dpi = (Ok r, log) ->
     convert_from_path fs pdf_path dpi = Ok []
     /\ r = mk_pdf [] [] /\ log = [])
  /\ (forall image images temp_dir,
        convert_from_path fs pdf_path dpi = Ok (image :: images) ->
        temporary_directory fs = Ok temp_dir ->
        save_png fs image (page_path temp_dir 1) = Ok tt ->
        process_pdf w fs pdf_path dpi
        = (match fst (ImageProcessor.process_image w (page_path temp_dir 1))
           with
           | Raise e => Raise e
           | Ok _ => Raise (L "'text'")
           end,
           snd (ImageProcessor.process_image w (page_path temp_dir 1))))
  /\ (forall r log,
        process_document w fs pdf_path dpi = (Ok (PdfDocument r), log) ->
        convert_from_path fs pdf_path dpi = Ok [] /\ r = mk_pdf [] []).
Proof.
  assert (Hpages : forall image images temp_dir r log,
             pages w fs temp_dir (image :: images) 0 [] [] <> (Ok r, log)).
  { intros image images temp_dir r log. cbn [pages Nat.add].
    destruct (save_png fs image (page_path temp_dir 1)); [|discriminate].
    destruct (ImageProcessor.process_image w (page_path temp_dir 1))
      as [[resp|e] l]; cbn; [|discriminate].
    rewrite to_dict_no_text. discriminate. }
  assert (H1 : forall r log,
             process_pdf w fs pdf_path dpi = (Ok r, log) ->
             convert_from_path fs pdf_path dpi = Ok []
             /\ r = mk_pdf [] [] /\ log = []).
  { intros r log. unfold process_pdf.
    destruct (convert_from_path fs pdf_path dpi) as [images|e];
      [|discriminate].
    destruct (temporary_directory fs) as [temp_dir|e]; [|discriminate].
    destruct images as [|image images].
    - cbn. intros H. injection H as <- <-. auto.
    - destruct (pages w fs temp_dir (image :: images) 0 [] [])
        as [[[texts bxs]|e] l] eqn:E; cbn; [|discriminate].
      exfalso. exact (Hpages _ _ _ _ _ E). }
  split; [exact H1|]. split.
  - intros image images temp_dir Hc Ht Hs. unfold process_pdf.
    rewrite Hc, Ht. cbn [pages Nat.add]. rewrite Hs.
    destruct (ImageProcessor.process_image w (page_path temp_dir 1))
      as [[resp|e] l]; cbn; [|rewrite ?app_nil_r; reflexivity].
    rewrite to_dict_no_text. cbn. rewrite ?app_nil_r. reflexivity.
  - intros r log. unfold process_document.
    destruct (str_eqb (lower (snd (splitext pdf_path))) (L ".pdf")).
    + destruct (process_pdf w fs pdf_path dpi) as [[d|e] l] eqn:E; cbn;
        [|discriminate].
      intros H. injection H as <- _.
      destruct (H1 _ _ eq_refl) as (Hc & Hr & _). auto.
    + destruct (ImageProcessor.in_list _ image_extensions);
        [|discriminate].
      destruct (ImageProcessor.process_image w pdf_path) as [[d|e] l];
        cbn; discriminate.
Qed.

(** X19. For a path made of a directory part, a file name that is not all
    dots and an extension, [process_document] looks at the extension
    without regard to case: an image extension sends the path to
    [process_image], and an extension that is neither that of a PDF nor of
    an image raises "Unsupported file type" with the lower-case extension
    before any service is called.  A name without extension, or with
    leading dots only, is rejected in the same way. *)
Theorem process_document_by_extension (dir name ext : str) (dpi : nat) :
  dir_part dir -> without SEP name = true ->
  without SEP ext = true -> without DOT ext = true ->
  (only_dots name = false ->
   let path := dir ++ name ++ DOT :: ext in
   (ImageProcessor.in_list (lower (DOT :: ext)) image_extensions = true ->
    process_document w fs path dpi
    = (match fst (ImageProcessor.process_image w path) with
       | Ok d => Ok (ImageDocument d)
       | Raise e => Raise e
       end,
       snd (ImageProcessor.process_image w path)))
   /\ (ImageProcessor.in_list (lower (DOT :: ext))
         (L ".pdf" :: image_extensions) = false ->
       process_document w fs path dpi
       = (Raise (L "Unsupported file type: " ++ lower (DOT :: ext)), [])))
  /\ (only_dots name = true ->
      process_document w fs (dir ++ name ++ ext) dpi
      = (Raise (L "Unsupported file type: "), [])).
Proof.
  intros Hdir Hname Hsep Hdot. split.
  - intros Hdots path. unfold process_document. unfold path.
    rewrite (@splitext_named dir name ext Hdir Hname Hdots Hsep Hdot).
    cbn [snd]. split.
    + intros Himg.
      assert (Hpdf : str_eqb (lower (DOT :: ext)) (L ".pdf") = false).
      { unfold ImageProcessor.in_list, image_extensions in Himg.
        cbn [existsb] in Himg.
        destruct (str_eqb (lower (DOT :: ext)) (L ".pdf")) eqn:E;
          [|reflexivity].
        apply str_eqb_eq in E. rewrite E in Himg.
        vm_compute in Himg. discriminate. }
      rewrite Hpdf, Himg.
      destruct (ImageProcessor.process_image w (dir ++ name ++ DOT :: ext))
        as [[d|e] l]; cbn; rewrite ?app_nil_r; reflexivity.
    + unfold ImageProcessor.in_list. cbn [existsb]. intros H.
      apply orb_false_iff in H as [H1 H2].
      unfold ImageProcessor.in_list. rewrite H1, H2. reflexivity.
  - intros Hdots. unfold process_document.
    assert (E : splitext (dir ++ name ++ ext) = (dir ++ name ++ ext, [])).
    { apply splitext_plain; assumption. }
    rewrite E. reflexivity.
Qed.

Variable gs : folder_services.

(** X20. [process_folder] raises only if [os.makedirs], [os.listdir] or
    the [print] of the [except] clause raises.  When it returns it has
    printed one line for each regular file of the listing, in the order of
    the listing, saying that the file was processed or that processing it
    failed, whatever happened to the files before it.  Every result it
    has written is what [process_document] returned for a regular file of
    the listing, goes under the name of that file with its extension
    replaced by ".json", and is reported as processed unless printing that
    report raised. *)
Theorem process_folder_reports (input_dir output_dir : str) (dpi : nat) :
  (forall names,
     let run := fst (process_entries w fs gs input_dir output_dir dpi names)
     in
     (snd run = Ok tt ->
      Forall2 reports (regular_files gs input_dir names)
        (printed_lines (fst run)))
     /\ (forall e,
           snd run = Raise e ->
           exists f e0,
             In f (regular_files gs input_dir names)
             /\ print gs (error_line f e0) = Raise e)
     /\ (forall path d,
           In (Written path d) (fst run) ->
           exists f,
             In f (regular_files gs input_dir names)
             /\ fst (process_document w fs (path_join input_dir f) dpi)
                = Ok d
             /\ path = path_join output_dir (fst (splitext f) ++ L ".json")
             /\ (In (Printed (success_line f)) (fst run)
                 \/ exists e, print gs (success_line f) = Raise e)))
  /\ (forall e,
        snd (fst (process_folder w fs gs input_dir output_dir dpi))
        = Raise e ->
        makedirs gs output_dir = Raise e
        \/ listdir gs input_dir = Raise e
        \/ exists f e0, print gs (error_line f e0) = Raise e)
  /\ (forall names,
        listdir gs input_dir = Ok names ->
        makedirs gs output_dir = Ok tt ->
        process_folder w fs gs input_dir output_dir dpi
        = process_entries w fs gs input_dir output_dir dpi names).
Proof.
  assert (Hloop : forall names,
     let run := fst (process_entries w fs gs input_dir output_dir dpi names)
     in
     (snd run = Ok tt ->
      Forall2 reports (regular_files gs input_dir names)
        (printed_lines (fst run)))
     /\ (forall e,
           snd run = Raise e ->
           exists f e0,
             In f (regular_files gs input_dir names)
             /\ print gs (error_line f e0) = Raise e)
     /\ (forall path d,
           In (Written path d) (fst run) ->
           exists f,
             In f (regular_files gs input_dir names)
             /\ fst (process_document w fs (path_join input_dir f) dpi)
                = Ok d
             /\ path = path_join output_dir (fst (splitext f) ++ L ".json")
             /\ (In (Printed (success_line f)) (fst run)
                 \/ exists e, print gs (success_line f) = Raise e))).
  { induction names as [|f names IH]; cbv zeta in *.
    - cbn. split; [constructor|]. split; [discriminate|]. intros ? ? [].
    - destruct IH as (IH1 & IH2 & IH3).
      rewrite process_entries_cons. cbv zeta.
      unfold regular_files in *. cbn [filter].
      destruct (isfile gs (path_join input_dir f)) eqn:Hf.
      + destruct (@process_entry_file w fs gs input_dir output_dir dpi f Hf)
          as [Hline Hw]. cbv zeta in Hline, Hw.
        destruct (fst (process_entry w fs gs input_dir output_dir dpi f))
          as [out r]. cbn [fst snd] in *.
        destruct Hline as [(-> & line & Hl & Hr)|(e & e0 & -> & He & Hl)];
          cbn [fst snd].
        * split; [|split].
          -- intros Hok. rewrite printed_lines_app, Hl. cbn [app].
             constructor; [exact Hr|exact (IH1 Hok)].
          -- intros e He. destruct (IH2 e He) as (f' & e0 & Hin & Hp).
             exists f', e0. split; [right; exact Hin|exact Hp].
          -- intros path d Hin. apply in_app_or in Hin as [Hin|Hin].
             ++ destruct (Hw _ _ Hin) as (Hd & Hp & Hs).
                exists f. split; [left; reflexivity|].
                split; [exact Hd|]. split; [exact Hp|].
                destruct Hs as [Hs|Hs]; [left; apply in_or_app; auto|].
                right. exact Hs.
             ++ destruct (IH3 _ _ Hin) as (f' & Hf' & Hd & Hp & Hs).
                exists f'. split; [right; exact Hf'|].
                split; [exact Hd|]. split; [exact Hp|].
                destruct Hs as [Hs|Hs]; [left; apply in_or_app; auto|].
                right. exact Hs.
        * split; [discriminate|]. split.
          -- intros e' H'. injection H' as <-. exists f, e0.
             split; [left; reflexivity|exact He].
          -- intros path d Hin. destruct (Hw _ _ Hin) as (Hd & Hp & Hs).
             exists f. split; [left; reflexivity|]. auto.
      + rewrite (@process_entry_other w fs gs input_dir output_dir dpi f Hf).
        cbn [fst snd app].
        destruct (fst (process_entries w fs gs input_dir output_dir dpi
                         names)) as [outs r'].
        cbn [fst snd] in *. split; [exact IH1|]. split; [exact IH2|].
        exact IH3. }
  split; [exact Hloop|]. split.
  - intros e. unfold process_folder.
    destruct (makedirs gs output_dir) as [u|e1].
    + destruct (listdir gs input_dir) as [names|e2].
      * intros H. destruct (proj1 (proj2 (Hloop names)) e H)
          as (f & e0 & _ & Hp).
        right. right. exists f, e0. exact Hp.
      * cbn. intros H. injection H as <-. right. left. reflexivity.
    + cbn. intros H. injection H as <-. left. reflexivity.
  - intros names Hl Hm. unfold process_folder. rewrite Hm, Hl. reflexivity.
Qed.

End DocumentsSection.

Lemma process_pdf_first_page_witness :
  process_pdf memo_world Scenario3.two_pages (L "doc.pdf") 300
  = (Raise (L "'text'"), [CallOCR (L "/tmp/tmpq1/page_1.png")]).
Proof.
  exact (proj1 (proj2 (process_pdf_first_page memo_world Scenario3.two_pages
                         (L "doc.pdf") 300))
           0%nat [1%nat] (L "/tmp/tmpq1") eq_refl eq_refl eq_refl).
Defined.

Lemma process_document_by_extension_witness :
  process_document memo_world Scenario3.two_pages (L "in/a.PNG") 300
  = (match fst (ImageProcessor.process_image memo_world (L "in/a.PNG")) with
     | Ok d => Ok (ImageDocument d)
     | Raise e => Raise e
     end,
     snd (ImageProcessor.process_image memo_world (L "in/a.PNG")))
  /\ process_document memo_world Scenario3.two_pages (L "in/notes.txt") 300
     = (Raise (L "Unsupported file type: .txt"), []).
Proof.
  split.
  - apply (proj1 (proj1 (@process_document_by_extension memo_world
                           Scenario3.two_pages (L "in/") (L "a") (L "PNG")
                           300 (or_intror (ex_intro _ (L "in") eq_refl))
                           eq_refl eq_refl eq_refl) eq_refl)).
    reflexivity.
  - apply (proj2 (proj1 (@process_document_by_extension memo_world
                           Scenario3.two_pages (L "in/") (L "notes")
                           (L "txt") 300
                           (or_intror (ex_intro _ (L "in") eq_refl))
                           eq_refl eq_refl eq_refl) eq_refl)).
    reflexivity.
Defined.

Lemma process_folder_reports_witness :
  Forall2 reports [L "a.PNG"; L "notes.txt"]
    (printed_lines
       (fst (fst (process_entries memo_world Scenario3.two_pages
                    Scenario3.scans (L "in") (L "out") 300
                    [L "a.PNG"; L "notes.txt"; L "old"])))).
Proof.
  apply (proj1 (proj1 (process_folder_reports memo_world Scenario3.two_pages
                         Scenario3.scans (L "in") (L "out") 300%nat)
                  [L "a.PNG"; L "notes.txt"; L "old"])).
  vm_compute. reflexivity.
Defined.
